(** * A2D2Dataset: the synchronized sensor-pair sampling engine

    A shallow embedding of [src/data/a2d2_dataset.py] (class [A2D2Dataset])
    and the properties of its index construction, train/val partitioning,
    crop filtering and bounded retry loop.

    Definitions:
    - [Py]        the fragment of Python the class relies on: exceptions,
                  sequence indexing and slicing, [str] methods,
                  [os.path.join], [sorted], and the numbers [int] and
                  binary64 [float] (the Standard Library's [SpecFloat]);
    - [External]  the collaborators outside the class: decoders, OpenCV,
                  the image transform, the random generators;
    - [Dataset]   the class itself: [__init__], [_create_data_pairs],
                  [_getitem_unsafe], [__getitem__];
    - [Spec]      the vocabulary of the statements;
    - [Example], [Toy]  a small listing and small collaborators.

    Properties:
    - [B64], [B64Nearest], [B64Mono]  binary64 rounding: [int(n * r)] lies
                  in [0, n / 2] and is the floor of the exact product
                  rounded to nearest, ties to even;
    - [PyFacts], [IndexFacts], [InitFacts], [RetrievalFacts], [PathFacts]
                  lemmas;
    - sections [Partition], [Construction], [Retrieval] and the sections
      after them: the statements about the index, the constructor, the
      caller in [train.py] and sample retrieval. *)

From Stdlib Require Import ZArith List Bool Ascii String Lia Permutation Sorted.
From Stdlib Require Import SpecFloat DecimalString.
Import ListNotations.

Local Open Scope string_scope.
Local Open Scope list_scope.
Local Open Scope Z_scope.

(* ================================================================= *)
(** * Python primitives *)

Module Py.

(** ** Exceptions and results *)

(** The exceptions that the modelled code can raise.  The message of the
    two exceptions raised explicitly by the class is kept as the string the
    f-string evaluates to. *)
Inductive exn : Type :=
| IndexError
| OverflowError
| ZeroDivisionError
| ValueError (msg : string)
| RuntimeError (msg : string).

Inductive result (A : Type) : Type :=
| Ok (a : A)
| Raise (e : exn).
Arguments Ok {A} a.
Arguments Raise {A} e.

Definition bind {A B : Type} (r : result A) (k : A -> result B) : result B :=
  match r with
  | Ok a => k a
  | Raise e => Raise e
  end.

Notation "x <- c ;; k" := (bind c (fun x => k))
  (at level 61, c at next level, right associativity).
Notation "' p <- c ;; k" := (bind c (fun p => k))
  (at level 61, p pattern, c at next level, right associativity).

(** ** Sequences: [len], indexing, slicing *)

Definition len {A : Type} (l : list A) : Z := Z.of_nat (List.length l).

(** [l[i]]: a negative index counts from the end; out of range raises
    [IndexError]. *)
Definition getitem {A : Type} (l : list A) (i : Z) : result A :=
  let j := if i <? 0 then i + len l else i in
  if j <? 0 then Raise IndexError
  else match nth_error l (Z.to_nat j) with
       | Some a => Ok a
       | None => Raise IndexError
       end.

(** Normalisation of a slice bound: negative bounds count from the end and
    every bound is clipped to [0, len]. *)
Definition slice_bound {A : Type} (l : list A) (k : Z) : nat :=
  let j := if k <? 0 then k + len l else k in
  Z.to_nat (Z.min (Z.max j 0) (len l)).

(** [l[:k]] *)
Definition slice_to {A : Type} (l : list A) (k : Z) : list A :=
  firstn (slice_bound l k) l.

(** [l[k:]] *)
Definition slice_from {A : Type} (l : list A) (k : Z) : list A :=
  skipn (slice_bound l k) l.

(** [x in l] for a collection of strings. *)
Definition contains (l : list string) (x : string) : bool :=
  existsb (String.eqb x) l.

(** [a % b] on [int]: the result has the sign of [b], as [Z.modulo]. *)
Definition mod_ (a b : Z) : result Z :=
  if b =? 0 then Raise ZeroDivisionError else Ok (a mod b).

(** ** [str] *)

(** [s.split(sep)] for the one-character separator [sep]: the list always
    has one more element than there are separators in [s]. *)
Fixpoint split_char (sep : ascii) (s : string) : list string :=
  match s with
  | EmptyString => [EmptyString]
  | String c s' =>
      if Ascii.eqb c sep then EmptyString :: split_char sep s'
      else match split_char sep s' with
           | seg :: rest => String c seg :: rest
           | [] => [String c EmptyString]
           end
  end.

Definition split_slash (s : string) : list string := split_char "/"%char s.

(** [s.replace(old, new)] for a non-empty [old]: leftmost non-overlapping
    occurrences.  [skip] counts the characters of a matched occurrence that
    are still to be consumed. *)
Fixpoint replace_from (old new : string) (skip : nat) (s : string) : string :=
  match s with
  | EmptyString => EmptyString
  | String c s' =>
      match skip with
      | S k => replace_from old new k s'
      | O =>
          if String.prefix old s
          then new ++ replace_from old new (String.length old - 1) s'
          else String c (replace_from old new O s')
      end
  end.

Definition replace (old new s : string) : string := replace_from old new O s.

Definition startswith (p s : string) : bool := String.prefix p s.

Fixpoint endswith_char (c : ascii) (s : string) : bool :=
  match s with
  | EmptyString => false
  | String a EmptyString => Ascii.eqb a c
  | String _ s' => endswith_char c s'
  end.

(** [os.path.join(a, *p)] of [posixpath]. *)
Definition join_step (path b : string) : string :=
  if startswith "/" b then b
  else if orb (String.eqb path EmptyString) (endswith_char "/"%char path) then path ++ b
  else path ++ "/" ++ b.

Definition os_path_join (a : string) (p : list string) : string :=
  fold_left join_step p a.

(** [str(n)] for an [int]. *)
Definition str_of_int (z : Z) : string :=
  NilZero.string_of_int (Z.to_int z).

(** ** [sorted] on strings

    Strings compare by code point, which is [String.compare] on the
    characters kept here.  The result of [sorted] is determined by its
    specification (a stable ordering of the input); it is computed here by
    insertion, front to back. *)
Fixpoint insert_sorted (x : string) (l : list string) : list string :=
  match l with
  | [] => [x]
  | y :: l' => if String.leb x y then x :: l else y :: insert_sorted x l'
  end.

Definition sorted (l : list string) : list string :=
  fold_right insert_sorted [] l.

(** ** Numbers: [int] and binary64 [float] *)

Definition prec : Z := 53.
Definition emax : Z := 1024.

Inductive num : Type :=
| PyInt (z : Z)
| PyFloat (f : spec_float).

(** [0.5] *)
Definition f_half : spec_float := S754_finite false 4503599627370496 (-53).
(** [1.0] *)
Definition f_one : spec_float := S754_finite false 4503599627370496 (-52).

(** [0.2] *)
Definition f_0_2 : spec_float := S754_finite false 7205759403792794 (-55).
(** [0.35] *)
Definition f_0_35 : spec_float := S754_finite false 6305039478318694 (-54).
(** [0.15] *)
Definition f_0_15 : spec_float := S754_finite false 5404319552844595 (-55).

(** [float(z)], correctly rounded; [OverflowError] when [z] is too large. *)
Definition float_of_int (z : Z) : result spec_float :=
  match binary_normalize prec emax z 0 false with
  | S754_infinity _ => Raise OverflowError
  | f => Ok f
  end.

(** Exact comparison of an [int] with a [float], as CPython does it
    (no rounding of the integer). [None] is the unordered case. *)
Definition compare_int_float (z : Z) (f : spec_float) : option comparison :=
  match f with
  | S754_nan => None
  | S754_infinity s => Some (if s then Gt else Lt)
  | S754_zero _ => Some (z ?= 0)
  | S754_finite s m e =>
      let v := cond_Zopp s (Zpos m) in
      Some (if 0 <=? e then z ?= v * 2 ^ e else z * 2 ^ (- e) ?= v)
  end.

Definition compare (a b : num) : option comparison :=
  match a, b with
  | PyInt x, PyInt y => Some (x ?= y)
  | PyFloat x, PyFloat y => SFcompare x y
  | PyInt x, PyFloat y => compare_int_float x y
  | PyFloat x, PyInt y => option_map CompOpp (compare_int_float y x)
  end.

(** [a < b] and [a > b] *)
Definition lt (a b : num) : bool :=
  match compare a b with Some Lt => true | _ => false end.
Definition gt (a b : num) : bool :=
  match compare a b with Some Gt => true | _ => false end.
Definition le (a b : num) : bool :=
  match compare a b with Some (Lt | Eq) => true | _ => false end.

(** The two-argument builtins: the first argument is kept unless the second
    is strictly smaller (resp. larger). *)
Definition min (a b : num) : num := if lt b a then b else a.
Definition max (a b : num) : num := if gt b a then b else a.

(** [n * v] for an [int] [n]. *)
Definition mul_int (n : Z) (v : num) : result num :=
  match v with
  | PyInt k => Ok (PyInt (n * k))
  | PyFloat f =>
      x <- float_of_int n ;;
      Ok (PyFloat (SFmul prec emax x f))
  end.

(** [int(v)]: truncation toward zero. *)
Definition int_of_float (f : spec_float) : result Z :=
  match f with
  | S754_nan => Raise (ValueError "cannot convert float NaN to integer")
  | S754_infinity _ => Raise OverflowError
  | S754_zero _ => Ok 0
  | S754_finite s m e =>
      Ok (cond_Zopp s (if 0 <=? e then Zpos m * 2 ^ e else Zpos m / 2 ^ (- e)))
  end.

Definition int (v : num) : result Z :=
  match v with
  | PyInt z => Ok z
  | PyFloat f => int_of_float f
  end.

End Py.

Import Py.


(* ================================================================= *)
(** * The external collaborators

    Decoders, OpenCV, albumentations, torch and the random generators are
    outside the class.  They are an interface here; file decoding is taken
    to succeed on the files of the index. *)

(** Binary64 scalars of the decoded arrays. *)
Definition scalar : Type := spec_float.

(** The arrays of one [.npz] scan: [points] is N x 3, the others have one
    entry per point. *)
Record lidar_data : Type := {
  points : list (scalar * scalar * scalar);
  reflectance : list scalar;
  row : list scalar;
  col : list scalar
}.

(** [self.image_transform]: the default pipeline, alone or after the
    augmentations. *)
Inductive transform : Type :=
| default_transforms
| augment_then_default.

Class External : Type := {
  Image : Type;
  Tensor : Type;
  Config : Type;
  (** state of the random generators *)
  World : Type;
  (** [image.shape[:2]], (height, width) *)
  image_shape : Image -> Z * Z;
  (** the two spatial dimensions of an image tensor *)
  tensor_shape : Tensor -> Z * Z;
  np_load : string -> lidar_data;
  cv2_imread : string -> Image;
  cv2_cvtColor_BGR2RGB : Image -> Image;
  undistort_image : Image -> string -> Config -> Image;
  (** [cv2.resize(image, (width, height))] *)
  cv2_resize : Image -> Z * Z -> Image;
  (** [image[top:top+h, left:left+w]] *)
  crop_image : Image -> Z -> Z -> Z -> Z -> Image;
  (** a draw from the inclusive range [lo, hi] *)
  randint : World -> Z -> Z -> Z * World;
  apply_transform : transform -> World -> Image -> Tensor * World
}.

(* ================================================================= *)
(** * The class *)

Module Dataset.

(** A row of the stacked point cloud: x, y, z, reflectance, row, col. *)
Definition point_row : Type := list scalar.

(** ** Index construction *)

(** [scene_dict]: a [dict] iterates in insertion order, so it is an
    association list with new keys added at the end. *)
Definition scene_dict_t : Type := list (string * list string).

(** [if seq_name not in scene_dict: scene_dict[seq_name] = []] followed by
    [scene_dict[seq_name].append(lidar_path)]. *)
Fixpoint dict_append (scene_dict : scene_dict_t) (seq_name lidar_path : string)
  : scene_dict_t :=
  match scene_dict with
  | [] => [(seq_name, [lidar_path])]
  | (k, paths) :: rest =>
      if String.eqb seq_name k then (k, paths ++ [lidar_path]) :: rest
      else (k, paths) :: dict_append rest seq_name lidar_path
  end.

(** The condition of the [continue] in the first loop. *)
Definition is_excluded (missing_keys_files missing_point_clouds : list string)
    (lidar_path : string) : bool :=
  contains missing_keys_files lidar_path || contains missing_point_clouds lidar_path.

(** [lidar_path.split("/")[-4]] *)
Definition seq_name_of (lidar_path : string) : result string :=
  getitem (split_slash lidar_path) (-4).

(** The first loop of [_create_data_pairs]. *)
Fixpoint group_paths (missing_keys_files missing_point_clouds : list string)
    (scene_dict : scene_dict_t) (lidar_paths : list string) : result scene_dict_t :=
  match lidar_paths with
  | [] => Ok scene_dict
  | lidar_path :: rest =>
      if is_excluded missing_keys_files missing_point_clouds lidar_path
      then group_paths missing_keys_files missing_point_clouds scene_dict rest
      else
        seq_name <- seq_name_of lidar_path ;;
        group_paths missing_keys_files missing_point_clouds
          (dict_append scene_dict seq_name lidar_path) rest
  end.

(** The body of the two inner loops: the pair of one scan. *)
Definition make_pair (root_path seq_name lidar_path : string)
  : result (string * string) :=
  file_name <- getitem (split_slash lidar_path) (-1) ;;
  let image_file_name := replace ".npz" ".png" (replace "lidar" "camera" file_name) in
  let image_path :=
    os_path_join root_path [seq_name; "camera/cam_front_center"; image_file_name] in
  Ok (lidar_path, image_path).

Fixpoint make_pairs (root_path seq_name : string) (lidar_paths : list string)
  : result (list (string * string)) :=
  match lidar_paths with
  | [] => Ok []
  | lidar_path :: rest =>
      p <- make_pair root_path seq_name lidar_path ;;
      ps <- make_pairs root_path seq_name rest ;;
      Ok (p :: ps)
  end.

(** [int(num_samples * self.val_ratio)] *)
Definition num_val_samples_of (num_samples : Z) (val_ratio : num) : result Z :=
  x <- mul_int num_samples val_ratio ;;
  int x.

(** The second loop of [_create_data_pairs], over [scene_dict.items()]. *)
Fixpoint split_groups (root_path : string) (val_ratio : num)
    (items : scene_dict_t)
    (train_data_pairs val_data_pairs : list (string * string))
  : result (list (string * string) * list (string * string)) :=
  match items with
  | [] => Ok (train_data_pairs, val_data_pairs)
  | (seq_name, lidar_paths) :: rest =>
      let num_samples := len lidar_paths in
      num_val_samples <- num_val_samples_of num_samples val_ratio ;;
      let num_train_samples := num_samples - num_val_samples in
      let train_lidar_paths := slice_to lidar_paths num_train_samples in
      let val_lidar_paths := slice_from lidar_paths num_train_samples in
      train_new <- make_pairs root_path seq_name train_lidar_paths ;;
      val_new <- make_pairs root_path seq_name val_lidar_paths ;;
      split_groups root_path val_ratio rest
        (train_data_pairs ++ train_new) (val_data_pairs ++ val_new)
  end.

(** [_create_data_pairs]; [glob_result] is what [glob.glob] returns for
    [root_path/*/lidar/cam_front_center/*.npz]. *)
Definition _create_data_pairs (root_path : string)
    (missing_keys_files missing_point_clouds : list string)
    (val_ratio : num) (glob_result : list string)
  : result (list (string * string) * list (string * string)) :=
  let lidar_paths := sorted glob_result in
  scene_dict <- group_paths missing_keys_files missing_point_clouds [] lidar_paths ;;
  split_groups root_path val_ratio scene_dict [] [].

(** ** Construction *)

(** What [print] wrote: the one warning of [__init__],
    [Warning: val_ratio should be between 0 and 0.5. Setting it to {val_ratio}.] *)
Inductive output : Type :=
| Warning_val_ratio (setting_it_to : num).

Section WithExternal.
Context {E : External}.

Record t : Type := {
  root_path : string;
  crop_size : option (Z * Z);
  config : Config;
  missing_keys_files : list string;
  missing_point_clouds : list string;
  augment : bool;
  image_transform : transform;
  val_ratio : num;
  train_data_pairs : list (string * string);
  val_data_pairs : list (string * string);
  data_pairs : list (string * string)
}.

(** The [if val_ratio < 0 or val_ratio > 0.5] block. *)
Definition clamp_val_ratio (val_ratio : num) : num * list output :=
  if lt val_ratio (PyInt 0) || gt val_ratio (PyFloat f_half)
  then
    let val_ratio := max (PyInt 0) (min val_ratio (PyFloat f_half)) in
    (val_ratio, [Warning_val_ratio val_ratio])
  else (val_ratio, []).

(** [__init__]; the loaded calibration and exclusion collections and the
    directory listing stand for the files they are read from. *)
Definition __init__ (root_path : string) (config : Config)
    (missing_keys_files missing_point_clouds : list string)
    (crop_size : option (Z * Z)) (val_ratio : num) (split : string)
    (augment : bool) (glob_result : list string)
  : result t * list output :=
  let image_transform :=
    if augment then augment_then_default else default_transforms in
  let '(val_ratio, out) := clamp_val_ratio val_ratio in
  (' (train_data_pairs, val_data_pairs) <-
       _create_data_pairs root_path missing_keys_files missing_point_clouds
         val_ratio glob_result ;;
   data_pairs <-
     (if String.eqb split "train" then Ok train_data_pairs
      else if String.eqb split "val" then Ok val_data_pairs
      else Raise (ValueError
             ("Invalid split value: " ++ split ++ ". Use 'train' or 'val'."))) ;;
   Ok {| root_path := root_path; crop_size := crop_size; config := config;
         missing_keys_files := missing_keys_files;
         missing_point_clouds := missing_point_clouds;
         augment := augment; image_transform := image_transform;
         val_ratio := val_ratio;
         train_data_pairs := train_data_pairs;
         val_data_pairs := val_data_pairs;
         data_pairs := data_pairs |},
   out).

Definition __len__ (self : t) : Z := len (data_pairs self).

(** ** Crop and filter *)

(** [np.hstack((points, reflectance.reshape(-1, 1), row.reshape(-1, 1),
    col.reshape(-1, 1)))]: the arrays must have the same number of rows. *)
Fixpoint stack_rows (pts : list (scalar * scalar * scalar))
    (refl rows cols : list scalar) : option (list point_row) :=
  match pts, refl, rows, cols with
  | [], [], [], [] => Some []
  | (x, y, z) :: pts', r :: refl', i :: rows', j :: cols' =>
      option_map (cons [x; y; z; r; i; j]) (stack_rows pts' refl' rows' cols')
  | _, _, _, _ => None
  end.

Definition hstack (d : lidar_data) : result (list point_row) :=
  match stack_rows (points d) (reflectance d) (row d) (col d) with
  | Some a => Ok a
  | None =>
      Raise (ValueError
        "all the input array dimensions except for the concatenation axis must match exactly")
  end.

(** Modelled from the spec: [a2d2_utils.random_crop] is not part of the
    sources; the integer origin of its window as a binary64 number, for
    the re-basing of section 4.4, step 3. *)
Definition b64_of_Z (z : Z) : scalar := binary_normalize prec emax z 0 false.

(** Modelled from the spec: [a2d2_utils.random_crop] is not part of the
    sources; the containment test [lo <= v < hi] of section 4.4, step 3,
    for integer bounds and a binary64 [v]. *)
Definition in_range (lo hi : Z) (v : scalar) : bool :=
  match compare_int_float lo v, compare_int_float hi v with
  | Some (Lt | Eq), Some Gt => true
  | _, _ => false
  end.

(** Modelled from the spec: [a2d2_utils.random_crop] is imported by the
    class but its module is not part of the sources.  Section 4.4, step 3:
    a point is retained when its pixel coordinate (row, col), columns 4 and
    5 of the stacked array, satisfies [top <= row < top + h] and
    [left <= col < left + w]. *)
Definition in_window (top left h w : Z) (p : point_row) : bool :=
  in_range top (top + h) (nth 4 p S754_nan) &&
  in_range left (left + w) (nth 5 p S754_nan).

(** Modelled from the spec: [a2d2_utils.random_crop] is not part of the
    sources.  The same step 3: a retained point has its pixel coordinate
    re-expressed relative to (top, left), geometry untouched. *)
Definition rebase (top left : Z) (p : point_row) : point_row :=
  match p with
  | [x; y; z; r; i; j] =>
      [x; y; z; r;
       SFsub prec emax i (b64_of_Z top); SFsub prec emax j (b64_of_Z left)]
  | _ => p
  end.

(** Modelled from the spec: [a2d2_utils.random_crop] is not part of the
    sources.  The point half of [align], section 4.4, step 3. *)
Definition crop_points (top left h w : Z) (point_cloud : list point_row)
  : list point_row :=
  map (rebase top left) (filter (in_window top left h w) point_cloud).

(** Modelled from the spec: [a2d2_utils.random_crop] is not part of the
    sources.  Its window, section 4.4, step 2: the window has the target
    size, clamped to the image when the image is smaller; its origin is
    drawn in [0, image_height - h] x [0, image_width - w]. *)
Definition crop_window (w : World) (image : Image) (crop_size : Z * Z)
  : (Z * Z * Z * Z) * World :=
  let '(image_height, image_width) := image_shape image in
  let '(target_h, target_w) := crop_size in
  let h := Z.min target_h image_height in
  let wd := Z.min target_w image_width in
  let '(crop_top, w) := randint w 0 (image_height - h) in
  let '(crop_left, w) := randint w 0 (image_width - wd) in
  ((crop_top, crop_left, h, wd), w).

(** Modelled from the spec: [a2d2_utils.random_crop] is not part of the
    sources.  Section 4.4, steps 2 and 3: the image cropped to the window
    and the points inside it. *)
Definition random_crop (w : World) (image : Image)
    (point_cloud : list point_row) (crop_size : Z * Z)
  : (Image * list point_row) * World :=
  let '((crop_top, crop_left, h, wd), w) := crop_window w image crop_size in
  ((crop_image image crop_top crop_left h wd,
    crop_points crop_top crop_left h wd point_cloud), w).

(** ** Sample retrieval *)

(** Conversion of one entry to [torch.float32]. *)
Definition to_float32 (v : scalar) : scalar :=
  match v with
  | S754_finite s m e => binary_round 24 128 s m e
  | _ => v
  end.

(** [torch.tensor(point_cloud[:, :4], dtype=torch.float32)] *)
Definition points_tensor_of (point_cloud : list point_row) : list point_row :=
  map (fun p => map to_float32 (slice_to p 4)) point_cloud.

(** [_getitem_unsafe].  [crop_size] is a pair or [None], so
    [if self.crop_size] tests for [None]; [self.image_transform] is always
    one of the two pipelines of [__init__], so the transform is applied. *)
Definition _getitem_unsafe (self : t) (w : World) (idx : Z)
  : result (Tensor * list point_row) * World :=
  match getitem (data_pairs self) idx with
  | Raise e => (Raise e, w)
  | Ok (lidar_path, image_path) =>
      let lidar_data := np_load lidar_path in
      match hstack lidar_data with
      | Raise e => (Raise e, w)
      | Ok point_cloud =>
          let image := cv2_imread image_path in
          let image := cv2_cvtColor_BGR2RGB image in
          let undistorted_image :=
            undistort_image image "front_center" (config self) in
          let '((undistorted_image, point_cloud), w) :=
            match crop_size self with
            | Some size => random_crop w undistorted_image point_cloud size
            | None => ((undistorted_image, point_cloud), w)
            end in
          let undistorted_image := cv2_resize undistorted_image (224, 224) in
          let '(transformed_image, w) :=
            apply_transform (image_transform self) w undistorted_image in
          let points_tensor := points_tensor_of point_cloud in
          (Ok (transformed_image, points_tensor), w)
      end
  end.

Definition max_attempts : Z := 100.

(** The message of the [RuntimeError] at the end of [__getitem__]; [idx] is
    the loop variable at that point. *)
Definition exhausted_message (idx : Z) : string :=
  "Could not find a valid sample after " ++ str_of_int max_attempts ++
  " attempts starting from index " ++ str_of_int idx.

(** The [while attempt < max_attempts] loop; [attempts_left] is
    [max_attempts - attempt]. *)
Fixpoint retry_loop (self : t) (attempts_left : nat) (w : World) (idx : Z)
  : result (Tensor * list point_row) * World :=
  match attempts_left with
  | O => (Raise (RuntimeError (exhausted_message idx)), w)
  | S attempts_left' =>
      match _getitem_unsafe self w idx with
      | (Raise e, w') => (Raise e, w')
      | (Ok (image, point_cloud), w') =>
          if len point_cloud >? 0 then (Ok (image, point_cloud), w')
          else
            match mod_ (idx + 1) (len (data_pairs self)) with
            | Raise e => (Raise e, w')
            | Ok idx' => retry_loop self attempts_left' w' idx'
            end
      end
  end.

Definition __getitem__ (self : t) (w : World) (idx : Z)
  : result (Tensor * list point_row) * World :=
  retry_loop self (Z.to_nat max_attempts) w idx.

End WithExternal.
End Dataset.

(* ================================================================= *)
(** * Vocabulary of the statements *)

Import Dataset.

Module Spec.

(** ** Inputs *)

(** Every match of [root/*/lidar/cam_front_center/*.npz] has at least four
    segments. *)
Definition has_layout (lidar_path : string) : Prop :=
  (4 <= List.length (split_slash lidar_path))%nat.

(** [val_ratio] is an [int] or a canonical binary64 number. *)
Definition well_formed (v : num) : Prop :=
  match v with
  | PyInt _ => True
  | PyFloat f => valid_binary prec emax f = true
  end.

(** [0 <= val_ratio <= 0.5] *)
Definition in_unit_half (v : num) : Prop :=
  le (PyInt 0) v = true /\ le v (PyFloat f_half) = true.

(** [val_ratio] is a number that compares: not the binary64 NaN. *)
Definition ordered (v : num) : Prop := v <> PyFloat S754_nan.

(** ** Records, sequences and groups *)

(** The records that pass the exclusion filter. *)
Definition survives (mk mpc : list string) (p : string) : bool :=
  negb (is_excluded mk mpc p).

(** The surviving records of a listing, in the order of the listing. *)
Definition surviving (mk mpc : list string) (l : list string) : list string :=
  filter (survives mk mpc) l.

(** The records of sequence [s]. *)
Definition of_seq (s p : string) : bool :=
  match seq_name_of p with
  | Ok s' => String.eqb s s'
  | Raise _ => false
  end.

(** [scene_dict.get(s, [])] *)
Definition lookup (d : scene_dict_t) (s : string) : list string :=
  match find (fun it => String.eqb s (fst it)) d with
  | Some it => snd it
  | None => []
  end.

(** The members of a group all carry the group's key. *)
Definition keyed (d : scene_dict_t) : Prop :=
  Forall (fun it => Forall (fun p => seq_name_of p = Ok (fst it)) (snd it)) d.

(** ** The split of a group *)

(** The number the second loop computes for a group; 0 stands for the
    groups on which the conversion raises. *)
Definition val_count (v : num) (paths : list string) : Z :=
  match num_val_samples_of (len paths) v with
  | Ok k => k
  | Raise _ => 0
  end.

Definition train_part (v : num) (it : string * list string) : list string :=
  slice_to (snd it) (len (snd it) - val_count v (snd it)).

Definition val_part (v : num) (it : string * list string) : list string :=
  slice_from (snd it) (len (snd it) - val_count v (snd it)).

(** ** The count of a val part, in arithmetic

    The number [val_ratio] is a dyadic rational [m * 2 ^ e]; its product
    with the size [n] of a group is the rational [(n * m) * 2 ^ e]. *)

(** The floor of [x * 2 ^ e]. *)
Definition floor_scaled (x e : Z) : Z :=
  if 0 <=? e then x * 2 ^ e else x / 2 ^ (- e).

(** The number of significant bits of a natural number. *)
Definition bit_length (p : Z) : Z := if p =? 0 then 0 else Z.log2 p + 1.

(** [p / 2 ^ k] rounded to the nearest integer, a tie to the even one. *)
Definition nearest_even (p k : Z) : Z :=
  let q := p / 2 ^ k in
  match 2 * (p mod 2 ^ k) ?= 2 ^ k with
  | Lt => q
  | Gt => q + 1
  | Eq => if Z.even q then q else q + 1
  end.

(** [floor(n * val_ratio)] on the exact product. *)
Definition exact_floor (n : Z) (v : num) : Z :=
  match v with
  | PyInt z => n * z
  | PyFloat (S754_finite s m e) => floor_scaled (n * cond_Zopp s (Zpos m)) e
  | PyFloat _ => 0
  end.

(** The floor of the exact product rounded to binary64: to the nearest
    number with 53 significant bits and an exponent of at least -1074,
    ties to even.  A product of at most 53 significant bits is not
    rounded.  Stated for the numbers of [0, 0.5]: an [int], a zero or a
    positive finite [float]. *)
Definition nearest_floor (n : Z) (v : num) : Z :=
  match v with
  | PyInt z => n * z
  | PyFloat (S754_finite false m e) =>
      let p := n * Zpos m in
      let k := Z.max (bit_length p + e - 53) (-1074) - e in
      if k <=? 0 then floor_scaled p e
      else floor_scaled (nearest_even p k) (e + k)
  | PyFloat _ => 0
  end.

(** ** Pairs *)

Definition file_name_of (lidar_path : string) : string :=
  last (split_slash lidar_path) EmptyString.

Definition pair_of (root seq_name lidar_path : string) : string * string :=
  (lidar_path,
   os_path_join root
     [seq_name; "camera/cam_front_center";
      replace ".npz" ".png" (replace "lidar" "camera" (file_name_of lidar_path))]).

(** ** Order *)

(** The order of [sorted] on two strings. *)
Definition le_str (a b : string) : Prop := String.leb a b = true.


(** ** Rounding *)

(** The last step of [binary_round_aux]: packing a rounded mantissa. *)
Definition finish (s : bool) (m e : Z) : spec_float :=
  match m with
  | Z0 => S754_zero s
  | Zpos p => if e <=? emax - prec then S754_finite s p e else S754_infinity s
  | Zneg _ => S754_nan
  end.

(** ** Retrieval *)

Section WithExternal.
Context {E : External}.

(** Every scan of the active partition decodes to arrays of one length. *)
Definition well_decoded (self : t) : Prop :=
  Forall (fun pr => exists pc, hstack (np_load (fst pr)) = Ok pc) (data_pairs self).

(** [n] consecutive decode/undistort/crop cycles that each end with an
    empty point set, from index [idx] and generator state [w] to the index
    [idx'] and state [w'] the loop holds afterwards. *)
Inductive empty_cycles (self : t) : World -> Z -> nat -> World -> Z -> Prop :=
| cycles_none (w : World) (idx : Z) : empty_cycles self w idx 0 w idx
| cycles_next (w w1 w' : World) (idx idx' : Z) (image : Tensor)
    (point_cloud : list point_row) (n : nat) :
    _getitem_unsafe self w idx = (Ok (image, point_cloud), w1) ->
    len point_cloud = 0 ->
    empty_cycles self w1 ((idx + 1) mod len (data_pairs self)) n w' idx' ->
    empty_cycles self w idx (S n) w' idx'.

End WithExternal.

End Spec.

Import Spec.

(* ================================================================= *)
(** * A small dataset and a small set of collaborators *)

Module Example.

Definition root : string := "/data/A2D2".

Definition scan (seq_name id : string) : string :=
  root ++ "/" ++ seq_name ++ "/lidar/cam_front_center/" ++ seq_name
       ++ "_lidar_frontcenter_" ++ id ++ ".npz".

(** Two sequences, listed out of order: ten scans of the first and three
    of the second. *)
Definition listing : list string :=
  [scan "20180810" "03"; scan "20180807" "10"; scan "20180807" "02";
   scan "20180807" "01"; scan "20180807" "04"; scan "20180807" "03";
   scan "20180807" "06"; scan "20180807" "05"; scan "20180807" "08";
   scan "20180807" "07"; scan "20180807" "09"; scan "20180810" "01";
   scan "20180810" "02"].

Definition missing_keys : list string := [scan "20180810" "02"].

(** Twenty scans of one sequence. *)
Definition twenty_scans : list string :=
  map (scan "20180807")
    ["01"; "02"; "03"; "04"; "05"; "06"; "07"; "08"; "09"; "10";
     "11"; "12"; "13"; "14"; "15"; "16"; "17"; "18"; "19"; "20"].

Definition empty_clouds : list string := [scan "20180807" "11"].

End Example.

Module Toy.

(** [5.0] *)
Definition five : scalar := Eval vm_compute in b64_of_Z 5.

(** [20.0] *)
Definition twenty : scalar := Eval vm_compute in b64_of_Z 20.

(** One point, projected to pixel (5, 5). *)
Definition cloud : lidar_data :=
  {| points := [(f_one, f_half, f_one)]; reflectance := [f_half];
     row := [five]; col := [five] |}.

(** Images are 10 x 10 and known by their shape; every scan holds [cloud];
    every draw returns the lower end of its range. *)
Definition external : External :=
  {| Image := Z * Z;
     Tensor := Z * Z;
     Config := unit;
     World := nat;
     image_shape := fun image => image;
     tensor_shape := fun tensor => tensor;
     np_load := fun _ => cloud;
     cv2_imread := fun _ => (10, 10);
     cv2_cvtColor_BGR2RGB := fun image => image;
     undistort_image := fun image _ _ => image;
     cv2_resize := fun _ size => (snd size, fst size);
     crop_image := fun _ _ _ h w => (h, w);
     randint := fun w lo _ => (lo, S w);
     apply_transform := fun _ w image => (image, w) |}.

(** Three records of one sequence, all in the active partition. *)
Definition pairs : list (string * string) :=
  map (pair_of Example.root "20180810")
    [Example.scan "20180810" "01"; Example.scan "20180810" "02";
     Example.scan "20180810" "03"].

Definition dataset (crop : option (Z * Z)) : @Dataset.t external :=
  @Dataset.Build_t external Example.root crop tt [] [] false
    default_transforms (PyInt 0) pairs [] pairs.

(** A stacked cloud whose only point projects to row 20, below a 10 x 10
    image. *)
Definition outside_cloud : list point_row :=
  [[f_one; f_half; f_one; f_half; twenty; five]].

(** A stacked cloud whose only point projects to pixel (5, 5). *)
Definition inside_cloud : list point_row :=
  [[f_one; f_half; f_one; f_half; five; five]].

End Toy.

(* ================================================================= *)
(** * The caller in [train.py] *)

Module Train.

Definition DATA_ROOT_PATH : string :=
  "/homes/math/golombiewski/workspace/data/A2D2".

Section WithExternal.
Context {E : External}.

(** [torch.utils.data.DataLoader] and [data.a2d2_loader.build_loader],
    whose module is not among the sources:
    [build_loader dataset batch_size num_workers shuffle]. *)
Variable Loader : Type.
Variable build_loader : t -> Z -> Z -> bool -> Loader.

(** What the default arguments of [A2D2Dataset] stand for: the loaded
    calibration, the two loaded exclusion collections, and the listing of
    the dataset root, which is the same for both constructions. *)
Variables (config : Config) (missing_keys_files missing_point_clouds : list string).
Variable glob_result : list string.

(** [prepare_data_loaders]; [crop_size] has its default [(896, 896)]. *)
Definition prepare_data_loaders (batch_size num_workers : Z)
    (val_ratio : num) (augment : bool)
  : result (Loader * Loader) * list output :=
  let '(train_dataset, out_train) :=
    __init__ DATA_ROOT_PATH config missing_keys_files missing_point_clouds
      (Some (896, 896)) val_ratio "train" augment glob_result in
  match train_dataset with
  | Raise e => (Raise e, out_train)
  | Ok train_dataset =>
      let '(val_dataset, out_val) :=
        __init__ DATA_ROOT_PATH config missing_keys_files missing_point_clouds
          (Some (896, 896)) val_ratio "val" false glob_result in
      match val_dataset with
      | Raise e => (Raise e, out_train ++ out_val)
      | Ok val_dataset =>
          let train_loader :=
            build_loader train_dataset batch_size num_workers true in
          let val_loader :=
            build_loader val_dataset batch_size num_workers false in
          (Ok (train_loader, val_loader), out_train ++ out_val)
      end
  end.

End WithExternal.
End Train.

(* ================================================================= *)
(** * More vocabulary *)

Module Words.

(** The character [c] does not occur in [s]. *)
Fixpoint lacks (c : ascii) (s : string) : Prop :=
  match s with
  | EmptyString => True
  | String a s' => a <> c /\ lacks c s'
  end.

(** [replace(".npz", ".png")] after [replace("lidar", "camera")], as both
    loops of [_create_data_pairs] apply them to a file name. *)
Definition image_file_name_of (file_name : string) : string :=
  replace ".npz" ".png" (replace "lidar" "camera" file_name).

(** The returned rows of a scan that is not cropped: x, y, z and
    reflectance of each decoded point, in the order of the arrays. *)
Definition geometry_rows (d : lidar_data) : list point_row :=
  map (fun pr : scalar * scalar * scalar * scalar =>
         let '(x, y, z, r) := pr in
         [to_float32 x; to_float32 y; to_float32 z; to_float32 r])
      (combine (points d) (reflectance d)).

End Words.

Import Words.

(* ================================================================= *)
(** * Collaborators with a damaged scan *)

Module Damaged.

(** A scan whose reflectance array is shorter than its point array. *)
Definition broken_cloud : lidar_data :=
  {| points := [(f_one, f_half, f_one)]; reflectance := [];
     row := [Toy.five]; col := [Toy.five] |}.

(** As [Toy.external], but the first scan of the sequence is damaged. *)
Definition external : External :=
  {| Image := Z * Z;
     Tensor := Z * Z;
     Config := unit;
     World := nat;
     image_shape := fun image => image;
     tensor_shape := fun tensor => tensor;
     np_load := fun path =>
       if String.eqb path (Example.scan "20180810" "01")
       then broken_cloud else Toy.cloud;
     cv2_imread := fun _ => (10, 10);
     cv2_cvtColor_BGR2RGB := fun image => image;
     undistort_image := fun image _ _ => image;
     cv2_resize := fun _ size => (snd size, fst size);
     crop_image := fun _ _ _ h w => (h, w);
     randint := fun w lo _ => (lo, S w);
     apply_transform := fun _ w image => (image, w) |}.

Definition dataset (crop : option (Z * Z)) : @Dataset.t external :=
  @Dataset.Build_t external Example.root crop tt [] [] false
    default_transforms (PyInt 0) Toy.pairs [] Toy.pairs.

End Damaged.

(* ================================================================= *)
(** * Binary64 products are bounded by the exact product *)

Module B64.

Lemma digits2_pos_size (p : positive) : digits2_pos p = Pos.size p.
Proof. induction p; simpl; congruence. Qed.

Lemma digits_lower (p : positive) : 2 ^ (Zpos (digits2_pos p) - 1) <= Zpos p.
Proof.
  induction p as [p IH | p IH |]; simpl digits2_pos.
  - rewrite Pos2Z.inj_succ.
    replace (Z.succ (Zpos (digits2_pos p)) - 1) with (Z.succ (Zpos (digits2_pos p) - 1)) by lia.
    rewrite Z.pow_succ_r by lia. lia.
  - rewrite Pos2Z.inj_succ.
    replace (Z.succ (Zpos (digits2_pos p)) - 1) with (Z.succ (Zpos (digits2_pos p) - 1)) by lia.
    rewrite Z.pow_succ_r by lia. lia.
  - simpl. lia.
Qed.

Lemma digits_upper (p : positive) : Zpos p < 2 ^ Zpos (digits2_pos p).
Proof.
  induction p as [p IH | p IH |]; simpl digits2_pos.
  - rewrite Pos2Z.inj_succ, Z.pow_succ_r by lia. lia.
  - rewrite Pos2Z.inj_succ, Z.pow_succ_r by lia. lia.
  - simpl. lia.
Qed.

(** Digits are monotone: a number below [2 ^ k] has at most [k] digits. *)
Lemma digits_le (p : positive) (k : Z) :
  0 <= k -> Zpos p < 2 ^ k -> Zpos (digits2_pos p) <= k.
Proof.
  intros Hk Hp.
  destruct (Z_le_gt_dec (Zpos (digits2_pos p)) k) as [|Hgt]; [assumption|].
  exfalso.
  assert (2 ^ k <= 2 ^ (Zpos (digits2_pos p) - 1))
    by (apply Z.pow_le_mono_r; lia).
  pose proof (digits_lower p). lia.
Qed.

Lemma iter_pos_nat {A : Type} (f : A -> A) (p : positive) (x : A) :
  iter_pos f p x = Nat.iter (Pos.to_nat p) f x.
Proof.
  revert x. induction p as [p IH | p IH |]; intros x; simpl iter_pos.
  - rewrite !IH, Pos2Nat.inj_xI.
    replace (S (2 * Pos.to_nat p))%nat with (Pos.to_nat p + (Pos.to_nat p + 1))%nat by lia.
    rewrite !Nat.iter_add. simpl. reflexivity.
  - rewrite !IH, Pos2Nat.inj_xO.
    replace (2 * Pos.to_nat p)%nat with (Pos.to_nat p + Pos.to_nat p)%nat by lia.
    rewrite Nat.iter_add. reflexivity.
  - reflexivity.
Qed.

Lemma shr_1_m (mrs : shr_record) :
  0 <= shr_m mrs -> shr_m (shr_1 mrs) = shr_m mrs / 2.
Proof.
  destruct mrs as [m r s]; simpl. intros Hm.
  destruct m as [|p|p]; [reflexivity| |lia].
  destruct p as [p|p|]; simpl shr_m.
  - rewrite Pos2Z.inj_xI.
    apply Z.div_unique with (r := 1); lia.
  - rewrite Pos2Z.inj_xO.
    apply Z.div_unique with (r := 0); lia.
  - reflexivity.
Qed.

Lemma iter_shr_1_m (n : nat) (mrs : shr_record) :
  0 <= shr_m mrs ->
  shr_m (Nat.iter n shr_1 mrs) = shr_m mrs / 2 ^ Z.of_nat n.
Proof.
  intros Hm. induction n as [|n IH].
  - simpl. now rewrite Z.div_1_r.
  - rewrite Nat2Z.inj_succ, Z.pow_succ_r by lia.
    simpl Nat.iter. rewrite shr_1_m.
    + rewrite IH, Z.div_div by lia. f_equal. lia.
    + rewrite IH. apply Z.div_pos; lia.
Qed.

(** The mantissa and exponent after [shr]: a floor division by the power
    of two that the exponent gains. *)
Lemma shr_spec (mrs : shr_record) (e n : Z) :
  0 <= shr_m mrs ->
  let '(mrs', e') := shr mrs e n in
  e' = e + Z.max 0 n /\ shr_m mrs' = shr_m mrs / 2 ^ Z.max 0 n.
Proof.
  intros Hm. unfold shr. destruct n as [|p|p].
  - simpl. split; [lia | now rewrite Z.div_1_r].
  - rewrite iter_pos_nat, iter_shr_1_m by assumption.
    rewrite positive_nat_Z. replace (Z.max 0 (Zpos p)) with (Zpos p) by lia.
    split; reflexivity.
  - simpl. split; [lia | now rewrite Z.div_1_r].
Qed.

Lemma round_nearest_even_bounds (m : Z) (l : location) :
  m <= round_nearest_even m l <= m + 1.
Proof.
  destruct l as [|[| |]]; simpl; try lia.
  destruct (Z.even m); lia.
Qed.

Lemma Zdigits2_le (m k : Z) : 0 <= m -> 0 <= k -> m < 2 ^ k -> Zdigits2 m <= k.
Proof.
  intros Hm Hk Hlt. destruct m as [|p|p]; simpl; [lia | | lia].
  now apply digits_le.
Qed.

Lemma pow2_pos (k : Z) : 0 <= k -> 0 < 2 ^ k.
Proof. intros; apply Z.pow_pos_nonneg; lia. Qed.

(** Rounding an exact positive product [m * 2 ^ e] to binary64: the result
    is at most twice the exact value, unless it is at most the smallest
    subnormal; the exponent grows by no more than the precision requires. *)
Lemma binary_round_aux_bound (s : bool) (m : positive) (e : Z) :
  exists m' e',
    binary_round_aux prec emax s (Zpos m) e loc_Exact = finish s m' e' /\
    0 <= m' /\ e <= e' /\
    e' <= Z.max e (fexp prec emax (Zpos (digits2_pos m) + e)) + 1 /\
    (m' * 2 ^ (e' - e) <= 2 * Zpos m \/ (m' <= 1 /\ e' = emin prec emax)).
Proof.
  unfold binary_round_aux, shr_fexp.
  set (d := Zpos (digits2_pos m)).
  change (Zdigits2 (Zpos m)) with d.
  set (k1 := fexp prec emax (d + e) - e).
  pose proof (shr_spec (shr_record_of_loc (Zpos m) loc_Exact) e k1) as H1.
  simpl shr_m in H1. specialize (H1 ltac:(lia)).
  destruct (shr (shr_record_of_loc (Z.pos m) loc_Exact) e k1) as [mrs1 e1].
  destruct H1 as [He1 Hq].
  set (q := shr_m mrs1) in *.
  pose proof (round_nearest_even_bounds q (loc_of_shr_record mrs1)) as Hr.
  set (m1 := round_nearest_even q (loc_of_shr_record mrs1)) in *.
  set (K := Z.max 0 k1) in *.
  assert (HK : 0 <= K) by (unfold K; lia).
  pose proof (pow2_pos K HK) as HpK.
  assert (Hq0 : 0 <= q) by (rewrite Hq; apply Z.div_pos; lia).
  assert (HqK : q * 2 ^ K <= Zpos m).
  { rewrite Hq, Z.mul_comm. apply Z.mul_div_le; lia. }
  assert (HqK' : Zpos m < (q + 1) * 2 ^ K).
  { rewrite Hq. pose proof (Z.mod_pos_bound (Zpos m) (2 ^ K) HpK).
    pose proof (Z.div_mod (Zpos m) (2 ^ K)). lia. }
  set (k2 := fexp prec emax (Zdigits2 m1 + e1) - e1).
  pose proof (shr_spec (shr_record_of_loc m1 loc_Exact) e1 k2) as H2.
  simpl shr_m in H2. specialize (H2 ltac:(lia)).
  destruct (shr (shr_record_of_loc m1 loc_Exact) e1 k2) as [mrs2 e2].
  destruct H2 as [He2 Hm2].
  set (K2 := Z.max 0 k2) in *.
  assert (HK2 : 0 <= K2) by (unfold K2; lia).
  pose proof (pow2_pos K2 HK2) as HpK2.
  exists (shr_m mrs2), e2.
  split; [reflexivity|].
  assert (Hm2K : shr_m mrs2 * 2 ^ K2 <= m1).
  { rewrite Hm2, Z.mul_comm. apply Z.mul_div_le; lia. }
  assert (Hm20 : 0 <= shr_m mrs2) by (rewrite Hm2; apply Z.div_pos; lia).
  pose proof (digits_lower m) as Hdl. pose proof (digits_upper m) as Hdu.
  fold d in Hdl, Hdu.
  assert (Hd : 0 < d) by (unfold d; lia).
  (* the first shift leaves at most [prec] digits *)
  assert (Hq53 : q < 2 ^ 53).
  { assert (d <= 53 + K) by (unfold K, k1, fexp, prec; lia).
    assert (2 ^ d <= 2 ^ (53 + K)) by (apply Z.pow_le_mono_r; lia).
    rewrite Z.pow_add_r in * by lia. nia. }
  assert (Hd1 : Zdigits2 m1 <= 54).
  { apply Zdigits2_le; lia. }
  assert (Hk2 : K2 <= 1).
  { unfold K2, k2, fexp, emin, prec, emax in *. lia. }
  split; [assumption|]. split; [lia|].
  split.
  { unfold K, K2, k1, k2, fexp, emin, prec, emax in *. lia. }
  destruct (Z.eq_dec q 0) as [Hq0'|Hqn].
  - right.
    assert (HKd : d <= K).
    { destruct (Z_le_gt_dec d K); [assumption|exfalso].
      assert (2 ^ K <= 2 ^ (d - 1)) by (apply Z.pow_le_mono_r; lia). lia. }
    assert (He1' : e1 = emin prec emax).
    { unfold K, k1, fexp, emin, prec, emax in *. lia. }
    assert (Hm1 : m1 <= 1) by lia.
    assert (Hd1' : Zdigits2 m1 <= 1).
    { apply Zdigits2_le; simpl; lia. }
    assert (Hd1'' : 0 <= Zdigits2 m1).
    { destruct m1; simpl; lia. }
    assert (HK2' : K2 = 0).
    { unfold K2, k2, fexp, emin, prec, emax in *. lia. }
    rewrite HK2' in *. simpl in Hm2K.
    split; [lia|lia].
  - left.
    replace (e2 - e) with (K2 + K) by lia.
    rewrite Z.pow_add_r by lia.
    assert (m1 <= 2 * q) by lia.
    nia.
Qed.

Lemma iter_xO_value (p d : positive) :
  Zpos (Pos.iter xO p d) = Zpos p * 2 ^ Zpos d.
Proof.
  induction d as [|d IH] using Pos.peano_ind.
  - simpl. lia.
  - rewrite Pos.iter_succ, Pos2Z.inj_xO, IH, Pos2Z.inj_succ, Z.pow_succ_r; lia.
Qed.

Lemma iter_xO_digits (p d : positive) :
  Zpos (digits2_pos (Pos.iter xO p d)) = Zpos (digits2_pos p) + Zpos d.
Proof.
  induction d as [|d IH] using Pos.peano_ind.
  - simpl. lia.
  - rewrite Pos.iter_succ. simpl digits2_pos. lia.
Qed.

(** An integer below [2 ^ 53] converts to binary64 without rounding. *)
Lemma float_of_int_exact (n : Z) :
  0 < n < 2 ^ 53 ->
  exists m e,
    float_of_int n = Ok (S754_finite false m e) /\
    e <= 0 /\ Zpos m = n * 2 ^ (- e) /\ Zpos (digits2_pos m) = 53.
Proof.
  intros [Hn0 Hn]. destruct n as [|p|p]; try lia.
  pose proof (digits_le p 53 ltac:(lia) Hn) as Hd.
  assert (Hd0 : 0 < Zpos (digits2_pos p)) by lia.
  unfold float_of_int, binary_normalize, binary_round.
  assert (Hf : fexp prec emax (Zpos (digits2_pos p) + 0) = Zpos (digits2_pos p) - 53)
    by (unfold fexp, emin, prec, emax; lia).
  rewrite Hf. unfold shl_align.
  assert (Haux : forall mz ez, Zpos (digits2_pos mz) = 53 -> -52 <= ez <= 0 ->
            binary_round_aux prec emax false (Zpos mz) ez loc_Exact
            = S754_finite false mz ez).
  { intros mz ez Hmz Hez.
    assert (Hs : shr_fexp prec emax (Zpos mz) ez loc_Exact
                 = (Build_shr_record (Zpos mz) false false, ez)).
    { unfold shr_fexp. cbn [Zdigits2]. rewrite Hmz.
      replace (fexp prec emax (53 + ez) - ez) with 0
        by (unfold fexp, emin, prec, emax; lia).
      reflexivity. }
    unfold binary_round_aux. rewrite Hs.
    cbn [shr_m loc_of_shr_record round_nearest_even]. rewrite Hs.
    cbn [shr_m]. replace (ez <=? emax - prec) with true; [reflexivity|].
    symmetry. apply Z.leb_le. unfold emax, prec. lia. }
  destruct (Zpos (digits2_pos p) - 53 - 0) as [|k|k] eqn:Hk; try lia.
  - rewrite Haux by lia.
    exists p, 0. repeat split; try lia.
  - rewrite Haux.
    + exists (Pos.iter xO p k), (Zpos (digits2_pos p) - 53).
      split; [reflexivity|]. split; [lia|].
      rewrite iter_xO_value, iter_xO_digits.
      split; [|lia]. f_equal. f_equal. lia.
    + rewrite iter_xO_digits. lia.
    + lia.
Qed.

Lemma SFleb_finite_pos (m1 m2 : positive) (e1 e2 : Z) :
  SFleb (S754_finite false m1 e1) (S754_finite false m2 e2) = true ->
  e1 < e2 \/ (e1 = e2 /\ Zpos m1 <= Zpos m2).
Proof.
  unfold SFleb, SFcompare. intros Hle.
  destruct (Z.compare_spec e1 e2) as [He|He|He].
  - right. split; [assumption|].
    rewrite Pos.compare_cont_spec in Hle. unfold Pos.switch_Eq in Hle.
    apply Pos2Z.pos_le_pos. unfold Pos.le. intros Hgt.
    rewrite Hgt in Hle. discriminate Hle.
  - left. assumption.
  - discriminate Hle.
Qed.

(** A canonical binary64 number in [0, 0.5]. *)
Lemma le_half_mantissa (m : positive) (e : Z) :
  valid_binary prec emax (S754_finite false m e) = true ->
  SFleb (S754_finite false m e) f_half = true ->
  e <= -53 /\ 2 * Zpos m <= 2 ^ (- e) /\ Zpos (digits2_pos m) <= 53.
Proof.
  intros Hv Hle.
  apply SFleb_finite_pos in Hle.
  unfold valid_binary, bounded, canonical_mantissa in Hv.
  apply andb_prop in Hv. destruct Hv as [Hc _].
  apply Z.eqb_eq in Hc.
  assert (Hd : Zpos (digits2_pos m) <= 53)
    by (unfold fexp, emin, prec, emax in Hc; lia).
  pose proof (digits_upper m) as Hu.
  assert (Zpos m < 2 ^ 53).
  { eapply Z.lt_le_trans; [exact Hu|]. apply Z.pow_le_mono_r; lia. }
  destruct Hle as [He|[He Hm]].
  - split; [lia|]. split; [|assumption].
    assert (2 ^ 54 <= 2 ^ (- e)) by (apply Z.pow_le_mono_r; lia). lia.
  - subst e. split; [lia|]. split; [|assumption].
    change (- -53) with 53. lia.
Qed.

(** [0 <= r] holds of zeros, positive finite numbers and [+inf] only. *)
Lemma zero_le_float (r : spec_float) :
  le (PyInt 0) (PyFloat r) = true ->
  match r with
  | S754_zero _ | S754_infinity false | S754_finite false _ _ => True
  | _ => False
  end.
Proof.
  unfold le, compare, compare_int_float.
  destruct r as [s|s| |s m e]; try exact (fun _ => I).
  - destruct s; [discriminate | exact (fun _ => I)].
  - discriminate.
  - destruct s; [|exact (fun _ => I)].
    cbn [cond_Zopp]. intros H. exfalso.
    destruct (Z.leb_spec 0 e) as [He|He].
    + pose proof (pow2_pos e He) as Hp.
      assert (Hneg : Z.opp (Zpos m) * 2 ^ e < 0) by nia.
      apply Z.compare_gt_iff in Hneg. rewrite Hneg in H. discriminate H.
    + rewrite Z.mul_0_l in H. discriminate H.
Qed.

(** The heart of the partition arithmetic: for an [int] [n] below [2 ^ 53]
    and a canonical binary64 [r] with [0 <= r <= 0.5], [int(n * r)] is
    defined and lies in [0, n]. *)
Lemma int_mul_float_bounds (n : Z) (r : spec_float) :
  0 <= n < 2 ^ 53 ->
  valid_binary prec emax r = true ->
  le (PyInt 0) (PyFloat r) = true ->
  le (PyFloat r) (PyFloat f_half) = true ->
  exists p k, mul_int n (PyFloat r) = Ok (PyFloat p) /\
              int_of_float p = Ok k /\ 0 <= k <= n.
Proof.
  intros Hn Hv H0 Hh. apply zero_le_float in H0.
  change (SFleb r f_half = true) in Hh.
  unfold mul_int.
  destruct (Z.eq_dec n 0) as [->|Hn0].
  - (* no record *)
    change (float_of_int 0) with (Ok (S754_zero false)). cbn [bind].
    destruct r as [s|s| |s m e]; try contradiction.
    + exists (S754_zero (xorb false s)), 0. repeat split; lia.
    + destruct s; [contradiction|discriminate Hh].
    + exists (S754_zero (xorb false s)), 0. repeat split; lia.
  - destruct (float_of_int_exact n ltac:(lia)) as (mn & en & Hf & Hen & Hmn & Hdn).
    rewrite Hf. cbn [bind].
    destruct r as [s|s| |s m e]; try contradiction.
    + exists (S754_zero (xorb false s)), 0. repeat split; lia.
    + destruct s; [contradiction|discriminate Hh].
    + destruct s; [contradiction|].
      destruct (le_half_mantissa m e Hv Hh) as (He & Hm & Hdm).
      cbn [SFmul xorb].
      destruct (binary_round_aux_bound false (mn * m) (en + e))
        as (m' & e' & Hbra & Hm'0 & Hee' & He' & Hval).
      rewrite Hbra.
      assert (Hprod : Zpos (digits2_pos (mn * m)) <= 106).
      { apply digits_le; [lia|]. rewrite Pos2Z.inj_mul.
        pose proof (digits_upper mn) as Hun. pose proof (digits_upper m) as Hum.
        rewrite Hdn in Hun.
        assert (2 ^ Zpos (digits2_pos m) <= 2 ^ 53) by (apply Z.pow_le_mono_r; lia).
        change (2 ^ 106) with (2 ^ 53 * 2 ^ 53). nia. }
      assert (He'1 : e' <= 1).
      { unfold fexp, emin, prec, emax in He'. lia. }
      destruct m' as [|p'|p']; [| |lia].
      * exists (S754_zero false), 0. repeat split; lia.
      * cbn [finish]. replace (e' <=? emax - prec) with true
          by (symmetry; apply Z.leb_le; unfold emax, prec; lia).
        eexists; eexists. split; [reflexivity|]. cbn [int_of_float cond_Zopp].
        split; [reflexivity|].
        assert (Hpe : 0 < 2 ^ (- (en + e))) by (apply pow2_pos; lia).
        destruct Hval as [Hval|[Hp1 Hemin]].
        -- (* within twice the exact product, itself at most n / 2 *)
           rewrite Pos2Z.inj_mul in Hval.
           assert (Hub : Zpos p' * 2 ^ (e' - (en + e)) <= n * 2 ^ (- (en + e))).
           { replace (- (en + e)) with (- en + - e) by lia.
             rewrite Z.pow_add_r by lia.
             pose proof (pow2_pos (- en) ltac:(lia)).
             nia. }
           destruct (Z.leb_spec 0 e') as [Hpos|Hneg].
           ++ replace (e' - (en + e)) with (e' + - (en + e)) in Hub by lia.
              rewrite Z.pow_add_r in Hub by lia.
              pose proof (pow2_pos e' Hpos).
              split; nia.
           ++ split; [apply Z.div_pos; [lia|apply pow2_pos; lia]|].
              apply Z.div_le_upper_bound; [apply pow2_pos; lia|].
              replace (- (en + e)) with (- e' + (e' - (en + e))) in Hub by lia.
              rewrite Z.pow_add_r in Hub by lia.
              pose proof (pow2_pos (e' - (en + e)) ltac:(lia)).
              pose proof (pow2_pos (- e') ltac:(lia)).
              nia.
        -- (* at most the smallest subnormal: truncates to zero *)
           subst e'. change (emin prec emax) with (-1074).
           change (0 <=? -1074) with false. cbv iota.
           assert (Hp' : Zpos p' = 1) by lia.
           rewrite Hp', Z.div_small; [lia|].
           split; [lia|]. apply Z.pow_gt_1; lia.
Qed.

End B64.

(* ================================================================= *)
(** * Binary64 products round to nearest, ties to even *)

Module B64Nearest.
Import B64.

Lemma shr_1_rs (mrs : shr_record) :
  0 <= shr_m mrs ->
  shr_r (shr_1 mrs) = Z.odd (shr_m mrs) /\
  shr_s (shr_1 mrs) = shr_r mrs || shr_s mrs.
Proof.
  destruct mrs as [m r s]; simpl. intros Hm.
  destruct m as [|p|p]; [split; reflexivity| |lia].
  destruct p; split; reflexivity.
Qed.

Lemma iter_shr_1_bits (n : nat) (M : Z) :
  0 <= M ->
  shr_r (Nat.iter (S n) shr_1 (shr_record_of_loc M loc_Exact))
    = Z.odd (M / 2 ^ Z.of_nat n) /\
  shr_s (Nat.iter (S n) shr_1 (shr_record_of_loc M loc_Exact))
    = negb (M mod 2 ^ Z.of_nat n =? 0).
Proof.
  intros HM. induction n as [|n [IHr IHs]].
  - change (Nat.iter 1 shr_1 (shr_record_of_loc M loc_Exact))
      with (shr_1 (shr_record_of_loc M loc_Exact)).
    destruct (shr_1_rs (shr_record_of_loc M loc_Exact) HM) as [Hr Hs].
    rewrite Hr, Hs. simpl. rewrite Z.div_1_r, Z.mod_1_r. split; reflexivity.
  - assert (Hp : 0 < 2 ^ Z.of_nat n) by (apply Z.pow_pos_nonneg; lia).
    assert (Hm : shr_m (Nat.iter (S n) shr_1 (shr_record_of_loc M loc_Exact))
                 = M / 2 ^ Z.of_nat (S n)).
    { now rewrite iter_shr_1_m by exact HM. }
    change (Nat.iter (S (S n)) shr_1 (shr_record_of_loc M loc_Exact))
      with (shr_1 (Nat.iter (S n) shr_1 (shr_record_of_loc M loc_Exact))).
    destruct (shr_1_rs (Nat.iter (S n) shr_1 (shr_record_of_loc M loc_Exact)))
      as [Hr Hs].
    { rewrite Hm. apply Z.div_pos; [lia|apply Z.pow_pos_nonneg; lia]. }
    rewrite Hr, Hs, Hm, IHr, IHs. split; [reflexivity|].
    rewrite (Nat2Z.inj_succ n), Z.pow_succ_r by lia.
    rewrite (Z.mul_comm 2), Z.rem_mul_r by lia.
    pose proof (Z.mod_pos_bound M (2 ^ Z.of_nat n) Hp) as Hb.
    rewrite (Zmod_odd (M / 2 ^ Z.of_nat n)).
    destruct (Z.odd (M / 2 ^ Z.of_nat n)); simpl.
    + symmetry. apply negb_true_iff, Z.eqb_neq. lia.
    + rewrite Z.mul_0_r, Z.add_0_r. reflexivity.
Qed.

(** The rounded mantissa after a shift by [K] bits. *)
Lemma shr_nearest (M e K : Z) :
  0 <= M -> 0 <= K ->
  round_nearest_even
    (shr_m (fst (shr (shr_record_of_loc M loc_Exact) e K)))
    (loc_of_shr_record (fst (shr (shr_record_of_loc M loc_Exact) e K)))
  = nearest_even M K.
Proof.
  intros HM HK. unfold shr, nearest_even. destruct K as [|p|p]; [| |lia].
  - cbn [fst shr_m shr_record_of_loc loc_of_shr_record round_nearest_even].
    change (2 ^ 0) with 1. rewrite Z.div_1_r, Z.mod_1_r. reflexivity.
  - cbn [fst]. rewrite iter_pos_nat.
    destruct (Pos.to_nat p) as [|n] eqn:Hn; [lia|].
    assert (HpK : Zpos p = Z.of_nat (S n)) by lia.
    rewrite HpK.
    destruct (iter_shr_1_bits n M HM) as [Hr Hs].
    pose proof (iter_shr_1_m (S n) (shr_record_of_loc M loc_Exact) HM) as Hm.
    simpl shr_m in Hm at 2.
    destruct (Nat.iter (S n) shr_1 (shr_record_of_loc M loc_Exact)) as [m r s].
    cbn [shr_m shr_r shr_s] in *. subst m r s.
    assert (Hp : 0 < 2 ^ Z.of_nat n) by (apply Z.pow_pos_nonneg; lia).
    rewrite (Nat2Z.inj_succ n), Z.pow_succ_r by lia.
    rewrite (Z.mul_comm 2 (2 ^ Z.of_nat n)), Z.rem_mul_r by lia.
    pose proof (Z.mod_pos_bound M (2 ^ Z.of_nat n) Hp) as Hb.
    rewrite (Zmod_odd (M / 2 ^ Z.of_nat n)).
    unfold loc_of_shr_record.
    destruct (Z.odd (M / 2 ^ Z.of_nat n)).
    + destruct (Z.eqb_spec (M mod 2 ^ Z.of_nat n) 0) as [Hz|Hz]; cbn [negb].
      * rewrite Hz.
        replace (2 * (0 + 2 ^ Z.of_nat n * 1) ?= 2 ^ Z.of_nat n * 2) with Eq
          by (symmetry; apply Z.compare_eq_iff; lia).
        reflexivity.
      * replace (2 * (M mod 2 ^ Z.of_nat n + 2 ^ Z.of_nat n * 1)
                 ?= 2 ^ Z.of_nat n * 2) with Gt
          by (symmetry; apply Z.compare_gt_iff; lia).
        reflexivity.
    + replace (2 * (M mod 2 ^ Z.of_nat n + 2 ^ Z.of_nat n * 0)
               ?= 2 ^ Z.of_nat n * 2) with Lt
        by (symmetry; apply Z.compare_lt_iff; lia).
      destruct (negb (M mod 2 ^ Z.of_nat n =? 0)); reflexivity.
Qed.

Lemma floor_scaled_shift (x e j : Z) :
  0 <= j -> floor_scaled (x * 2 ^ j) e = floor_scaled x (e + j).
Proof.
  intros Hj. unfold floor_scaled.
  destruct (Z.leb_spec 0 e) as [He|He].
  - replace (0 <=? e + j) with true by (symmetry; apply Z.leb_le; lia).
    rewrite Z.pow_add_r by lia. ring.
  - destruct (Z.leb_spec 0 (e + j)) as [Hej|Hej].
    + replace j with ((e + j) + - e) at 1 by lia.
      rewrite Z.pow_add_r, Z.mul_assoc by lia.
      apply Z.div_mul. apply Z.pow_nonzero; lia.
    + replace (- e) with (- (e + j) + j) by lia.
      rewrite Z.pow_add_r by lia.
      apply Z.div_mul_cancel_r; apply Z.pow_nonzero; lia.
Qed.

Lemma int_of_finish (m e : Z) :
  0 <= m -> e <= emax - prec ->
  int_of_float (finish false m e) = Ok (floor_scaled m e).
Proof.
  intros Hm He. unfold finish, floor_scaled.
  destruct m as [|p|p]; [| |lia].
  - cbn [int_of_float]. f_equal. destruct (0 <=? e); [lia|]. reflexivity.
  - replace (e <=? emax - prec) with true by (symmetry; apply Z.leb_le; lia).
    reflexivity.
Qed.

(** The product of two positive mantissas, rounded: the mantissa of the
    result is the nearest-even quotient of the exact mantissa. *)
Lemma binary_round_aux_nearest (m : positive) (e : Z) :
  e <= fexp prec emax (Zpos (digits2_pos m) + e) ->
  exists m' e',
    binary_round_aux prec emax false (Zpos m) e loc_Exact = finish false m' e' /\
    0 <= m' /\
    fexp prec emax (Zpos (digits2_pos m) + e) <= e'
      <= fexp prec emax (Zpos (digits2_pos m) + e) + 1 /\
    m' * 2 ^ (e' - fexp prec emax (Zpos (digits2_pos m) + e))
    = nearest_even (Zpos m) (fexp prec emax (Zpos (digits2_pos m) + e) - e).
Proof.
  intros HeF.
  unfold binary_round_aux, shr_fexp.
  set (d := Zpos (digits2_pos m)) in *.
  change (Zdigits2 (Zpos m)) with d.
  set (F := fexp prec emax (d + e)) in *.
  set (k1 := F - e).
  assert (Hk1 : 0 <= k1) by (unfold k1; lia).
  pose proof (shr_spec (shr_record_of_loc (Zpos m) loc_Exact) e k1) as H1.
  pose proof (shr_nearest (Zpos m) e k1 ltac:(lia) Hk1) as Hne.
  simpl shr_m in H1. specialize (H1 ltac:(lia)).
  destruct (shr (shr_record_of_loc (Z.pos m) loc_Exact) e k1) as [mrs1 e1].
  cbn [fst] in Hne. destruct H1 as [He1 Hq].
  set (q := shr_m mrs1) in *.
  pose proof (round_nearest_even_bounds q (loc_of_shr_record mrs1)) as Hr.
  set (m1 := round_nearest_even q (loc_of_shr_record mrs1)) in *.
  replace (Z.max 0 k1) with k1 in * by lia.
  pose proof (pow2_pos k1 Hk1) as HpK.
  assert (Hq0 : 0 <= q) by (rewrite Hq; apply Z.div_pos; lia).
  set (k2 := fexp prec emax (Zdigits2 m1 + e1) - e1) in *.
  pose proof (shr_spec (shr_record_of_loc m1 loc_Exact) e1 k2) as H2.
  simpl shr_m in H2. specialize (H2 ltac:(lia)).
  destruct (shr (shr_record_of_loc m1 loc_Exact) e1 k2) as [mrs2 e2].
  destruct H2 as [He2 Hm2].
  set (K2 := Z.max 0 k2) in *.
  assert (HK2 : 0 <= K2) by (unfold K2; lia).
  exists (shr_m mrs2), e2.
  split; [reflexivity|].
  assert (Hm20 : 0 <= shr_m mrs2).
  { rewrite Hm2. apply Z.div_pos; [lia|apply pow2_pos; lia]. }
  pose proof (digits_upper m) as Hdu. fold d in Hdu.
  assert (Hd : 0 < d) by (unfold d; lia).
  assert (Hq53 : q < 2 ^ 53).
  { assert (d <= 53 + k1) by (unfold k1, F, fexp, prec; lia).
    assert (2 ^ d <= 2 ^ (53 + k1)) by (apply Z.pow_le_mono_r; lia).
    assert (HqK : q * 2 ^ k1 <= Zpos m).
    { rewrite Hq, Z.mul_comm. apply Z.mul_div_le; lia. }
    rewrite Z.pow_add_r in * by lia. nia. }
  assert (Hd1 : Zdigits2 m1 <= 54) by (apply Zdigits2_le; lia).
  assert (Hd1' : 0 <= Zdigits2 m1) by (destruct m1; simpl; lia).
  assert (HF : emin prec emax <= F) by (unfold F, fexp; lia).
  assert (Hk2 : K2 <= 1).
  { unfold K2, k2, fexp, emin, prec, emax in *. lia. }
  assert (He1F : e1 = F) by (unfold k1 in He1; lia).
  split; [assumption|]. split; [lia|].
  replace (e2 - F) with K2 by lia.
  rewrite <- Hne.
  destruct (Z.eq_dec K2 0) as [Hz|Hnz].
  - rewrite Hm2, Hz. change (2 ^ 0) with 1. rewrite Z.div_1_r. lia.
  - assert (HK21 : K2 = 1) by lia.
    assert (Hdig : Zdigits2 m1 = 54).
    { unfold K2, k2, fexp, emin, prec, emax in *. lia. }
    assert (Hm1 : m1 = 2 ^ 53).
    { destruct m1 as [|p1|p1]; simpl in Hdig; try lia.
      pose proof (digits_lower p1) as Hl. rewrite Hdig in Hl.
      change (2 ^ (54 - 1)) with (2 ^ 53) in Hl. lia. }
    rewrite Hm2, HK21, Hm1. reflexivity.
Qed.

Lemma bit_length_digits (p : positive) :
  bit_length (Zpos p) = Zpos (digits2_pos p).
Proof.
  unfold bit_length. cbn [Z.eqb].
  destruct p as [p|p|]; cbn [Z.log2 digits2_pos];
    [rewrite (digits2_pos_size p)|rewrite (digits2_pos_size p)|]; lia.
Qed.

Lemma bit_length_shift (p j : Z) :
  0 < p -> 0 <= j -> bit_length (p * 2 ^ j) = bit_length p + j.
Proof.
  intros Hp Hj. unfold bit_length.
  pose proof (pow2_pos j Hj).
  replace (p * 2 ^ j =? 0) with false by (symmetry; apply Z.eqb_neq; nia).
  replace (p =? 0) with false by (symmetry; apply Z.eqb_neq; lia).
  rewrite Z.log2_mul_pow2 by lia. lia.
Qed.

Lemma floor_scaled_zero (e : Z) : floor_scaled 0 e = 0.
Proof.
  unfold floor_scaled. destruct (0 <=? e); [apply Z.mul_0_l|].
  apply Zdiv_0_l.
Qed.

Lemma nearest_even_bounds (p k : Z) :
  p / 2 ^ k <= nearest_even p k <= p / 2 ^ k + 1.
Proof.
  unfold nearest_even.
  destruct (2 * (p mod 2 ^ k) ?= 2 ^ k); [destruct (Z.even _)| |]; lia.
Qed.

Lemma nearest_even_exact (x k : Z) :
  0 <= k -> nearest_even (x * 2 ^ k) k = x.
Proof.
  intros Hk. unfold nearest_even. pose proof (pow2_pos k Hk) as Hp.
  rewrite Z.mod_mul, Z.div_mul by lia.
  replace (2 * 0 ?= 2 ^ k) with Lt by (symmetry; apply Z.compare_lt_iff; lia).
  reflexivity.
Qed.

Lemma nearest_even_scale (p k j : Z) :
  0 <= k -> 0 <= j -> nearest_even (p * 2 ^ j) (k + j) = nearest_even p k.
Proof.
  intros Hk Hj. unfold nearest_even.
  pose proof (pow2_pos k Hk) as Hpk. pose proof (pow2_pos j Hj) as Hpj.
  rewrite Z.pow_add_r by lia.
  rewrite Z.div_mul_cancel_r, Z.mul_mod_distr_r by lia.
  rewrite Z.mul_assoc, <- Zmult_compare_compat_r by lia.
  reflexivity.
Qed.

Lemma nearest_even_zero (k : Z) : 0 <= k -> nearest_even 0 k = 0.
Proof.
  intros Hk. rewrite <- (Z.mul_0_l (2 ^ k)). now apply nearest_even_exact.
Qed.

(** [int(n * r)] for [n] below [2 ^ 53] and a canonical [r] in [0, 0.5]:
    the floor of the exact product rounded to nearest, ties to even, at 53
    bits; it is the floor of the exact product or one more. *)
Lemma int_mul_float_nearest (n : Z) (r : spec_float) :
  0 <= n < 2 ^ 53 ->
  valid_binary prec emax r = true ->
  le (PyInt 0) (PyFloat r) = true ->
  le (PyFloat r) (PyFloat f_half) = true ->
  num_val_samples_of n (PyFloat r) = Ok (nearest_floor n (PyFloat r)) /\
  exact_floor n (PyFloat r) <= nearest_floor n (PyFloat r)
    <= exact_floor n (PyFloat r) + 1.
Proof.
  intros Hn Hv H0 Hh. unfold num_val_samples_of.
  apply zero_le_float in H0. change (SFleb r f_half = true) in Hh.
  unfold mul_int.
  destruct (Z.eq_dec n 0) as [->|Hn0].
  - change (float_of_int 0) with (Ok (S754_zero false)). cbn [bind].
    destruct r as [s|s| |s m e]; try contradiction.
    + cbn. split; [reflexivity|lia].
    + destruct s; [contradiction|discriminate Hh].
    + destruct s; [contradiction|]. cbn [SFmul int int_of_float bind].
      unfold nearest_floor, exact_floor. cbn [cond_Zopp].
      rewrite Z.mul_0_l.
      set (k := Z.max (bit_length 0 + e - 53) (-1074) - e).
      destruct (Z.leb_spec k 0) as [Hk|Hk].
      * rewrite !floor_scaled_zero. split; [reflexivity|lia].
      * rewrite nearest_even_zero, !floor_scaled_zero by lia.
        split; [reflexivity|lia].
  - destruct (float_of_int_exact n ltac:(lia)) as (mn & en & Hf & Hen & Hmn & Hdn).
    rewrite Hf. cbn [bind].
    destruct r as [s|s| |s m e]; try contradiction.
    + cbn. split; [reflexivity|lia].
    + destruct s; [contradiction|discriminate Hh].
    + destruct s; [contradiction|].
      destruct (le_half_mantissa m e Hv Hh) as (He & Hm & Hdm).
      cbn [SFmul xorb int].
      set (p := n * Zpos m).
      set (j := - en).
      assert (Hj : 0 <= j) by (unfold j; lia).
      assert (Hp0 : 0 < p) by (unfold p; nia).
      pose proof (pow2_pos j Hj) as Hpj.
      assert (HP : Zpos (mn * m) = p * 2 ^ j).
      { rewrite Pos2Z.inj_mul, Hmn. unfold p, j. ring. }
      assert (Hd : Zpos (digits2_pos (mn * m)) = bit_length p + j).
      { rewrite <- bit_length_digits, HP. now apply bit_length_shift. }
      assert (Hbl : bit_length p + e <= 52).
      { unfold bit_length.
        replace (p =? 0) with false by (symmetry; apply Z.eqb_neq; lia).
        assert (Hlt : p < 2 ^ (52 - e)).
        { replace (52 - e) with (53 + (- e - 1)) by lia.
          rewrite Z.pow_add_r by lia.
          assert (Hh2 : 2 ^ (- e) = 2 * 2 ^ (- e - 1)).
          { replace (- e) with (Z.succ (- e - 1)) at 1 by lia.
            rewrite Z.pow_succ_r by lia. reflexivity. }
          assert (0 < 2 ^ (- e - 1)) by (apply pow2_pos; lia).
          unfold p. nia. }
        apply Z.log2_lt_pow2 in Hlt; lia. }
      assert (Hbl53 : 53 <= bit_length p + j).
      { rewrite <- Hd.
        destruct (Z_le_gt_dec 53 (Zpos (digits2_pos (mn * m)))); [assumption|].
        exfalso.
        pose proof (digits_upper (mn * m)) as Hu.
        pose proof (digits_lower mn) as Hl. rewrite Hdn in Hl.
        change (2 ^ (53 - 1)) with (2 ^ 52) in Hl.
        assert (2 ^ Zpos (digits2_pos (mn * m)) <= 2 ^ 52)
          by (apply Z.pow_le_mono_r; lia).
        rewrite Pos2Z.inj_mul in Hu. nia. }
      set (F := Z.max (bit_length p + e - 53) (-1074)).
      assert (HF : fexp prec emax (Zpos (digits2_pos (mn * m)) + (en + e)) = F).
      { rewrite Hd. unfold fexp, emin, prec, emax, F, j. f_equal; lia. }
      destruct (binary_round_aux_nearest (mn * m) (en + e))
        as (m' & e' & Hbra & Hm'0 & He' & Hval).
      { rewrite HF. unfold F, j in *. lia. }
      rewrite HF in He', Hval.
      rewrite Hbra, int_of_finish; [|assumption|unfold emax, prec, F in *; lia].
      assert (Hcode : floor_scaled m' e'
                      = floor_scaled (nearest_even (p * 2 ^ j) (F - e + j)) F).
      { replace e' with (F + (e' - F)) at 1 by lia.
        rewrite <- floor_scaled_shift by lia.
        rewrite Hval, HP. do 2 f_equal. unfold j. lia. }
      rewrite Hcode.
      unfold nearest_floor, exact_floor. cbn [cond_Zopp].
      fold p. fold F.
      set (k := F - e).
      assert (Hex : floor_scaled p e = p / 2 ^ (- e)).
      { unfold floor_scaled.
        replace (0 <=? e) with false by (symmetry; apply Z.leb_gt; lia).
        reflexivity. }
      destruct (Z.leb_spec k 0) as [Hk|Hk].
      * assert (Heq : nearest_even (p * 2 ^ j) (k + j) = p * 2 ^ (- k)).
        { replace (p * 2 ^ j) with ((p * 2 ^ (- k)) * 2 ^ (k + j)).
          - apply nearest_even_exact. unfold k, j, F in *. lia.
          - rewrite <- Z.mul_assoc, <- Z.pow_add_r by (unfold k, j, F in *; lia).
            do 2 f_equal. lia. }
        rewrite Heq, floor_scaled_shift by lia.
        replace (F + - k) with e by (unfold k; lia).
        split; [reflexivity|lia].
      * rewrite nearest_even_scale by lia.
        replace (e + k) with F by (unfold k; lia).
        split; [reflexivity|].
        rewrite Hex. unfold floor_scaled.
        replace (0 <=? F) with false by (symmetry; apply Z.leb_gt; unfold F; lia).
        assert (HFneg : 0 <= - F) by (unfold F; lia).
        pose proof (pow2_pos (- F) HFneg) as HpF.
        pose proof (pow2_pos k ltac:(lia)) as Hpk.
        pose proof (nearest_even_bounds p k) as Hb.
        assert (Hq : p / 2 ^ (- e) = p / 2 ^ k / 2 ^ (- F)).
        { rewrite Z.div_div by lia. rewrite <- Z.pow_add_r by lia.
          do 2 f_equal. unfold k. lia. }
        rewrite Hq. split.
        -- apply Z.div_le_mono; lia.
        -- eapply Z.le_trans; [apply (Z.div_le_mono _ (p / 2 ^ k + 1 * 2 ^ (- F))); lia|].
           rewrite Z.div_add by lia. lia.
Qed.

End B64Nearest.

(* ================================================================= *)
(** * Facts about the Python primitives *)

Module PyFacts.

(** ** Lexicographic order *)

Lemma ascii_compare_lt_trans (a b c : ascii) :
  Ascii.compare a b = Lt -> Ascii.compare b c = Lt -> Ascii.compare a c = Lt.
Proof.
  unfold Ascii.compare. rewrite !N.compare_lt_iff. apply N.lt_trans.
Qed.

Lemma compare_lt_trans (s1 s2 s3 : string) :
  String.compare s1 s2 = Lt -> String.compare s2 s3 = Lt ->
  String.compare s1 s3 = Lt.
Proof.
  revert s2 s3.
  induction s1 as [|a s1 IH]; intros [|b s2] [|c s3]; simpl;
    try discriminate; try reflexivity.
  destruct (Ascii.compare a b) eqn:Hab; try discriminate;
  destruct (Ascii.compare b c) eqn:Hbc; try discriminate; intros H12 H23.
  - apply Ascii.compare_eq_iff in Hab, Hbc. subst.
    replace (Ascii.compare c c) with Eq
      by (symmetry; unfold Ascii.compare; apply N.compare_refl).
    eapply IH; eassumption.
  - apply Ascii.compare_eq_iff in Hab. subst. now rewrite Hbc.
  - apply Ascii.compare_eq_iff in Hbc. subst. now rewrite Hab.
  - now rewrite (ascii_compare_lt_trans _ _ _ Hab Hbc).
Qed.

Lemma compare_refl (s : string) : String.compare s s = Eq.
Proof.
  induction s as [|a s IH]; simpl; [reflexivity|].
  replace (Ascii.compare a a) with Eq
    by (symmetry; unfold Ascii.compare; apply N.compare_refl).
  exact IH.
Qed.

Lemma leb_trans (s1 s2 s3 : string) :
  String.leb s1 s2 = true -> String.leb s2 s3 = true -> String.leb s1 s3 = true.
Proof.
  unfold String.leb.
  destruct (String.compare s1 s2) eqn:H12; try discriminate;
  destruct (String.compare s2 s3) eqn:H23; try discriminate; intros _ _.
  - apply String.compare_eq_iff in H12, H23. subst. now rewrite compare_refl.
  - apply String.compare_eq_iff in H12. subst. now rewrite H23.
  - apply String.compare_eq_iff in H23. subst. now rewrite H12.
  - now rewrite (compare_lt_trans _ _ _ H12 H23).
Qed.


(** ** [sorted] *)

Lemma insert_sorted_perm (x : string) (l : list string) :
  Permutation (insert_sorted x l) (x :: l).
Proof.
  induction l as [|y l IH]; simpl; [reflexivity|].
  destruct (String.leb x y); [reflexivity|].
  rewrite IH. apply perm_swap.
Qed.

Lemma sorted_perm (l : list string) : Permutation (sorted l) l.
Proof.
  induction l as [|x l IH]; simpl; [reflexivity|].
  rewrite insert_sorted_perm. now apply perm_skip.
Qed.

Lemma insert_sorted_sorted (x : string) (l : list string) :
  StronglySorted le_str l -> StronglySorted le_str (insert_sorted x l).
Proof.
  induction 1 as [|y l Hs IH Hall]; simpl.
  - constructor; constructor.
  - destruct (String.leb x y) eqn:Hxy.
    + constructor; [constructor; assumption|].
      constructor; [exact Hxy|].
      eapply Forall_impl; [|exact Hall].
      intros z Hz. eapply leb_trans; eassumption.
    + constructor; [exact IH|].
      eapply Permutation_Forall; [symmetry; apply insert_sorted_perm|].
      constructor; [|exact Hall].
      destruct (String.leb_total x y) as [H|H]; [congruence|exact H].
Qed.

Lemma sorted_sorted (l : list string) : StronglySorted le_str (sorted l).
Proof.
  induction l as [|x l IH]; simpl; [constructor|].
  now apply insert_sorted_sorted.
Qed.

(** ** Indexing and slicing *)

Lemma split_char_nonempty (sep : ascii) (s : string) : split_char sep s <> [].
Proof.
  induction s as [|c s IH]; simpl; [discriminate|].
  destruct (Ascii.eqb c sep); [discriminate|].
  destruct (split_char sep s); [contradiction|discriminate].
Qed.

(** A negative index [-k] reads the [k]-th element from the end. *)
Lemma getitem_neg_rev {A : Type} (l : list A) (k : nat) (a : A) :
  getitem l (- Z.of_nat (S k)) = Ok a <-> nth_error (rev l) k = Some a.
Proof.
  unfold getitem, len.
  replace (- Z.of_nat (S k) <? 0) with true by (symmetry; apply Z.ltb_lt; lia).
  destruct (Z.ltb_spec (- Z.of_nat (S k) + Z.of_nat (List.length l)) 0) as [Hlt|Hge].
  - split; [discriminate|]. intros H.
    assert (Hk : (k < List.length (rev l))%nat)
      by (apply nth_error_Some; congruence).
    rewrite length_rev in Hk. lia.
  - assert (Hk : (k < List.length l)%nat) by lia.
    rewrite nth_error_rev.
    replace (k <? List.length l)%nat with true
      by (symmetry; apply Nat.ltb_lt; assumption).
    replace (Z.to_nat (- Z.of_nat (S k) + Z.of_nat (List.length l)))
      with (List.length l - S k)%nat by lia.
    destruct (nth_error l (List.length l - S k)); split; congruence.
Qed.

Lemma getitem_neg_ok {A : Type} (l : list A) (k : nat) :
  (k < List.length l)%nat -> exists a, getitem l (- Z.of_nat (S k)) = Ok a.
Proof.
  intros Hk.
  destruct (nth_error (rev l) k) as [a|] eqn:Hn.
  - exists a. now apply getitem_neg_rev.
  - apply nth_error_None in Hn. rewrite length_rev in Hn. lia.
Qed.

Lemma getitem_in_range {A : Type} (l : list A) (i : Z) :
  0 <= i < len l -> exists a, getitem l i = Ok a /\ nth_error l (Z.to_nat i) = Some a.
Proof.
  unfold getitem, len. intros Hi.
  replace (i <? 0) with false by (symmetry; apply Z.ltb_ge; lia).
  replace (i <? 0) with false by (symmetry; apply Z.ltb_ge; lia).
  destruct (nth_error l (Z.to_nat i)) as [a|] eqn:Hn.
  - exists a. split; reflexivity.
  - apply nth_error_None in Hn. lia.
Qed.

Lemma slice_to_from {A : Type} (l : list A) (k : Z) :
  slice_to l k ++ slice_from l k = l.
Proof. apply firstn_skipn. Qed.

Lemma slice_bound_in_range {A : Type} (l : list A) (k : Z) :
  0 <= k <= len l -> slice_bound l k = Z.to_nat k.
Proof.
  unfold slice_bound, len. intros Hk.
  replace (k <? 0) with false by (symmetry; apply Z.ltb_ge; lia).
  f_equal. lia.
Qed.

Lemma len_slice_to {A : Type} (l : list A) (k : Z) :
  0 <= k <= len l -> len (slice_to l k) = k.
Proof.
  intros Hk. unfold slice_to. rewrite slice_bound_in_range by assumption.
  unfold len in *. rewrite length_firstn. lia.
Qed.

Lemma len_slice_from {A : Type} (l : list A) (k : Z) :
  0 <= k <= len l -> len (slice_from l k) = len l - k.
Proof.
  intros Hk. unfold slice_from. rewrite slice_bound_in_range by assumption.
  unfold len in *. rewrite length_skipn. lia.
Qed.

Lemma contains_In (l : list string) (x : string) :
  contains l x = true <-> In x l.
Proof.
  unfold contains. rewrite existsb_exists. split.
  - intros (y & Hy & He). apply String.eqb_eq in He. now subst.
  - intros H. exists x. split; [assumption|apply String.eqb_refl].
Qed.

End PyFacts.

(* ================================================================= *)
(** * The index: grouping and partitioning *)

Module IndexFacts.
Import PyFacts.

(** ** The dictionary *)

Lemma dict_append_perm (d : scene_dict_t) (s p : string) :
  Permutation (flat_map snd (dict_append d s p)) (flat_map snd d ++ [p]).
Proof.
  induction d as [|[k ps] d IH]; simpl; [reflexivity|].
  destruct (String.eqb s k); simpl.
  - rewrite <- !app_assoc. apply Permutation_app_head.
    apply Permutation_app_comm.
  - rewrite IH. now rewrite app_assoc.
Qed.

Lemma dict_append_lookup (d : scene_dict_t) (s p s' : string) :
  lookup (dict_append d s p) s' =
  if String.eqb s' s then lookup d s' ++ [p] else lookup d s'.
Proof.
  unfold lookup. induction d as [|[k ps] d IH]; simpl.
  - destruct (String.eqb s' s); reflexivity.
  - destruct (String.eqb_spec s k) as [->|Hsk]; simpl.
    + destruct (String.eqb_spec s' k); reflexivity.
    + destruct (String.eqb_spec s' k) as [->|Hs'k]; simpl.
      * destruct (String.eqb_spec k s); [congruence|reflexivity].
      * exact IH.
Qed.

Lemma dict_append_keys (d : scene_dict_t) (s p k : string) :
  In k (map fst (dict_append d s p)) <-> k = s \/ In k (map fst d).
Proof.
  induction d as [|[k' ps] d IH]; simpl.
  - intuition congruence.
  - destruct (String.eqb_spec s k') as [->|Hne]; simpl.
    + intuition congruence.
    + rewrite IH. intuition congruence.
Qed.

Lemma dict_append_nodup (d : scene_dict_t) (s p : string) :
  NoDup (map fst d) -> NoDup (map fst (dict_append d s p)).
Proof.
  induction d as [|[k ps] d IH]; simpl; intros Hnd.
  - constructor; [intros []|constructor].
  - inversion Hnd as [|? ? Hk Hd]; subst.
    destruct (String.eqb_spec s k) as [->|Hne]; simpl.
    + constructor; assumption.
    + constructor; [|auto].
      rewrite dict_append_keys. intros [->|H]; [congruence|contradiction].
Qed.

Lemma lookup_in (d : scene_dict_t) (k : string) (ps : list string) :
  NoDup (map fst d) -> In (k, ps) d -> lookup d k = ps.
Proof.
  unfold lookup. induction d as [|[k' ps'] d IH]; simpl; intros Hnd Hin;
    [contradiction|].
  inversion Hnd as [|? ? Hk Hd]; subst.
  destruct Hin as [Heq|Hin].
  - inversion Heq; subst. now rewrite String.eqb_refl.
  - destruct (String.eqb_spec k k') as [->|Hne]; [|auto].
    exfalso. apply Hk. change k' with (fst (k', ps)). now apply in_map.
Qed.

Lemma lookup_absent (d : scene_dict_t) (s : string) :
  ~ In s (map fst d) -> lookup d s = [].
Proof.
  unfold lookup. induction d as [|[k ps] d IH]; simpl; intros Hn; [reflexivity|].
  destruct (String.eqb_spec s k) as [->|Hne]; [exfalso; auto|auto].
Qed.

(** ** The first loop *)

Lemma seq_name_of_ok (p : string) :
  has_layout p -> exists s, seq_name_of p = Ok s.
Proof.
  intros H. unfold seq_name_of.
  apply (getitem_neg_ok (split_slash p) 3). exact H.
Qed.

Lemma group_paths_spec (mk mpc : list string) (paths : list string) :
  forall d,
    Forall has_layout paths ->
    exists d',
      group_paths mk mpc d paths = Ok d' /\
      (NoDup (map fst d) -> NoDup (map fst d')) /\
      Permutation (flat_map snd d') (flat_map snd d ++ filter (survives mk mpc) paths) /\
      (forall s, lookup d' s =
                 lookup d s ++ filter (of_seq s) (filter (survives mk mpc) paths)) /\
      (forall k, In k (map fst d') ->
                 In k (map fst d) \/
                 exists p, In p (filter (survives mk mpc) paths) /\ seq_name_of p = Ok k).
Proof.
  induction paths as [|p paths IH]; intros d Hl; simpl.
  - exists d. split; [reflexivity|]. split; [auto|].
    split; [now rewrite app_nil_r|].
    split; [intros; now rewrite app_nil_r | auto].
  - inversion Hl as [|? ? Hp Hps]; subst.
    assert (Hsv : survives mk mpc p = negb (is_excluded mk mpc p)) by reflexivity.
    destruct (is_excluded mk mpc p) eqn:Hex; simpl in Hsv; rewrite !Hsv.
    + apply IH; assumption.
    + destruct (seq_name_of_ok p Hp) as [s Hs]. rewrite Hs. simpl.
      destruct (IH (dict_append d s p) Hps) as (d' & Hg & Hnd & Hperm & Hlk & Hkeys).
      exists d'. split; [exact Hg|].
      split; [intros; apply Hnd; now apply dict_append_nodup|].
      split.
      { rewrite Hperm, dict_append_perm, <- app_assoc. reflexivity. }
      split.
      { intros s'. rewrite Hlk, dict_append_lookup.
        unfold of_seq at 2. rewrite Hs.
        destruct (String.eqb s' s); [now rewrite <- app_assoc | reflexivity]. }
      intros k Hk. destruct (Hkeys k Hk) as [Hin|(q & Hq & Hsq)].
      * apply dict_append_keys in Hin. destruct Hin as [->|Hin]; [|now left].
        right. exists p. split; [now left|assumption].
      * right. exists q. split; [now right|assumption].
Qed.

(** ** The second loop *)

Lemma getitem_last {A : Type} (l : list A) (d : A) :
  l <> [] -> getitem l (-1) = Ok (last l d).
Proof.
  intros Hl. change (-1) with (- Z.of_nat 1). apply getitem_neg_rev.
  destruct (exists_last Hl) as (l' & x & ->).
  now rewrite rev_app_distr, last_last.
Qed.

Lemma make_pair_spec (root s p : string) :
  make_pair root s p = Ok (pair_of root s p).
Proof.
  unfold make_pair, pair_of, file_name_of.
  rewrite (getitem_last _ EmptyString) by apply split_char_nonempty.
  reflexivity.
Qed.

Lemma make_pairs_spec (root s : string) (l : list string) :
  make_pairs root s l = Ok (map (pair_of root s) l).
Proof.
  induction l as [|p l IH]; simpl; [reflexivity|].
  now rewrite make_pair_spec, IH.
Qed.

Lemma map_fst_pair_of (root s : string) (l : list string) :
  map fst (map (pair_of root s) l) = l.
Proof. rewrite map_map. simpl. apply map_id. Qed.

Lemma le_int_float_finite (z : Z) (m : positive) (e : Z) :
  e < 0 ->
  le (PyInt z) (PyFloat (S754_finite false m e)) = true ->
  z * 2 ^ (- e) <= Zpos m.
Proof.
  unfold le, compare, compare_int_float. cbn [cond_Zopp]. intros He.
  replace (0 <=? e) with false by (symmetry; apply Z.leb_gt; lia).
  destruct (Z.compare_spec (z * 2 ^ (- e)) (Zpos m)); try discriminate; lia.
Qed.

(** An [int] in [0, 0.5] is [0]. *)
Lemma in_unit_half_int (z : Z) : in_unit_half (PyInt z) -> z = 0.
Proof.
  intros [H0 Hh].
  assert (0 <= z).
  { unfold le, compare in H0.
    destruct (Z.compare_spec 0 z); try discriminate; lia. }
  apply le_int_float_finite in Hh; [|lia].
  change (- -53) with 53 in Hh. lia.
Qed.

(** [int(num_samples * val_ratio)] is defined and at most [num_samples]. *)
Lemma num_val_samples_bounds (n : Z) (v : num) :
  0 <= n < 2 ^ 53 -> well_formed v -> in_unit_half v ->
  exists k, num_val_samples_of n v = Ok k /\ 0 <= k <= n.
Proof.
  intros Hn Hwf Hr. unfold num_val_samples_of.
  destruct v as [z|f].
  - apply in_unit_half_int in Hr. subst z. simpl.
    exists 0. split; [f_equal; lia | lia].
  - destruct Hr as [H0 Hh].
    destruct (B64.int_mul_float_bounds n f Hn Hwf H0 Hh) as (p & k & Hm & Hi & Hk).
    rewrite Hm. simpl. eauto.
Qed.

(** [int(num_samples * val_ratio)] in arithmetic: the floor of the exact
    product rounded to nearest, which is the floor of the exact product or
    one more. *)
Lemma num_val_samples_nearest (n : Z) (v : num) :
  0 <= n < 2 ^ 53 -> well_formed v -> in_unit_half v ->
  num_val_samples_of n v = Ok (nearest_floor n v) /\
  exact_floor n v <= nearest_floor n v <= exact_floor n v + 1.
Proof.
  intros Hn Hwf Hr. destruct v as [z|f].
  - apply in_unit_half_int in Hr. subst z. cbn. split; [reflexivity|lia].
  - destruct Hr as [H0 Hh]. now apply B64Nearest.int_mul_float_nearest.
Qed.

(** The two counts on small groups: they agree on 10 records at [0.2] and
    differ on 20 records at [0.15] and at [0.35], where the exact product
    lies just below an integer and rounds up to it. *)
Remark nearest_floor_examples :
  nearest_floor 10 (PyFloat f_0_2) = 2 /\ exact_floor 10 (PyFloat f_0_2) = 2 /\
  nearest_floor 20 (PyFloat f_0_15) = 3 /\ exact_floor 20 (PyFloat f_0_15) = 2 /\
  nearest_floor 20 (PyFloat f_0_35) = 7 /\ exact_floor 20 (PyFloat f_0_35) = 6.
Proof. repeat split; reflexivity. Qed.

(** The product is rounded to binary64 before it is truncated:
    [int(20 * 0.35)] is [7], although the binary64 number written [0.35]
    is below 35/100 and its exact product with 20 is below 7. *)
Remark product_rounds_before_truncation :
  num_val_samples_of 20 (PyFloat f_0_35) = Ok 7 /\
  20 * 6305039478318694 < 7 * 2 ^ 54.
Proof. split; reflexivity. Qed.

Lemma split_groups_spec (root : string) (v : num) (items : scene_dict_t) :
  forall tr0 va0,
    Forall (fun it => exists k, num_val_samples_of (len (snd it)) v = Ok k) items ->
    split_groups root v items tr0 va0 =
    Ok (tr0 ++ flat_map (fun it => map (pair_of root (fst it)) (train_part v it)) items,
        va0 ++ flat_map (fun it => map (pair_of root (fst it)) (val_part v it)) items).
Proof.
  induction items as [|[s ps] items IH]; intros tr0 va0 Hall; simpl.
  - now rewrite !app_nil_r.
  - inversion Hall as [|? ? [k Hk] Hrest]; subst. simpl in Hk.
    unfold train_part, val_part, val_count. simpl fst. simpl snd.
    rewrite Hk. simpl bind. rewrite !make_pairs_spec. simpl bind.
    rewrite IH by assumption. now rewrite <- !app_assoc.
Qed.

(** ** The index as a whole *)

Lemma filter_length_le_len {A : Type} (f : A -> bool) (l : list A) :
  len (filter f l) <= len l.
Proof. unfold len. pose proof (filter_length_le f l). lia. Qed.

(** What [_create_data_pairs] returns, group by group. *)
Lemma create_data_pairs_spec (root : string) (mk mpc : list string)
    (v : num) (glob_result : list string) :
  Forall has_layout glob_result ->
  len glob_result < 2 ^ 53 ->
  well_formed v -> in_unit_half v ->
  exists d,
    group_paths mk mpc [] (sorted glob_result) = Ok d /\
    _create_data_pairs root mk mpc v glob_result =
      Ok (flat_map (fun it => map (pair_of root (fst it)) (train_part v it)) d,
          flat_map (fun it => map (pair_of root (fst it)) (val_part v it)) d) /\
    NoDup (map fst d) /\
    Permutation (flat_map snd d) (filter (survives mk mpc) (sorted glob_result)) /\
    (forall s, lookup d s =
               filter (of_seq s) (filter (survives mk mpc) (sorted glob_result))) /\
    Forall (fun it => exists k, num_val_samples_of (len (snd it)) v = Ok k /\
                                0 <= k <= len (snd it)) d.
Proof.
  intros Hlay Hlen Hwf Hr.
  assert (Hlay' : Forall has_layout (sorted glob_result)).
  { eapply Permutation_Forall; [symmetry; apply sorted_perm|exact Hlay]. }
  destruct (group_paths_spec mk mpc (sorted glob_result) [] Hlay')
    as (d & Hg & Hnd & Hperm & Hlk & _).
  simpl in Hperm, Hlk. specialize (Hnd (NoDup_nil _)).
  assert (Hall : Forall (fun it => exists k,
            num_val_samples_of (len (snd it)) v = Ok k /\ 0 <= k <= len (snd it)) d).
  { apply Forall_forall. intros [k ps] Hin. simpl.
    apply num_val_samples_bounds; try assumption.
    split; [unfold len; lia|].
    rewrite <- (lookup_in d k ps Hnd Hin), Hlk.
    eapply Z.le_lt_trans; [apply filter_length_le_len|].
    eapply Z.le_lt_trans; [apply filter_length_le_len|].
    unfold len in *. now rewrite (Permutation_length (sorted_perm glob_result)). }
  exists d. split; [exact Hg|].
  split.
  { unfold _create_data_pairs. rewrite Hg. simpl bind.
    rewrite split_groups_spec; [reflexivity|].
    eapply Forall_impl; [|exact Hall]. intros it (k & Hk & _). eauto. }
  repeat split; assumption.
Qed.

(** ** Lists *)

Lemma filter_perm {A : Type} (f : A -> bool) (l l' : list A) :
  Permutation l l' -> Permutation (filter f l) (filter f l').
Proof.
  induction 1 as [|x l l' _ IH|x y l|l l' l'' _ IH1 _ IH2]; simpl.
  - reflexivity.
  - destruct (f x); [now apply perm_skip | exact IH].
  - destruct (f x), (f y); try reflexivity. apply perm_swap.
  - now transitivity (filter f l').
Qed.

Lemma nodup_app_disjoint {A : Type} (l1 l2 : list A) (a : A) :
  NoDup (l1 ++ l2) -> In a l1 -> ~ In a l2.
Proof.
  induction l1 as [|x l1 IH]; simpl; intros Hnd Hin; [contradiction|].
  inversion Hnd as [|? ? Hx Hrest]; subst.
  destruct Hin as [->|Hin]; [|now apply IH].
  intros H2. apply Hx, in_or_app. now right.
Qed.

Lemma filter_all {A : Type} (f : A -> bool) (l : list A) :
  Forall (fun a => f a = true) l -> filter f l = l.
Proof.
  induction 1 as [|a l Ha _ IH]; simpl; [reflexivity|].
  now rewrite Ha, IH.
Qed.

Lemma filter_none {A : Type} (f : A -> bool) (l : list A) :
  Forall (fun a => f a = false) l -> filter f l = [].
Proof.
  induction 1 as [|a l Ha _ IH]; simpl; [reflexivity|].
  now rewrite Ha.
Qed.

Lemma flat_map_split_perm {A B : Type} (f g h : A -> list B) (l : list A) :
  (forall a, f a ++ g a = h a) ->
  Permutation (flat_map f l ++ flat_map g l) (flat_map h l).
Proof.
  intros Hfg. induction l as [|a l IH]; simpl; [reflexivity|].
  rewrite <- Hfg, <- IH, <- !app_assoc. apply Permutation_app_head.
  rewrite !app_assoc. apply Permutation_app_tail, Permutation_app_comm.
Qed.

Lemma map_fst_flat_map (root : string) (part : string * list string -> list string)
    (d : scene_dict_t) :
  map fst (flat_map (fun it => map (pair_of root (fst it)) (part it)) d) =
  flat_map part d.
Proof.
  induction d as [|it d IH]; simpl; [reflexivity|].
  now rewrite map_app, map_fst_pair_of, IH.
Qed.






(** ** Groups and sequences *)

Lemma of_seq_true (s p : string) : of_seq s p = true <-> seq_name_of p = Ok s.
Proof.
  unfold of_seq. destruct (seq_name_of p) as [s'|e].
  - destruct (String.eqb_spec s s'); split; congruence.
  - split; discriminate.
Qed.

Lemma filter_of_seq_parts (part : list string -> list string)
    (d : scene_dict_t) (s : string) :
  (forall ps, incl (part ps) ps) ->
  NoDup (map fst d) -> keyed d ->
  filter (of_seq s) (flat_map (fun it => part (snd it)) d) = part (lookup d s).
Proof.
  intros Hincl. assert (Hnil : part [] = []).
  { destruct (part []) as [|x l] eqn:E; [reflexivity|].
    exfalso. apply (Hincl [] x). rewrite E. now left. }
  induction d as [|[k ps] d IH]; simpl; intros Hnd Hk.
  - change (lookup [] s) with (@nil string). now rewrite Hnil.
  - inversion Hnd as [|? ? Hkn Hnd']; subst.
    inversion Hk as [|? ? Hps Hk']; subst. simpl in Hps.
    rewrite filter_app, (IH Hnd' Hk').
    unfold lookup at 2. simpl.
    destruct (String.eqb_spec s k) as [->|Hne].
    + rewrite (lookup_absent d k Hkn), Hnil, app_nil_r.
      apply filter_all. rewrite Forall_forall in *. intros p Hp.
      apply of_seq_true, Hps, (Hincl ps), Hp.
    + rewrite filter_none; [reflexivity|].
      rewrite Forall_forall in *. intros p Hp.
      destruct (of_seq s p) eqn:E; [|reflexivity].
      apply of_seq_true in E. rewrite (Hps p (Hincl ps p Hp)) in E.
      congruence.
Qed.

Lemma incl_slice_to {A : Type} (k : list A -> Z) (ps : list A) :
  incl (slice_to ps (k ps)) ps.
Proof.
  intros a Ha. rewrite <- (slice_to_from ps (k ps)). apply in_or_app. now left.
Qed.

Lemma incl_slice_from {A : Type} (k : list A -> Z) (ps : list A) :
  incl (slice_from ps (k ps)) ps.
Proof.
  intros a Ha. rewrite <- (slice_to_from ps (k ps)). apply in_or_app. now right.
Qed.

Lemma keyed_of_lookup (d : scene_dict_t) (l : list string) :
  NoDup (map fst d) ->
  (forall s, lookup d s = filter (of_seq s) l) ->
  keyed d.
Proof.
  intros Hnd Hlk. apply Forall_forall. intros [k ps] Hin. simpl.
  rewrite <- (lookup_in d k ps Hnd Hin), Hlk.
  apply Forall_forall. intros p Hp. apply filter_In in Hp.
  now apply of_seq_true.
Qed.

Lemma lookup_in_dict (d : scene_dict_t) (s p : string) :
  In p (lookup d s) -> In (s, lookup d s) d.
Proof.
  unfold lookup.
  destruct (find (fun it => String.eqb s (fst it)) d) as [[k ps]|] eqn:Hf;
    [|intros []].
  intros _. apply find_some in Hf. destruct Hf as [Hin Heq].
  simpl in Heq. apply String.eqb_eq in Heq. now subst.
Qed.

Lemma is_excluded_In (mk mpc : list string) (p : string) :
  is_excluded mk mpc p = true <-> In p mk \/ In p mpc.
Proof.
  unfold is_excluded. now rewrite orb_true_iff, !contains_In.
Qed.

Lemma survives_not_excluded (mk mpc : list string) (p : string) :
  survives mk mpc p = true <-> ~ (In p mk \/ In p mpc).
Proof.
  unfold survives. rewrite <- is_excluded_In.
  destruct (is_excluded mk mpc p); simpl; split; congruence.
Qed.



End IndexFacts.

(* ================================================================= *)
(** * Properties of the index *)

Import PyFacts IndexFacts.

Section Partition.

Variables (root : string) (mk mpc : list string) (v : num).
Variable glob_result : list string.

(** The directory listing names each file once, every name has the layout
    of the glob pattern, the listing is shorter than [2 ^ 53] entries, and
    [val_ratio] is a number in [0, 0.5]. *)
Hypothesis listing_nodup : NoDup glob_result.
Hypothesis listing_layout : Forall has_layout glob_result.
Hypothesis listing_size : len glob_result < 2 ^ 53.
Hypothesis ratio_well_formed : well_formed v.
Hypothesis ratio_in_range : in_unit_half v.

Lemma discovered_perm :
  Permutation (surviving mk mpc (sorted glob_result))
    (surviving mk mpc glob_result).
Proof. apply filter_perm, sorted_perm. Qed.

Lemma discovered_nodup : NoDup (surviving mk mpc (sorted glob_result)).
Proof.
  apply NoDup_filter.
  eapply Permutation_NoDup; [symmetry; apply sorted_perm|exact listing_nodup].
Qed.

Lemma group_size (s : string) :
  len (filter (of_seq s) (surviving mk mpc (sorted glob_result)))
  = len (filter (of_seq s) (surviving mk mpc glob_result)).
Proof.
  unfold len. f_equal. apply Permutation_length, filter_perm, discovered_perm.
Qed.

Lemma group_small (s : string) :
  0 <= len (filter (of_seq s) (surviving mk mpc (sorted glob_result))) < 2 ^ 53.
Proof.
  split; [unfold len; lia|].
  eapply Z.le_lt_trans; [apply filter_length_le_len|].
  eapply Z.le_lt_trans; [apply filter_length_le_len|].
  unfold len in *. now rewrite (Permutation_length (sorted_perm glob_result)).
Qed.

(** The split of one group. *)
Lemma group_split_counts (s : string) (ps : list string) :
  0 <= len ps < 2 ^ 53 ->
  exists k,
    num_val_samples_of (len ps) v = Ok k /\ 0 <= k <= len ps /\
    train_part v (s, ps) = firstn (Z.to_nat (len ps - k)) ps /\
    val_part v (s, ps) = skipn (Z.to_nat (len ps - k)) ps /\
    len (train_part v (s, ps)) = len ps - k /\
    len (val_part v (s, ps)) = k.
Proof.
  intros Hps.
  destruct (num_val_samples_bounds (len ps) v Hps ratio_well_formed ratio_in_range)
    as (k & Hk & Hb).
  exists k. split; [exact Hk|]. split; [exact Hb|].
  unfold train_part, val_part, val_count. simpl snd. rewrite Hk.
  unfold slice_to, slice_from.
  rewrite slice_bound_in_range by lia.
  split; [reflexivity|]. split; [reflexivity|].
  unfold len in *. rewrite length_firstn, length_skipn. lia.
Qed.

(** The structure every statement about the index rests on. *)
Lemma index_structure :
  exists d train val,
    group_paths mk mpc [] (sorted glob_result) = Ok d /\
    _create_data_pairs root mk mpc v glob_result = Ok (train, val) /\
    train = flat_map (fun it => map (pair_of root (fst it)) (train_part v it)) d /\
    val = flat_map (fun it => map (pair_of root (fst it)) (val_part v it)) d /\
    map fst train = flat_map (train_part v) d /\
    map fst val = flat_map (val_part v) d /\
    NoDup (map fst d) /\ keyed d /\
    (forall s, lookup d s
               = filter (of_seq s) (surviving mk mpc (sorted glob_result))) /\
    Permutation (map fst train ++ map fst val)
      (surviving mk mpc (sorted glob_result)) /\
    (forall s, filter (of_seq s) (map fst train)
               = train_part v
                   (s, filter (of_seq s) (surviving mk mpc (sorted glob_result)))) /\
    (forall s, filter (of_seq s) (map fst val)
               = val_part v
                   (s, filter (of_seq s) (surviving mk mpc (sorted glob_result)))).
Proof.
  destruct (create_data_pairs_spec root mk mpc v glob_result
              listing_layout listing_size ratio_well_formed ratio_in_range)
    as (d & Hg & Hc & Hnd & Hperm & Hlk & Hall).
  assert (Hkeyed : keyed d) by (eapply keyed_of_lookup; eassumption).
  exists d. eexists. eexists.
  split; [exact Hg|]. split; [exact Hc|].
  split; [reflexivity|]. split; [reflexivity|].
  rewrite !map_fst_flat_map.
  split; [reflexivity|]. split; [reflexivity|].
  split; [exact Hnd|]. split; [exact Hkeyed|]. split; [exact Hlk|].
  split.
  { unfold surviving. rewrite <- Hperm. apply flat_map_split_perm.
    intros it. apply slice_to_from. }
  split.
  - intros s. rewrite <- Hlk.
    apply (filter_of_seq_parts
             (fun ps => slice_to ps (len ps - val_count v ps)) d s); auto.
    intros ps. apply (incl_slice_to (fun ps => len ps - val_count v ps)).
  - intros s. rewrite <- Hlk.
    apply (filter_of_seq_parts
             (fun ps => slice_from ps (len ps - val_count v ps)) d s); auto.
    intros ps. apply (incl_slice_from (fun ps => len ps - val_count v ps)).
Qed.

(** C2, as amended.  For every listing and every [val_ratio] in
    [0, 0.5], construction yields a train and a val partition that share
    no record, whose union is exactly the set of records passing the
    exclusion filter, with no record twice.  Of the [n] surviving records
    of any sequence, the val partition holds the floor of the product
    [n * val_ratio] rounded to binary64 (to the nearest number of 53
    significant bits, ties to even), and the train partition the others.
    That count is the floor of the exact product or one more. *)
Theorem partition_complete :
  exists train val,
    _create_data_pairs root mk mpc v glob_result = Ok (train, val) /\
    (forall p, In p (map fst train) -> ~ In p (map fst val)) /\
    (forall p, In p (map fst train) \/ In p (map fst val) <->
               In p glob_result /\ survives mk mpc p = true) /\
    NoDup (map fst train ++ map fst val) /\
    (forall s,
        let n := len (filter (of_seq s) (surviving mk mpc glob_result)) in
        len (filter (of_seq s) (map fst val)) = nearest_floor n v /\
        len (filter (of_seq s) (map fst train)) = n - nearest_floor n v /\
        exact_floor n v <= nearest_floor n v <= exact_floor n v + 1).
Proof.
  destruct index_structure
    as (d & train & val & _ & Hc & _ & _ & _ & _ & _ & _ & _ & Hperm & Htr & Hva).
  exists train, val. split; [exact Hc|].
  assert (Hnd : NoDup (map fst train ++ map fst val)).
  { eapply Permutation_NoDup; [symmetry; exact Hperm|apply discovered_nodup]. }
  split; [intros p; now apply nodup_app_disjoint|].
  split.
  { intros p. rewrite <- in_app_iff. split; intros H.
    - apply (Permutation_in _ Hperm) in H.
      apply (Permutation_in _ discovered_perm) in H.
      now apply filter_In in H.
    - apply (Permutation_in _ (Permutation_sym Hperm)).
      apply (Permutation_in _ (Permutation_sym discovered_perm)).
      now apply filter_In. }
  split; [exact Hnd|].
  intros s n. subst n. rewrite <- group_size.
  destruct (group_split_counts s _ (group_small s))
    as (k & Hk & _ & _ & _ & Hlt & Hlv).
  destruct (num_val_samples_nearest _ v (group_small s)
              ratio_well_formed ratio_in_range) as [Hnear Hbracket].
  assert (Hkn : k = nearest_floor
                      (len (filter (of_seq s)
                              (surviving mk mpc (sorted glob_result)))) v)
    by congruence.
  rewrite Htr, Hva, Hlt, Hlv, Hkn.
  split; [reflexivity|]. split; [reflexivity|exact Hbracket].
Qed.


(** C8.  A discovered record is absent from the index exactly when its
    identifier is in the missing-key collection or in the empty-point-cloud
    collection; a surviving record is grouped under the fourth segment
    from the end of its path, under no other key, and its pair is built
    with that sequence name. *)
Theorem exclusion_and_grouping :
  exists d train val,
    group_paths mk mpc [] (sorted glob_result) = Ok d /\
    _create_data_pairs root mk mpc v glob_result = Ok (train, val) /\
    (forall p, In p glob_result ->
               (~ In p (map fst (train ++ val)) <-> In p mk \/ In p mpc)) /\
    (forall p, In p glob_result -> ~ (In p mk \/ In p mpc) ->
       exists s,
         nth_error (rev (split_slash p)) 3 = Some s /\
         In p (lookup d s) /\
         (forall k ps, In (k, ps) d -> In p ps -> k = s) /\
         In (pair_of root s p) (train ++ val)).
Proof.
  destruct index_structure
    as (d & train & val & Hg & Hc & Htrain & Hval & _ & _ & Hnd & Hkeyed & Hlk
        & Hperm & _ & _).
  exists d, train, val. split; [exact Hg|]. split; [exact Hc|].
  assert (Hidx : forall p, In p glob_result ->
            (In p (map fst (train ++ val)) <-> survives mk mpc p = true)).
  { intros p Hp. rewrite map_app. split; intros H.
    - apply (Permutation_in _ Hperm) in H. now apply filter_In in H.
    - apply (Permutation_in _ (Permutation_sym Hperm)).
      apply filter_In. split; [|exact H].
      apply (Permutation_in _ (Permutation_sym (sorted_perm glob_result))), Hp. }
  split.
  { intros p Hp. rewrite (Hidx p Hp), <- is_excluded_In. unfold survives.
    destruct (is_excluded mk mpc p); simpl; split; congruence. }
  intros p Hp Hnex. apply survives_not_excluded in Hnex.
  rewrite Forall_forall in listing_layout.
  destruct (seq_name_of_ok p (listing_layout p Hp)) as [s Hs].
  exists s.
  assert (Hin : In p (lookup d s)).
  { rewrite Hlk. apply filter_In. split; [|now apply of_seq_true].
    apply filter_In. split; [|exact Hnex].
    apply (Permutation_in _ (Permutation_sym (sorted_perm glob_result))), Hp. }
  split.
  { unfold seq_name_of in Hs. change (-4) with (- Z.of_nat 4) in Hs.
    now apply getitem_neg_rev in Hs. }
  split; [exact Hin|].
  split.
  { intros k ps Hk Hpk. unfold keyed in Hkeyed. rewrite Forall_forall in Hkeyed.
    specialize (Hkeyed (k, ps) Hk). simpl in Hkeyed.
    rewrite Forall_forall in Hkeyed. specialize (Hkeyed p Hpk). congruence. }
  pose proof (lookup_in_dict d s p Hin) as Hd.
  rewrite <- (slice_to_from (lookup d s)
                (len (lookup d s) - val_count v (lookup d s))) in Hin.
  apply in_app_or in Hin. apply in_or_app. subst train val.
  destruct Hin as [Hin|Hin]; [left|right];
    apply in_flat_map; exists (s, lookup d s); (split; [exact Hd|]);
    apply in_map; exact Hin.
Qed.


End Partition.

(* ================================================================= *)
(** * The small dataset meets the assumptions *)

Module ExampleFacts.
Import Example.

Lemma example_nodup : NoDup listing.
Proof.
  unfold listing.
  repeat (constructor; [simpl; intuition discriminate|]). constructor.
Defined.

Lemma example_layout : Forall has_layout listing.
Proof.
  unfold listing, has_layout. repeat constructor; vm_compute; lia.
Defined.

Lemma example_size : len listing < 2 ^ 53.
Proof. reflexivity. Defined.

Lemma example_ratio_well_formed : well_formed (PyFloat f_0_2).
Proof. reflexivity. Defined.

Lemma example_ratio_in_range : in_unit_half (PyFloat f_0_2).
Proof. split; reflexivity. Defined.

End ExampleFacts.

(** [partition_complete] on the small dataset, with [val_ratio = 0.2]. *)
Lemma partition_complete_witness :
  exists train val,
    _create_data_pairs Example.root Example.missing_keys Example.empty_clouds
      (PyFloat f_0_2) Example.listing = Ok (train, val) /\
    (forall p, In p (map fst train) -> ~ In p (map fst val)) /\
    (forall p, In p (map fst train) \/ In p (map fst val) <->
               In p Example.listing /\
               survives Example.missing_keys Example.empty_clouds p = true) /\
    NoDup (map fst train ++ map fst val) /\
    (forall s,
        let n := len (filter (of_seq s)
                   (surviving Example.missing_keys Example.empty_clouds
                      Example.listing)) in
        len (filter (of_seq s) (map fst val)) = nearest_floor n (PyFloat f_0_2) /\
        len (filter (of_seq s) (map fst train))
          = n - nearest_floor n (PyFloat f_0_2) /\
        exact_floor n (PyFloat f_0_2) <= nearest_floor n (PyFloat f_0_2)
          <= exact_floor n (PyFloat f_0_2) + 1).
Proof.
  exact (partition_complete Example.root Example.missing_keys
           Example.empty_clouds (PyFloat f_0_2) Example.listing
           ExampleFacts.example_nodup ExampleFacts.example_layout ExampleFacts.example_size
           ExampleFacts.example_ratio_well_formed ExampleFacts.example_ratio_in_range).
Defined.

(** C2 fails as stated: of twenty records of one sequence at
    [val_ratio = 0.15], a number of [0, 0.5], the val partition holds 3
    and the train partition 17, although the exact product of 20 and the
    binary64 number written [0.15] is below 3 and its floor is 2. *)
Lemma floor_count_fails_at_twenty_by_0_15 :
  in_unit_half (PyFloat f_0_15) /\
  len (filter (of_seq "20180807") (surviving [] [] Example.twenty_scans)) = 20 /\
  20 * 5404319552844595 < 3 * 2 ^ 55 /\
  exact_floor 20 (PyFloat f_0_15) = 2 /\
  exists train val,
    _create_data_pairs Example.root [] [] (PyFloat f_0_15) Example.twenty_scans
      = Ok (train, val) /\
    len (filter (of_seq "20180807") (map fst val)) = 3 /\
    len (filter (of_seq "20180807") (map fst train)) = 17 /\
    len (filter (of_seq "20180807") (map fst val))
      <> exact_floor 20 (PyFloat f_0_15).
Proof.
  split; [split; reflexivity|]. split; [reflexivity|].
  split; [reflexivity|]. split; [reflexivity|].
  eexists. eexists. split; [vm_compute; reflexivity|].
  split; [reflexivity|]. split; [reflexivity|].
  vm_compute. discriminate.
Qed.


(** [exclusion_and_grouping] on the small dataset, with [val_ratio = 0.2]. *)
Lemma exclusion_and_grouping_witness :
  exists d train val,
    group_paths Example.missing_keys Example.empty_clouds []
      (sorted Example.listing) = Ok d /\
    _create_data_pairs Example.root Example.missing_keys Example.empty_clouds
      (PyFloat f_0_2) Example.listing = Ok (train, val) /\
    (forall p, In p Example.listing ->
               (~ In p (map fst (train ++ val)) <->
                In p Example.missing_keys \/ In p Example.empty_clouds)) /\
    (forall p, In p Example.listing ->
               ~ (In p Example.missing_keys \/ In p Example.empty_clouds) ->
       exists s,
         nth_error (rev (split_slash p)) 3 = Some s /\
         In p (lookup d s) /\
         (forall k ps, In (k, ps) d -> In p ps -> k = s) /\
         In (pair_of Example.root s p) (train ++ val)).
Proof.
  exact (exclusion_and_grouping Example.root Example.missing_keys
           Example.empty_clouds (PyFloat f_0_2) Example.listing
           ExampleFacts.example_layout ExampleFacts.example_size
           ExampleFacts.example_ratio_well_formed ExampleFacts.example_ratio_in_range).
Defined.



(* ================================================================= *)
(** * Construction: clamping and split selection *)

Module InitFacts.

Lemma SFcompare_antisym (a b : spec_float) :
  SFcompare b a = option_map CompOpp (SFcompare a b).
Proof.
  destruct a as [sa|sa| |sa ma ea], b as [sb|sb| |sb mb eb]; simpl;
    try reflexivity;
    try (destruct sa; reflexivity); try (destruct sb; reflexivity);
    try (destruct sa, sb; reflexivity).
  destruct sa, sb; simpl; try reflexivity;
    rewrite (Z.compare_antisym ea eb);
    destruct (ea ?= eb); simpl; try reflexivity;
    rewrite (Pos.compare_cont_antisym ma mb Eq); reflexivity.
Qed.

Lemma compare_antisym (a b : num) :
  compare b a = option_map CompOpp (compare a b).
Proof.
  destruct a as [x|x], b as [y|y]; simpl.
  - now rewrite (Z.compare_antisym x y).
  - reflexivity.
  - destruct (compare_int_float y x) as [c|]; simpl; [|reflexivity].
    now rewrite CompOpp_involutive.
  - apply SFcompare_antisym.
Qed.

Lemma gt_lt (a b : num) : gt a b = lt b a.
Proof.
  unfold gt, lt. rewrite (compare_antisym a b).
  destruct (compare a b) as [[| |]|]; reflexivity.
Qed.

Lemma lt_not_gt (a b : num) : lt a b = true -> gt a b = false.
Proof.
  unfold gt, lt. destruct (compare a b) as [[| |]|]; congruence.
Qed.

Lemma le_not_gt (a b : num) : le a b = true -> gt a b = false.
Proof.
  unfold gt, le. destruct (compare a b) as [[| |]|]; congruence.
Qed.

(** Below zero is below one half. *)
Lemma lt_zero_not_gt_half (v : num) :
  lt v (PyInt 0) = true -> gt v (PyFloat f_half) = false.
Proof.
  unfold lt, gt. destruct v as [z|f]; cbn [compare].
  - destruct (Z.compare_spec z 0); try discriminate. intros _.
    unfold compare_int_float, f_half. cbn [cond_Zopp].
    change (0 <=? -53) with false. cbv iota. change (- -53) with 53.
    destruct (Z.compare_spec (z * 2 ^ 53) (Zpos 4503599627370496));
      try reflexivity. lia.
  - destruct f as [s|s| |s m e]; cbn [compare_int_float option_map].
    + discriminate.
    + destruct s; [reflexivity|discriminate].
    + discriminate.
    + destruct s; [reflexivity|].
      cbn [cond_Zopp]. intros H. exfalso.
      destruct (Z.leb_spec 0 e) as [He|He].
      * assert (Hp : 0 < 2 ^ e) by (apply Z.pow_pos_nonneg; lia).
        destruct (Z.compare_spec 0 (Zpos m * 2 ^ e)); try discriminate H; nia.
      * rewrite Z.mul_0_l in H. discriminate H.
Qed.

Lemma half_gt_zero : gt (PyFloat f_half) (PyInt 0) = true.
Proof. reflexivity. Qed.

Lemma clamp_below (v : num) :
  lt v (PyInt 0) = true ->
  clamp_val_ratio v = (PyInt 0, [Warning_val_ratio (PyInt 0)]).
Proof.
  intros Hlt. unfold clamp_val_ratio. rewrite Hlt. cbn [orb].
  unfold min. rewrite <- gt_lt, (lt_zero_not_gt_half v Hlt).
  unfold max. now rewrite (lt_not_gt v (PyInt 0) Hlt).
Qed.

Lemma clamp_above (v : num) :
  gt v (PyFloat f_half) = true ->
  clamp_val_ratio v = (PyFloat f_half, [Warning_val_ratio (PyFloat f_half)]).
Proof.
  intros Hgt. unfold clamp_val_ratio. rewrite Hgt, orb_true_r.
  unfold min. rewrite <- gt_lt, Hgt.
  unfold max. now rewrite half_gt_zero.
Qed.

Lemma clamp_inside (v : num) :
  in_unit_half v -> clamp_val_ratio v = (v, []).
Proof.
  intros [H0 Hh]. unfold clamp_val_ratio.
  rewrite <- gt_lt, (le_not_gt _ _ H0), (le_not_gt _ _ Hh). reflexivity.
Qed.

(** Whatever ordered number is passed, the value kept is in [0, 0.5]. *)
Lemma clamp_range (v : num) :
  well_formed v -> ordered v ->
  in_unit_half (fst (clamp_val_ratio v)) /\ well_formed (fst (clamp_val_ratio v)).
Proof.
  intros Hwf Hord.
  destruct (lt v (PyInt 0)) eqn:Hlt.
  { rewrite (clamp_below v Hlt). repeat split. }
  destruct (gt v (PyFloat f_half)) eqn:Hgt.
  { rewrite (clamp_above v Hgt). repeat split. }
  assert (Hin : in_unit_half v).
  { split.
    - rewrite <- gt_lt in Hlt. unfold le, gt in *.
      destruct (compare (PyInt 0) v) as [[| |]|] eqn:Hc;
        try reflexivity; try discriminate Hlt.
      exfalso. destruct v as [z|f]; [discriminate Hc|].
      destruct f; try discriminate Hc. now apply Hord.
    - unfold le, gt in *.
      destruct (compare v (PyFloat f_half)) as [[| |]|] eqn:Hc;
        try reflexivity; try discriminate Hgt.
      exfalso. destruct v as [z|f]; [discriminate Hc|].
      destruct f; try discriminate Hc. now apply Hord. }
  rewrite (clamp_inside v Hin). split; assumption.
Qed.

End InitFacts.

Import InitFacts.

Section Construction.
Context {E : External}.

Variables (root : string) (config : Config) (mk mpc : list string).
Variables (crop : option (Z * Z)) (augment : bool) (glob_result : list string).

(** [__init__] in terms of its two steps. *)
Lemma init_unfold (v : num) (split : string) :
  __init__ root config mk mpc crop v split augment glob_result =
  (match _create_data_pairs root mk mpc (fst (clamp_val_ratio v)) glob_result with
   | Raise e => Raise e
   | Ok (tr, va) =>
       if String.eqb split "train" then
         Ok (Build_t root crop config mk mpc augment
               (if augment then augment_then_default else default_transforms)
               (fst (clamp_val_ratio v)) tr va tr)
       else if String.eqb split "val" then
         Ok (Build_t root crop config mk mpc augment
               (if augment then augment_then_default else default_transforms)
               (fst (clamp_val_ratio v)) tr va va)
       else Raise (ValueError
              ("Invalid split value: " ++ split ++ ". Use 'train' or 'val'."))
   end,
   snd (clamp_val_ratio v)).
Proof.
  unfold __init__. destruct (clamp_val_ratio v) as [c out]. cbn [fst snd].
  f_equal.
  destruct (_create_data_pairs root mk mpc c glob_result) as [[tr va]|e];
    [|reflexivity].
  cbn [bind]. destruct (String.eqb split "train"); [reflexivity|].
  destruct (String.eqb split "val"); reflexivity.
Qed.

(** C6.  A [split] other than ["train"] or ["val"] makes construction
    fail: with the [ValueError] that names the value (the class's form of
    the configuration error) whenever the index can be built.  With
    ["train"] the active partition is the train partition, with ["val"] the
    val partition. *)
Theorem split_selects_partition (v : num) (split : string) :
  (split <> "train" -> split <> "val" ->
   exists e,
     fst (__init__ root config mk mpc crop v split augment glob_result) = Raise e) /\
  (well_formed v -> ordered v ->
   Forall has_layout glob_result -> len glob_result < 2 ^ 53 ->
   (split <> "train" -> split <> "val" ->
    fst (__init__ root config mk mpc crop v split augment glob_result) =
    Raise (ValueError
             ("Invalid split value: " ++ split ++ ". Use 'train' or 'val'."))) /\
   (exists self,
       fst (__init__ root config mk mpc crop v "train" augment glob_result)
         = Ok self /\
       data_pairs self = train_data_pairs self /\
       _create_data_pairs root mk mpc (fst (clamp_val_ratio v)) glob_result
         = Ok (train_data_pairs self, val_data_pairs self)) /\
   (exists self,
       fst (__init__ root config mk mpc crop v "val" augment glob_result)
         = Ok self /\
       data_pairs self = val_data_pairs self /\
       _create_data_pairs root mk mpc (fst (clamp_val_ratio v)) glob_result
         = Ok (train_data_pairs self, val_data_pairs self))).
Proof.
  split.
  - intros Ht Hv. rewrite init_unfold. cbn [fst].
    destruct (_create_data_pairs root mk mpc (fst (clamp_val_ratio v)) glob_result)
      as [[tr va]|e]; [|eauto].
    apply String.eqb_neq in Ht, Hv. rewrite Ht, Hv. eauto.
  - intros Hwf Hord Hlay Hsize.
    destruct (clamp_range v Hwf Hord) as [Hin Hwf'].
    destruct (create_data_pairs_spec root mk mpc _ glob_result Hlay Hsize Hwf' Hin)
      as (d & _ & Hc & _).
    rewrite !init_unfold, Hc. cbn [fst].
    split; [|split].
    + intros Ht Hv. apply String.eqb_neq in Ht, Hv. now rewrite Ht, Hv.
    + eexists. split; [reflexivity|]. split; reflexivity.
    + eexists. split; [reflexivity|]. split; reflexivity.
Qed.

(** X14.  A [val_ratio] below [0] is replaced by [0] and one above [0.5]
    by [0.5], each with the warning printed; one inside [0, 0.5] is kept
    and nothing is printed.  The value kept is the one stored and the one
    the partitions are computed with; for every [val_ratio] other than
    NaN it lies in [0, 0.5] and construction succeeds for either split. *)
Theorem val_ratio_clamped (v : num) (split : string) :
  (lt v (PyInt 0) = true ->
   clamp_val_ratio v = (PyInt 0, [Warning_val_ratio (PyInt 0)])) /\
  (gt v (PyFloat f_half) = true ->
   clamp_val_ratio v = (PyFloat f_half, [Warning_val_ratio (PyFloat f_half)])) /\
  (in_unit_half v -> clamp_val_ratio v = (v, [])) /\
  snd (__init__ root config mk mpc crop v split augment glob_result)
    = snd (clamp_val_ratio v) /\
  (forall self,
      fst (__init__ root config mk mpc crop v split augment glob_result) = Ok self ->
      val_ratio self = fst (clamp_val_ratio v) /\
      _create_data_pairs root mk mpc (fst (clamp_val_ratio v)) glob_result
        = Ok (train_data_pairs self, val_data_pairs self)) /\
  (well_formed v -> ordered v ->
   Forall has_layout glob_result -> len glob_result < 2 ^ 53 ->
   split = "train" \/ split = "val" ->
   in_unit_half (fst (clamp_val_ratio v)) /\
   exists self,
     fst (__init__ root config mk mpc crop v split augment glob_result) = Ok self).
Proof.
  split; [apply clamp_below|]. split; [apply clamp_above|].
  split; [apply clamp_inside|].
  rewrite init_unfold. cbn [fst snd].
  split; [reflexivity|]. split.
  - intros self.
    destruct (_create_data_pairs root mk mpc (fst (clamp_val_ratio v)) glob_result)
      as [[tr va]|e]; [|discriminate].
    destruct (String.eqb split "train"); [intros [= <-]; split; reflexivity|].
    destruct (String.eqb split "val"); [intros [= <-]; split; reflexivity|].
    discriminate.
  - intros Hwf Hord Hlay Hsize Hsplit.
    destruct (clamp_range v Hwf Hord) as [Hin Hwf'].
    split; [exact Hin|].
    destruct (create_data_pairs_spec root mk mpc _ glob_result Hlay Hsize Hwf' Hin)
      as (d & _ & Hc & _).
    rewrite Hc. destruct Hsplit as [-> | ->]; simpl; eauto.
Qed.

End Construction.

(** C7.  The range check misses NaN.  NaN is not in [0, 0.5], yet it is
    neither below 0 nor above 0.5, so it is kept as it is and no warning
    is printed; construction then fails with the [ValueError] of
    [int(nan)] on the first group of the small dataset, for either
    split. *)
Theorem nan_val_ratio_escapes_clamp :
  ~ in_unit_half (PyFloat S754_nan) /\
  lt (PyFloat S754_nan) (PyInt 0) = false /\
  gt (PyFloat S754_nan) (PyFloat f_half) = false /\
  clamp_val_ratio (PyFloat S754_nan) = (PyFloat S754_nan, []) /\
  @__init__ Toy.external Example.root tt Example.missing_keys
    Example.empty_clouds None (PyFloat S754_nan) "train" false Example.listing
  = (Raise (ValueError "cannot convert float NaN to integer"), []) /\
  @__init__ Toy.external Example.root tt Example.missing_keys
    Example.empty_clouds None (PyFloat S754_nan) "val" false Example.listing
  = (Raise (ValueError "cannot convert float NaN to integer"), []).
Proof.
  split; [intros [H _]; discriminate H|].
  repeat split; vm_compute; reflexivity.
Qed.

(* ================================================================= *)
(** * Sample retrieval *)

Module RetrievalFacts.

Section WithExternal.
Context {E : External}.

Lemma empty_cycles_index (self : t) (w w' : World) (idx idx' : Z) (n : nat) :
  empty_cycles self w idx n w' idx' ->
  0 <= idx < len (data_pairs self) ->
  idx' = (idx + Z.of_nat n) mod len (data_pairs self).
Proof.
  induction 1 as [w idx|w w1 w' idx idx' image pc n Hu He Hc IH]; intros Hidx.
  - rewrite Z.add_0_r, Z.mod_small; [reflexivity|assumption].
  - rewrite IH by (apply Z.mod_pos_bound; lia).
    rewrite Z.add_mod_idemp_l by lia. f_equal. lia.
Qed.

Lemma stack_rows_length (pts : list (scalar * scalar * scalar))
    (refl rows cols : list scalar) (pc : list point_row) :
  stack_rows pts refl rows cols = Some pc -> List.length pc = List.length pts.
Proof.
  revert refl rows cols pc.
  induction pts as [|[[x y] z] pts IH]; intros [|r refl] [|i rows] [|j cols] pc;
    simpl; try discriminate.
  - now intros [= <-].
  - destruct (stack_rows pts refl rows cols) as [pc'|] eqn:Hs; simpl;
      [|discriminate].
    intros [= <-]. simpl. f_equal. eapply IH. eassumption.
Qed.

(** The rows of the stacked array: point [i] of each decoded array. *)
Lemma stack_rows_In (pts : list (scalar * scalar * scalar))
    (refl rows cols : list scalar) (pc : list point_row) (p : point_row) :
  stack_rows pts refl rows cols = Some pc -> In p pc ->
  exists i x y z r ro co,
    nth_error pts i = Some (x, y, z) /\ nth_error refl i = Some r /\
    nth_error rows i = Some ro /\ nth_error cols i = Some co /\
    p = [x; y; z; r; ro; co].
Proof.
  revert refl rows cols pc.
  induction pts as [|[[x y] z] pts IH]; intros [|r refl] [|i rows] [|j cols] pc;
    simpl; try discriminate.
  - intros [= <-] [].
  - destruct (stack_rows pts refl rows cols) as [pc'|] eqn:Hs; simpl;
      [|discriminate].
    intros [= <-] [<-|Hin].
    + exists 0%nat, x, y, z, r, i, j. repeat split.
    + destruct (IH _ _ _ _ Hs Hin) as (n & x' & y' & z' & r' & ro & co & H).
      exists (S n), x', y', z', r', ro, co. exact H.
Qed.

Lemma getitem_Ok_In {A : Type} (l : list A) (i : Z) (a : A) :
  getitem l i = Ok a -> In a l.
Proof.
  unfold getitem.
  destruct ((if i <? 0 then i + len l else i) <? 0); [discriminate|].
  destruct (nth_error l _) eqn:Hn; [|discriminate].
  intros [= <-]. eapply nth_error_In. eassumption.
Qed.

Lemma crop_points_length (top left h w : Z) (pc : list point_row) :
  (List.length (crop_points top left h w pc) <= List.length pc)%nat.
Proof.
  unfold crop_points. rewrite length_map. apply filter_length_le.
Qed.

(** A successful cycle, step by step. *)
Lemma getitem_unsafe_Ok (self : t) (w w' : World) (idx : Z)
    (image : Tensor) (pts : list point_row) :
  _getitem_unsafe self w idx = (Ok (image, pts), w') ->
  exists lidar_path image_path pc undistorted pc' w1,
    In (lidar_path, image_path) (data_pairs self) /\
    hstack (np_load lidar_path) = Ok pc /\
    (undistorted, pc', w1) =
      (match crop_size self with
       | Some size =>
           random_crop w
             (undistort_image (cv2_cvtColor_BGR2RGB (cv2_imread image_path))
                "front_center" (config self)) pc size
       | None =>
           ((undistort_image (cv2_cvtColor_BGR2RGB (cv2_imread image_path))
               "front_center" (config self), pc), w)
       end) /\
    (image, w') =
      apply_transform (image_transform self) w1 (cv2_resize undistorted (224, 224)) /\
    pts = points_tensor_of pc'.
Proof.
  unfold _getitem_unsafe.
  destruct (getitem (data_pairs self) idx) as [[lidar_path image_path]|e] eqn:Hg;
    [|discriminate].
  destruct (hstack (np_load lidar_path)) as [pc|e] eqn:Hh; [|discriminate].
  set (und := undistort_image _ _ _).
  destruct (match crop_size self with
            | Some size => random_crop w und pc size
            | None => (und, pc, w)
            end) as [[undistorted pc'] w1] eqn:Hcrop.
  destruct (apply_transform (image_transform self) w1
              (cv2_resize undistorted (224, 224))) as [timg w2] eqn:Ht.
  intros [= <- <- <-].
  exists lidar_path, image_path, pc, undistorted, pc', w1.
  split; [eapply getitem_Ok_In; eassumption|].
  split; [exact Hh|]. split; [symmetry; exact Hcrop|].
  split; [symmetry; exact Ht|reflexivity].
Qed.

(** A cycle succeeds on every index of a well-decoded partition. *)
Lemma getitem_unsafe_total (self : t) (w : World) (idx : Z) :
  well_decoded self -> 0 <= idx < len (data_pairs self) ->
  exists image pts w', _getitem_unsafe self w idx = (Ok (image, pts), w').
Proof.
  intros Hwd Hidx. unfold _getitem_unsafe.
  destruct (getitem_in_range (data_pairs self) idx Hidx) as ([lp ip] & Hg & Hn).
  rewrite Hg.
  unfold well_decoded in Hwd. rewrite Forall_forall in Hwd.
  destruct (Hwd (lp, ip) (nth_error_In _ _ Hn)) as [pc Hpc]. simpl in Hpc.
  rewrite Hpc.
  destruct (match crop_size self with
            | Some size => random_crop w _ pc size
            | None => (_, pc, w)
            end) as [[undistorted pc'] w1].
  destruct (apply_transform (image_transform self) w1
              (cv2_resize undistorted (224, 224))) as [timg w2].
  eauto.
Qed.

(** The loop, for any number of attempts left. *)
Lemma retry_loop_spec (self : t) (n : nat) :
  forall (w : World) (idx : Z),
    well_decoded self -> 0 <= idx < len (data_pairs self) ->
    (exists k w1 idx1 image point_cloud w2,
        (k < n)%nat /\ empty_cycles self w idx k w1 idx1 /\
        _getitem_unsafe self w1 idx1 = (Ok (image, point_cloud), w2) /\
        0 < len point_cloud /\
        retry_loop self n w idx = (Ok (image, point_cloud), w2))
    \/
    (exists w' idx',
        empty_cycles self w idx n w' idx' /\
        retry_loop self n w idx = (Raise (RuntimeError (exhausted_message idx')), w')).
Proof.
  induction n as [|n IH]; intros w idx Hwd Hidx.
  - right. exists w, idx. split; [constructor|reflexivity].
  - destruct (getitem_unsafe_total self w idx Hwd Hidx) as (image & pts & w1 & Hu).
    cbn [retry_loop]. rewrite Hu.
    destruct (Z.gtb_spec (len pts) 0) as [Hpos|Hzero].
    + left. exists 0%nat, w, idx, image, pts, w1.
      split; [lia|]. split; [constructor|]. repeat split; [assumption|lia].
    + assert (Hlen : len pts = 0) by (unfold len in *; lia).
      unfold mod_.
      replace (len (data_pairs self) =? 0) with false
        by (symmetry; apply Z.eqb_neq; lia).
      assert (Hidx' : 0 <= (idx + 1) mod len (data_pairs self)
                      < len (data_pairs self))
        by (apply Z.mod_pos_bound; lia).
      destruct (IH w1 _ Hwd Hidx')
        as [(k & wa & ia & img & pc & wb & Hk & Hc & Hu' & Hp & Hr)
           |(w' & idx' & Hc & Hr)].
      * left. exists (S k), wa, ia, img, pc, wb.
        split; [lia|]. split; [econstructor; eassumption|].
        repeat split; assumption.
      * right. exists w', idx'. split; [econstructor; eassumption|exact Hr].
Qed.

(** Whatever the loop returns was returned by a cycle and is not empty. *)
Lemma retry_loop_Ok (self : t) (n : nat) :
  forall (w w' : World) (idx : Z) (image : Tensor) (pts : list point_row),
    retry_loop self n w idx = (Ok (image, pts), w') ->
    0 < len pts /\
    exists w1 idx1, _getitem_unsafe self w1 idx1 = (Ok (image, pts), w').
Proof.
  induction n as [|n IH]; intros w w' idx image pts; cbn [retry_loop].
  - discriminate.
  - destruct (_getitem_unsafe self w idx) as [[[img pc]|e] w1] eqn:Hu;
      [|discriminate].
    destruct (Z.gtb_spec (len pc) 0) as [Hpos|Hzero].
    + intros [= <- <- <-]. split; [lia|]. eauto.
    + destruct (mod_ (idx + 1) (len (data_pairs self))) as [idx'|e];
        [|discriminate].
      apply IH.
Qed.

End WithExternal.
End RetrievalFacts.

(* ================================================================= *)
(** * The small collaborators meet the assumptions *)

Import RetrievalFacts.

Module ToyFacts.
Import Toy.

Lemma dataset_well_decoded (crop : option (Z * Z)) :
  @well_decoded external (dataset crop).
Proof.
  unfold well_decoded. simpl.
  repeat constructor; eexists; reflexivity.
Defined.

Lemma index_in_range (crop : option (Z * Z)) :
  0 <= 0 < len (@data_pairs external (dataset crop)).
Proof. vm_compute. split; [discriminate|reflexivity]. Defined.

Lemma resize_shape (image : @Image external) (size : Z * Z) :
  @image_shape external (@cv2_resize external image size) = (snd size, fst size).
Proof. reflexivity. Defined.

Lemma transform_shape (tr : transform) (g : @World external)
    (image : @Image external) :
  @tensor_shape external (fst (@apply_transform external tr g image))
  = @image_shape external image.
Proof. reflexivity. Defined.

End ToyFacts.

(* ================================================================= *)
(** * Properties of sample retrieval *)

Section Retrieval.
Context {E : External}.
Variable self : t.

(** C1.  [__getitem__] never returns an empty point set.  On an index of
    the active partition it either returns the result of the first cycle
    that kept a point, reached through [k < 100] empty cycles at the
    indices [idx, idx + 1, ...] taken modulo the partition size, or it runs
    exactly 100 empty cycles and raises the [RuntimeError] that stands for
    the exhausted retries. *)
Theorem retrieval_returns_points_or_exhausts (w : World) (idx : Z) :
  (forall image pts w',
      __getitem__ self w idx = (Ok (image, pts), w') -> 0 < len pts) /\
  (well_decoded self -> 0 <= idx < len (data_pairs self) ->
   (exists k w1 idx1 image pts w2,
       (k < 100)%nat /\ empty_cycles self w idx k w1 idx1 /\
       idx1 = (idx + Z.of_nat k) mod len (data_pairs self) /\
       _getitem_unsafe self w1 idx1 = (Ok (image, pts), w2) /\
       0 < len pts /\
       __getitem__ self w idx = (Ok (image, pts), w2))
   \/
   (exists w' idx',
       empty_cycles self w idx 100 w' idx' /\
       idx' = (idx + 100) mod len (data_pairs self) /\
       __getitem__ self w idx =
         (Raise (RuntimeError (exhausted_message idx')), w'))).
Proof.
  split.
  - intros image pts w' H. now apply retry_loop_Ok in H.
  - intros Hwd Hidx. unfold __getitem__.
    change (Z.to_nat max_attempts) with 100%nat.
    destruct (retry_loop_spec self 100 w idx Hwd Hidx)
      as [(k & w1 & idx1 & image & pts & w2 & Hk & Hc & Hu & Hp & Hr)
         |(w' & idx' & Hc & Hr)].
    + left. exists k, w1, idx1, image, pts, w2.
      repeat split; try assumption; try lia.
      now apply (empty_cycles_index self w w1 idx idx1 k).
    + right. exists w', idx'. repeat split; try assumption.
      now apply (empty_cycles_index self w w' idx idx' 100).
Qed.

(** What the message of the exhausted retries names: the index the loop
    holds after its last advance, not the index it was called with. *)
Lemma exhausted_message_index (w w' : World) (idx : Z) (msg : string) :
  well_decoded self -> 0 <= idx < len (data_pairs self) ->
  __getitem__ self w idx = (Raise (RuntimeError msg), w') ->
  msg = exhausted_message ((idx + 100) mod len (data_pairs self)).
Proof.
  intros Hwd Hidx H. unfold __getitem__ in H.
  change (Z.to_nat max_attempts) with 100%nat in H.
  destruct (retry_loop_spec self 100 w idx Hwd Hidx)
    as [(k & w1 & idx1 & image & pts & w2 & _ & _ & _ & _ & Hr)
       |(w1 & idx' & Hc & Hr)]; rewrite Hr in H; [discriminate|].
  injection H as <- _.
  now rewrite (empty_cycles_index self w w1 idx idx' 100 Hc Hidx).
Qed.

(** C9.  A returned sample is an image tensor of the fixed size 224 x 224
    and point rows of exactly four entries: x, y, z and the reflectance of
    one decoded point of one record of the partition, converted to
    float32.  The row and col entries of the stacked array are not in it.
    The size rests on what [cv2.resize] and the image transform do to
    shapes. *)
Theorem sample_channels (w : World) (idx : Z) :
  (forall image size, image_shape (cv2_resize image size) = (snd size, fst size)) ->
  (forall tr g image,
      tensor_shape (fst (apply_transform tr g image)) = image_shape image) ->
  forall image pts w',
    __getitem__ self w idx = (Ok (image, pts), w') ->
    tensor_shape image = (224, 224) /\
    exists lidar_path image_path,
      In (lidar_path, image_path) (data_pairs self) /\
      Forall (fun p =>
                List.length p = 4%nat /\
                exists i x y z r,
                  nth_error (points (np_load lidar_path)) i = Some (x, y, z) /\
                  nth_error (reflectance (np_load lidar_path)) i = Some r /\
                  p = [to_float32 x; to_float32 y; to_float32 z; to_float32 r])
             pts.
Proof.
  intros Hresize Htransform image pts w' H.
  apply retry_loop_Ok in H. destruct H as (_ & w1 & idx1 & Hu).
  apply getitem_unsafe_Ok in Hu.
  destruct Hu as (lp & ip & pc & und & pc' & w2 & Hin & Hh & Hcrop & Ht & ->).
  split.
  { replace image with (fst (apply_transform (image_transform self) w2
                               (cv2_resize und (224, 224))))
      by (now rewrite <- Ht).
    now rewrite Htransform, Hresize. }
  exists lp, ip. split; [exact Hin|].
  assert (Hrows : forall q, In q pc' ->
            exists i x y z r a b,
              nth_error (points (np_load lp)) i = Some (x, y, z) /\
              nth_error (reflectance (np_load lp)) i = Some r /\
              q = [x; y; z; r; a; b]).
  { unfold hstack in Hh.
    destruct (stack_rows _ _ _ _) as [pc0|] eqn:Hs; [|discriminate].
    injection Hh as ->.
    assert (Hpc : forall q, In q pc ->
              exists i x y z r a b,
                nth_error (points (np_load lp)) i = Some (x, y, z) /\
                nth_error (reflectance (np_load lp)) i = Some r /\
                q = [x; y; z; r; a; b]).
    { intros q Hq.
      destruct (stack_rows_In _ _ _ _ _ q Hs Hq)
        as (i & x & y & z & r & ro & co & Hp & Hr & _ & _ & ->).
      exists i, x, y, z, r, ro, co. repeat split; assumption. }
    destruct (crop_size self) as [size|].
    - unfold random_crop in Hcrop.
      destruct (crop_window w1 _ size) as [[[[ct cl] h] wd] w3].
      injection Hcrop as _ -> _.
      intros q Hq. unfold crop_points in Hq. apply in_map_iff in Hq.
      destruct Hq as (q0 & <- & Hq0). apply filter_In in Hq0.
      destruct (Hpc q0 (proj1 Hq0)) as (i & x & y & z & r & a & b & Hp & Hr & ->).
      exists i, x, y, z, r. eexists. eexists.
      split; [exact Hp|]. split; [exact Hr|]. reflexivity.
    - injection Hcrop as _ -> _. exact Hpc. }
  unfold points_tensor_of. apply Forall_forall. intros p Hp.
  apply in_map_iff in Hp. destruct Hp as (q & <- & Hq).
  destruct (Hrows q Hq) as (i & x & y & z & r & a & b & Hpt & Hr & ->).
  split; [reflexivity|].
  exists i, x, y, z, r. repeat split; assumption.
Qed.

(** C4, as amended.  The crop-and-filter step returns at most as many
    points as it is given, and so does a whole cycle with respect to the
    decoded scan; it returns exactly as many when the window is the full
    image and every point projects inside the image. *)
Theorem crop_point_count (w : World) (image : Image)
    (point_cloud : list point_row) (size : Z * Z) :
  (List.length (snd (fst (random_crop w image point_cloud size)))
   <= List.length point_cloud)%nat /\
  (forall image_height image_width,
      image_shape image = (image_height, image_width) ->
      fst (crop_window w image size) = (0, 0, image_height, image_width) ->
      Forall (fun p => in_window 0 0 image_height image_width p = true)
        point_cloud ->
      List.length (snd (fst (random_crop w image point_cloud size)))
      = List.length point_cloud) /\
  (forall idx tensor pts w',
      _getitem_unsafe self w idx = (Ok (tensor, pts), w') ->
      exists lidar_path image_path,
        In (lidar_path, image_path) (data_pairs self) /\
        (List.length pts <= List.length (points (np_load lidar_path)))%nat).
Proof.
  split; [|split].
  - unfold random_crop.
    destruct (crop_window w image size) as [[[[ct cl] h] wd] w1]. simpl.
    apply crop_points_length.
  - intros ih iw _ Hwin Hall. unfold random_crop.
    destruct (crop_window w image size) as [[[[ct cl] h] wd] w1].
    simpl in Hwin. injection Hwin as -> -> -> ->. simpl.
    unfold crop_points. rewrite length_map. f_equal.
    now apply IndexFacts.filter_all.
  - intros idx tensor pts w' Hu. apply getitem_unsafe_Ok in Hu.
    destruct Hu as (lp & ip & pc & und & pc' & w2 & Hin & Hh & Hcrop & _ & ->).
    exists lp, ip. split; [exact Hin|].
    unfold points_tensor_of. rewrite length_map.
    unfold hstack in Hh.
    destruct (stack_rows _ _ _ _) as [pc0|] eqn:Hs; [|discriminate].
    injection Hh as ->. rewrite <- (stack_rows_length _ _ _ _ _ Hs).
    destruct (crop_size self) as [sz|].
    + unfold random_crop in Hcrop.
      destruct (crop_window w _ sz) as [[[[ct cl] h] wd] w3].
      injection Hcrop as _ -> _. apply crop_points_length.
    + injection Hcrop as _ -> _. apply Nat.le_refl.
Qed.

End Retrieval.

(** C5.  With three records whose crops are all empty, retrieval of index 0
    exhausts its 100 attempts and raises the [RuntimeError] of the
    exhausted retries; its message gives the attempt count 100 but names
    index 1, where the loop stands after 100 advances modulo 3, not the
    requested index 0. *)
Theorem exhausted_error_names_advanced_index :
  fst (@__getitem__ Toy.external (Toy.dataset (Some (2, 2))) 0%nat 0) =
    Raise (RuntimeError
      "Could not find a valid sample after 100 attempts starting from index 1") /\
  (0 + 100) mod len (@data_pairs Toy.external (Toy.dataset (Some (2, 2)))) = 1 /\
  exhausted_message 0 <>
    "Could not find a valid sample after 100 attempts starting from index 1".
Proof.
  split; [vm_compute; reflexivity|]. split; [reflexivity|].
  vm_compute. discriminate.
Qed.

(** C4 fails as stated: on a 10 x 10 image with the full image as window,
    a point that projects to row 20 is dropped, so the returned point set
    is smaller than the input. *)
Lemma crop_full_window_drops_outside_point :
  @image_shape Toy.external (10, 10) = (10, 10) /\
  fst (@crop_window Toy.external 0%nat (10, 10) (10, 10)) = (0, 0, 10, 10) /\
  List.length
    (snd (fst (@random_crop Toy.external 0%nat (10, 10) Toy.outside_cloud (10, 10))))
  <> List.length Toy.outside_cloud.
Proof.
  split; [reflexivity|]. split; [reflexivity|].
  vm_compute. discriminate.
Qed.

(** [crop_point_count] on a 10 x 10 image whose one point projects inside. *)
Lemma crop_point_count_witness :
  List.length
    (snd (fst (@random_crop Toy.external 0%nat (10, 10) Toy.inside_cloud (10, 10))))
  = List.length Toy.inside_cloud.
Proof.
  refine (proj1 (proj2 (@crop_point_count Toy.external (Toy.dataset None) 0%nat
                          (10, 10) Toy.inside_cloud (10, 10)))
            10 10 _ _ _).
  - reflexivity.
  - reflexivity.
  - repeat constructor.
Defined.

(** [retrieval_returns_points_or_exhausts] on three records, no crop. *)
Lemma retrieval_returns_points_or_exhausts_witness :
  (exists k w1 idx1 image pts w2,
      (k < 100)%nat /\
      @empty_cycles Toy.external (Toy.dataset None) 0%nat 0 k w1 idx1 /\
      idx1 = (0 + Z.of_nat k) mod len (@data_pairs Toy.external (Toy.dataset None)) /\
      @_getitem_unsafe Toy.external (Toy.dataset None) w1 idx1
        = (Ok (image, pts), w2) /\
      0 < len pts /\
      @__getitem__ Toy.external (Toy.dataset None) 0%nat 0 = (Ok (image, pts), w2))
  \/
  (exists w' idx',
      @empty_cycles Toy.external (Toy.dataset None) 0%nat 0 100 w' idx' /\
      idx' = (0 + 100) mod len (@data_pairs Toy.external (Toy.dataset None)) /\
      @__getitem__ Toy.external (Toy.dataset None) 0%nat 0 =
        (Raise (RuntimeError (exhausted_message idx')), w')).
Proof.
  exact (proj2 (@retrieval_returns_points_or_exhausts Toy.external
                  (Toy.dataset None) 0%nat 0)
           (ToyFacts.dataset_well_decoded None) (ToyFacts.index_in_range None)).
Defined.

(** [sample_channels] on three records, no crop. *)
Lemma sample_channels_witness :
  @tensor_shape Toy.external (224, 224) = (224, 224) /\
  exists lidar_path image_path,
    In (lidar_path, image_path) (@data_pairs Toy.external (Toy.dataset None)) /\
    Forall (fun p =>
              List.length p = 4%nat /\
              exists i x y z r,
                nth_error (points (@np_load Toy.external lidar_path)) i
                  = Some (x, y, z) /\
                nth_error (reflectance (@np_load Toy.external lidar_path)) i
                  = Some r /\
                p = [to_float32 x; to_float32 y; to_float32 z; to_float32 r])
           [[to_float32 f_one; to_float32 f_half; to_float32 f_one;
             to_float32 f_half]].
Proof.
  refine (@sample_channels Toy.external (Toy.dataset None) 0%nat 0
            ToyFacts.resize_shape ToyFacts.transform_shape (224, 224) _ 0%nat _).
  vm_compute. reflexivity.
Defined.

(** [split_selects_partition] on the small dataset, with the split "test". *)
Lemma split_selects_partition_witness :
  fst (@__init__ Toy.external Example.root tt Example.missing_keys
         Example.empty_clouds None (PyFloat f_0_2) "test" false Example.listing)
  = Raise (ValueError "Invalid split value: test. Use 'train' or 'val'.").
Proof.
  refine (proj1 (proj2 (@split_selects_partition Toy.external Example.root tt
                          Example.missing_keys Example.empty_clouds None false
                          Example.listing (PyFloat f_0_2) "test")
                   ExampleFacts.example_ratio_well_formed _ ExampleFacts.example_layout
                   ExampleFacts.example_size) _ _); discriminate.
Defined.

(** [val_ratio_clamped] on the small dataset, with [val_ratio = 1.0]. *)
Lemma val_ratio_clamped_witness :
  clamp_val_ratio (PyFloat f_one)
    = (PyFloat f_half, [Warning_val_ratio (PyFloat f_half)]) /\
  in_unit_half (fst (clamp_val_ratio (PyFloat f_one))) /\
  exists self,
    fst (@__init__ Toy.external Example.root tt Example.missing_keys
           Example.empty_clouds None (PyFloat f_one) "train" false
           Example.listing) = Ok self.
Proof.
  pose proof (@val_ratio_clamped Toy.external Example.root tt
                Example.missing_keys Example.empty_clouds None false
                Example.listing (PyFloat f_one) "train") as H.
  destruct H as (_ & Habove & _ & _ & _ & Hok).
  split; [apply Habove; reflexivity|].
  apply Hok.
  - reflexivity.
  - discriminate.
  - exact ExampleFacts.example_layout.
  - exact ExampleFacts.example_size.
  - left. reflexivity.
Defined.

(* ================================================================= *)
(** * Binary64 products do not round past a representable bound *)

Module B64Mono.
Import B64.

Lemma shr_1_exact (mrs : shr_record) :
  0 <= shr_m mrs ->
  shr_r mrs = false -> shr_s mrs = false -> Z.even (shr_m mrs) = true ->
  shr_r (shr_1 mrs) = false /\ shr_s (shr_1 mrs) = false.
Proof.
  destruct mrs as [m r s]; simpl. intros Hm -> -> Hev.
  destruct m as [|p|p]; [split; reflexivity| |lia].
  destruct p as [p|p|]; simpl in Hev; try discriminate.
  split; reflexivity.
Qed.

(** Shifting out [n] zero bits leaves the round and sticky bits clear. *)
Lemma iter_shr_1_exact (n : nat) (mrs : shr_record) :
  0 <= shr_m mrs ->
  shr_r mrs = false -> shr_s mrs = false ->
  shr_m mrs mod 2 ^ Z.of_nat n = 0 ->
  shr_r (Nat.iter n shr_1 mrs) = false /\ shr_s (Nat.iter n shr_1 mrs) = false.
Proof.
  intros Hm Hr Hs. induction n as [|n IH]; intros Hmod.
  - simpl. split; assumption.
  - rewrite Nat2Z.inj_succ, Z.pow_succ_r in Hmod by lia.
    assert (Hp : 0 < 2 ^ Z.of_nat n) by (apply Z.pow_pos_nonneg; lia).
    rewrite Z.mul_comm, Z.rem_mul_r in Hmod by lia.
    pose proof (Z.mod_pos_bound (shr_m mrs) (2 ^ Z.of_nat n) Hp) as Hb1.
    pose proof (Z.mod_pos_bound (shr_m mrs / 2 ^ Z.of_nat n) 2 ltac:(lia)) as Hb2.
    assert (Hlow : shr_m mrs mod 2 ^ Z.of_nat n = 0) by nia.
    assert (Hbit : (shr_m mrs / 2 ^ Z.of_nat n) mod 2 = 0) by nia.
    destruct (IH Hlow) as [Hr' Hs'].
    simpl Nat.iter. apply shr_1_exact; try assumption.
    + rewrite iter_shr_1_m by assumption. apply Z.div_pos; lia.
    + rewrite iter_shr_1_m by assumption.
      rewrite Zeven_mod. now apply Z.eqb_eq.
Qed.

(** When nothing is lost in the shift, rounding keeps the mantissa. *)
Lemma shr_round_exact (m : Z) (e n : Z) :
  0 <= m -> m mod 2 ^ Z.max 0 n = 0 ->
  let '(mrs, _) := shr (shr_record_of_loc m loc_Exact) e n in
  round_nearest_even (shr_m mrs) (loc_of_shr_record mrs) = shr_m mrs.
Proof.
  intros Hm Hmod. unfold shr. destruct n as [|p|p]; try reflexivity.
  rewrite iter_pos_nat.
  replace (Z.max 0 (Zpos p)) with (Z.of_nat (Pos.to_nat p)) in Hmod
    by (rewrite positive_nat_Z; lia).
  destruct (iter_shr_1_exact (Pos.to_nat p)
              (shr_record_of_loc m loc_Exact) Hm eq_refl eq_refl Hmod)
    as [Hr Hs].
  destruct (Nat.iter (Pos.to_nat p) shr_1 (shr_record_of_loc m loc_Exact))
    as [m' r' s'].
  simpl in Hr, Hs. subst. reflexivity.
Qed.

(** Rounding to nearest is monotone against a bound [X * 2 ^ E] that is a
    multiple of the unit in the last place of the rounded number: the
    result does not exceed the bound.  All values are scaled by
    [2 ^ (- e)]. *)
Lemma binary_round_aux_le (s : bool) (m : positive) (e X E : Z) :
  0 <= X ->
  Z.max e (fexp prec emax (Zpos (digits2_pos m) + e)) <= E ->
  Zpos m <= X * 2 ^ (E - e) ->
  exists m' e',
    binary_round_aux prec emax s (Zpos m) e loc_Exact = finish s m' e' /\
    0 <= m' /\ e <= e' /\
    e' <= Z.max e (fexp prec emax (Zpos (digits2_pos m) + e)) + 1 /\
    m' * 2 ^ (e' - e) <= X * 2 ^ (E - e).
Proof.
  intros HX HE Hle.
  destruct (binary_round_aux_bound s m e) as (m0 & e0 & Hbra & _).
  unfold binary_round_aux, shr_fexp in *.
  set (d := Zpos (digits2_pos m)) in *.
  change (Zdigits2 (Zpos m)) with d in *.
  set (k1 := fexp prec emax (d + e) - e) in *.
  pose proof (shr_spec (shr_record_of_loc (Zpos m) loc_Exact) e k1) as H1.
  pose proof (shr_round_exact (Zpos m) e k1 ltac:(lia)) as Hex.
  simpl shr_m in H1. specialize (H1 ltac:(lia)).
  destruct (shr (shr_record_of_loc (Z.pos m) loc_Exact) e k1) as [mrs1 e1].
  destruct H1 as [He1 Hq].
  set (q := shr_m mrs1) in *.
  pose proof (round_nearest_even_bounds q (loc_of_shr_record mrs1)) as Hr.
  set (m1 := round_nearest_even q (loc_of_shr_record mrs1)) in *.
  set (K := Z.max 0 k1) in *.
  assert (HK : 0 <= K) by (unfold K; lia).
  pose proof (pow2_pos K HK) as HpK.
  assert (Hq0 : 0 <= q) by (rewrite Hq; apply Z.div_pos; lia).
  set (k2 := fexp prec emax (Zdigits2 m1 + e1) - e1) in *.
  pose proof (shr_spec (shr_record_of_loc m1 loc_Exact) e1 k2) as H2.
  simpl shr_m in H2. specialize (H2 ltac:(lia)).
  destruct (shr (shr_record_of_loc m1 loc_Exact) e1 k2) as [mrs2 e2].
  destruct H2 as [He2 Hm2].
  set (K2 := Z.max 0 k2) in *.
  assert (HK2 : 0 <= K2) by (unfold K2; lia).
  pose proof (pow2_pos K2 HK2) as HpK2.
  exists (shr_m mrs2), e2.
  split; [reflexivity|].
  assert (Hm2K : shr_m mrs2 * 2 ^ K2 <= m1).
  { rewrite Hm2, Z.mul_comm. apply Z.mul_div_le; lia. }
  assert (Hm20 : 0 <= shr_m mrs2) by (rewrite Hm2; apply Z.div_pos; lia).
  pose proof (digits_upper m) as Hdu. fold d in Hdu.
  assert (Hd : 0 < d) by (unfold d; lia).
  assert (Hq53 : q < 2 ^ 53).
  { assert (d <= 53 + K) by (unfold K, k1, fexp, prec; lia).
    assert (2 ^ d <= 2 ^ (53 + K)) by (apply Z.pow_le_mono_r; lia).
    assert (HqK : q * 2 ^ K <= Zpos m).
    { rewrite Hq, Z.mul_comm. apply Z.mul_div_le; lia. }
    rewrite Z.pow_add_r in * by lia. nia. }
  assert (Hd1 : Zdigits2 m1 <= 54) by (apply Zdigits2_le; lia).
  assert (Hd1' : 0 <= Zdigits2 m1) by (destruct m1; simpl; lia).
  assert (Hk2 : K2 <= 1).
  { unfold K2, k2, fexp, emin, prec, emax in *. lia. }
  split; [assumption|]. split; [lia|].
  split.
  { unfold K, K2, k1, k2, fexp, emin, prec, emax in *. lia. }
  (* the bound, in units of the first rounding exponent *)
  assert (He1E : e1 <= E) by (unfold K, k1 in *; lia).
  set (Y := X * 2 ^ (E - e1)).
  assert (HY : X * 2 ^ (E - e) = Y * 2 ^ K).
  { unfold Y. replace (E - e) with ((E - e1) + K) by lia.
    rewrite Z.pow_add_r by lia. ring. }
  assert (Hm1Y : m1 <= Y).
  { rewrite HY in Hle.
    destruct (Z.eq_dec (Zpos m mod 2 ^ K) 0) as [Hz|Hnz].
    - (* exact: the mantissa is q *)
      specialize (Hex Hz). fold m1 in Hex. rewrite Hex, Hq.
      apply Z.div_le_upper_bound; lia.
    - (* inexact: strictly below the bound, so q + 1 fits *)
      pose proof (Z.div_mod (Zpos m) (2 ^ K) ltac:(lia)) as Hdm.
      pose proof (Z.mod_pos_bound (Zpos m) (2 ^ K) HpK) as Hmb.
      rewrite <- Hq in Hdm. nia. }
  replace (e2 - e) with (K2 + K) by lia.
  rewrite Z.pow_add_r, HY by lia. nia.
Qed.

(** For [n] below [2 ^ 53] and a canonical [r] in [0, 0.5], [int(n * r)]
    is at most half of [n]. *)
Lemma int_mul_float_half (n : Z) (r : spec_float) :
  0 <= n < 2 ^ 53 ->
  valid_binary prec emax r = true ->
  le (PyInt 0) (PyFloat r) = true ->
  le (PyFloat r) (PyFloat f_half) = true ->
  exists k, num_val_samples_of n (PyFloat r) = Ok k /\ 0 <= 2 * k <= n.
Proof.
  intros Hn Hv H0 Hh. unfold num_val_samples_of.
  destruct (int_mul_float_bounds n r Hn Hv H0 Hh) as (p & k & Hmul & Hint & Hk).
  rewrite Hmul. cbn [bind int]. exists k. split; [exact Hint|].
  split; [lia|].
  apply zero_le_float in H0. change (SFleb r f_half = true) in Hh.
  unfold mul_int in Hmul.
  destruct (Z.eq_dec n 0) as [->|Hn0]; [lia|].
  destruct (float_of_int_exact n ltac:(lia)) as (mn & en & Hf & Hen & Hmn & Hdn).
  rewrite Hf in Hmul. cbn [bind] in Hmul.
  destruct r as [sr|sr| |sr m e]; try contradiction.
  - injection Hmul as <-. injection Hint as <-. lia.
  - destruct sr; [contradiction|discriminate Hh].
  - destruct sr; [contradiction|].
    destruct (le_half_mantissa m e Hv Hh) as (He & Hm & Hdm).
    cbn [SFmul xorb] in Hmul.
    assert (Hpe : 0 < 2 ^ (- (en + e))) by (apply pow2_pos; lia).
    assert (Hpen : 0 < 2 ^ (- en)) by (apply pow2_pos; lia).
    assert (Hprod : Zpos (mn * m) <= n * 2 ^ (-1 - (en + e))).
    { rewrite Pos2Z.inj_mul.
      assert (Hpp : 2 ^ (- en) * 2 ^ (- e) = 2 * 2 ^ (-1 - (en + e))).
      { rewrite <- Z.pow_add_r by lia.
        replace (- en + - e) with (Z.succ (-1 - (en + e))) by lia.
        rewrite Z.pow_succ_r by lia. reflexivity. }
      assert (0 < 2 ^ (-1 - (en + e))) by (apply pow2_pos; lia).
      nia. }
    assert (Hdig : Zpos (digits2_pos (mn * m)) + (en + e) <= 52).
    { pose proof (digits_lower (mn * m)) as Hlow.
      assert (Hlt : 2 ^ (Zpos (digits2_pos (mn * m)) - 1) < 2 ^ (52 - (en + e))).
      { eapply Z.le_lt_trans; [exact Hlow|].
        eapply Z.le_lt_trans; [exact Hprod|].
        replace (52 - (en + e)) with (53 + (-1 - (en + e))) by lia.
        rewrite Z.pow_add_r by lia.
        assert (0 < 2 ^ (-1 - (en + e))) by (apply pow2_pos; lia).
        nia. }
      apply Z.pow_lt_mono_r_iff in Hlt; lia. }
    destruct (binary_round_aux_le false (mn * m) (en + e) n (-1)
                ltac:(lia)
                ltac:(unfold fexp, emin, prec, emax; lia) Hprod)
      as (m' & e' & Hbra & Hm'0 & Hee' & He' & Hval).
    rewrite Hbra in Hmul. injection Hmul as <-.
    destruct m' as [|p'|p']; [| |lia].
    + injection Hint as <-. lia.
    + cbn [finish] in Hint.
      assert (He'1 : e' <= 0) by (unfold fexp, emin, prec, emax in He'; lia).
      replace (e' <=? emax - prec) with true in Hint
        by (symmetry; apply Z.leb_le; unfold emax, prec; lia).
      cbn [int_of_float cond_Zopp] in Hint. injection Hint as <-.
      destruct (Z.leb_spec 0 e') as [Hpos|Hneg].
      * assert (e' = 0) by lia. subst e'. rewrite Z.pow_0_r.
        replace (0 - (en + e)) with (Z.succ (-1 - (en + e))) in Hval by lia.
        rewrite Z.pow_succ_r in Hval by lia.
        assert (0 < 2 ^ (-1 - (en + e))) by (apply pow2_pos; lia).
        nia.
      * assert (Hpe' : 0 < 2 ^ (- e')) by (apply pow2_pos; lia).
        assert (H2 : 2 * Zpos p' <= n * 2 ^ (- e')).
        { assert (Hs : 2 ^ (- e') * 2 ^ (e' - (en + e))
                       = 2 * 2 ^ (-1 - (en + e))).
          { rewrite <- Z.pow_add_r by lia.
            replace (- e' + (e' - (en + e))) with (Z.succ (-1 - (en + e))) by lia.
            rewrite Z.pow_succ_r by lia. reflexivity. }
          assert (0 < 2 ^ (e' - (en + e))) by (apply pow2_pos; lia).
          assert (0 < 2 ^ (-1 - (en + e))) by (apply pow2_pos; lia).
          nia. }
        pose proof (Z.mul_div_le (Zpos p') (2 ^ (- e')) Hpe'). nia.
Qed.

End B64Mono.

(* ================================================================= *)
(** * More about the index *)

Module IndexMore.

(** A sorted list is determined by its elements. *)
Lemma sorted_unique (l1 l2 : list string) :
  StronglySorted le_str l1 -> StronglySorted le_str l2 ->
  Permutation l1 l2 -> l1 = l2.
Proof.
  intros H1. revert l2.
  induction H1 as [|x l1 Hs1 IH Hall1]; intros l2 H2 Hp.
  - apply Permutation_nil in Hp. now subst.
  - destruct H2 as [|y l2 Hs2 Hall2].
    + apply Permutation_sym, Permutation_nil in Hp. discriminate.
    + assert (Hxy : x = y).
      { rewrite Forall_forall in Hall1, Hall2.
        assert (Hx : In x (y :: l2))
          by (apply (Permutation_in _ Hp); now left).
        assert (Hy : In y (x :: l1))
          by (apply (Permutation_in _ (Permutation_sym Hp)); now left).
        destruct Hx as [->|Hx]; [reflexivity|].
        destruct Hy as [->|Hy]; [reflexivity|].
        apply String.leb_antisym; [apply Hall1, Hy | apply Hall2, Hx]. }
      subst y. f_equal. apply IH; [assumption|].
      eapply Permutation_cons_inv. eassumption.
Qed.

Lemma sorted_of_permutation (l l' : list string) :
  Permutation l l' -> sorted l = sorted l'.
Proof.
  intros Hp. apply sorted_unique; try apply sorted_sorted.
  rewrite (sorted_perm l), (sorted_perm l'). exact Hp.
Qed.

Lemma filter_sorted (f : string -> bool) (l : list string) :
  StronglySorted le_str l -> StronglySorted le_str (filter f l).
Proof.
  induction 1 as [|x l Hs IH Hall]; simpl; [constructor|].
  destruct (f x); [|exact IH].
  constructor; [exact IH|].
  rewrite Forall_forall in *. intros y Hy. apply filter_In in Hy.
  now apply Hall.
Qed.

Lemma flat_map_length_le {A B : Type} (f g : A -> list B) (l : list A) :
  (forall a, In a l -> (List.length (f a) <= List.length (g a))%nat) ->
  (List.length (flat_map f l) <= List.length (flat_map g l))%nat.
Proof.
  induction l as [|a l IH]; intros H; simpl; [apply Nat.le_refl|].
  rewrite !length_app.
  apply Nat.add_le_mono; [apply H; now left|].
  apply IH. intros b Hb. apply H. now right.
Qed.

(** [int(num_samples * val_ratio)] is at most half of [num_samples]. *)
Lemma num_val_samples_half (n : Z) (v : num) :
  0 <= n < 2 ^ 53 -> well_formed v -> in_unit_half v ->
  exists k, num_val_samples_of n v = Ok k /\ 0 <= 2 * k <= n.
Proof.
  intros Hn Hwf Hr. destruct v as [z|f].
  - apply in_unit_half_int in Hr. subst z. unfold num_val_samples_of. simpl.
    exists 0. split; [f_equal; lia | lia].
  - destruct Hr as [H0 Hh]. now apply B64Mono.int_mul_float_half.
Qed.

(** The split of one group: the val part is no longer than the train
    part. *)
Lemma group_val_le_train (v : num) (s : string) (ps : list string) :
  well_formed v -> in_unit_half v -> 0 <= len ps < 2 ^ 53 ->
  2 * len (val_part v (s, ps)) <= len ps /\
  len (train_part v (s, ps)) + len (val_part v (s, ps)) = len ps.
Proof.
  intros Hwf Hr Hps.
  destruct (num_val_samples_half (len ps) v Hps Hwf Hr) as (k & Hk & Hb).
  destruct (group_split_counts v [] Hwf Hr s ps Hps)
    as (k' & Hk' & _ & _ & _ & Hlt & Hlv).
  assert (k' = k) by congruence. subst k'. lia.
Qed.

End IndexMore.

Import IndexMore.

Section IndexExtras.

Variables (root : string) (mk mpc : list string) (v : num).
Variable glob_result : list string.

Hypothesis listing_layout : Forall has_layout glob_result.
Hypothesis listing_size : len glob_result < 2 ^ 53.
Hypothesis ratio_well_formed : well_formed v.
Hypothesis ratio_in_range : in_unit_half v.

(** X1.  Whatever order the directory listing comes in, the index is the
    same: two listings with the same entries give the same train and val
    partitions, in the same order. *)
Theorem listing_order_irrelevant (other : list string) :
  Permutation glob_result other ->
  _create_data_pairs root mk mpc v glob_result =
  _create_data_pairs root mk mpc v other.
Proof.
  intros Hp. unfold _create_data_pairs.
  now rewrite (sorted_of_permutation _ _ Hp).
Qed.

(** X2.  With [val_ratio] in [0, 0.5] the val partition never holds more
    records than the train partition, neither in total nor for any one
    sequence, and every sequence with a surviving record has a train
    record. *)
Theorem validation_never_outnumbers_training :
  exists train val,
    _create_data_pairs root mk mpc v glob_result = Ok (train, val) /\
    len val <= len train /\
    forall s,
      len (filter (of_seq s) (map fst val))
        <= len (filter (of_seq s) (map fst train)) /\
      (0 < len (filter (of_seq s) (surviving mk mpc glob_result)) ->
       0 < len (filter (of_seq s) (map fst train))).
Proof.
  destruct (index_structure root mk mpc v glob_result listing_layout
              listing_size ratio_well_formed ratio_in_range)
    as (d & train & val & _ & Hc & _ & _ & Hft & Hfv & Hnd & _ & Hlk & _
        & Htr & Hva).
  exists train, val. split; [exact Hc|]. split.
  - unfold len. rewrite <- (length_map fst val), <- (length_map fst train).
    rewrite Hft, Hfv. apply Nat2Z.inj_le, flat_map_length_le.
    intros [k ps] Hin.
    assert (Hps : 0 <= len ps < 2 ^ 53).
    { rewrite <- (lookup_in d k ps Hnd Hin), Hlk.
      apply group_small, listing_size. }
    destruct (group_val_le_train v k ps ratio_well_formed ratio_in_range Hps)
      as [H1 H2].
    unfold len in *. lia.
  - intros s. rewrite Htr, Hva, <- group_size.
    pose proof (group_small mk mpc glob_result listing_size s) as Hps.
    destruct (group_val_le_train v s _ ratio_well_formed ratio_in_range Hps)
      as [H1 H2].
    split; lia.
Qed.

(** X3.  For every sequence, its train records followed by its val records
    are exactly its surviving scans in ascending order of identifier: the
    partitions keep the discovery order and cut each sequence once. *)
Theorem sequence_order_preserved (s : string) :
  exists train val,
    _create_data_pairs root mk mpc v glob_result = Ok (train, val) /\
    filter (of_seq s) (map fst train) ++ filter (of_seq s) (map fst val)
      = filter (of_seq s) (surviving mk mpc (sorted glob_result)) /\
    StronglySorted le_str
      (filter (of_seq s) (map fst train) ++ filter (of_seq s) (map fst val)).
Proof.
  destruct (index_structure root mk mpc v glob_result listing_layout
              listing_size ratio_well_formed ratio_in_range)
    as (d & train & val & _ & Hc & _ & _ & _ & _ & _ & _ & _ & _ & Htr & Hva).
  exists train, val. split; [exact Hc|].
  assert (Heq : filter (of_seq s) (map fst train)
                ++ filter (of_seq s) (map fst val)
                = filter (of_seq s) (surviving mk mpc (sorted glob_result))).
  { rewrite Htr, Hva. unfold train_part, val_part. apply slice_to_from. }
  split; [exact Heq|]. rewrite Heq.
  apply filter_sorted, filter_sorted, sorted_sorted.
Qed.

End IndexExtras.

(* ================================================================= *)
(** * More about construction *)

Module InitMore.

Lemma clamp_idempotent (v : num) :
  clamp_val_ratio (fst (clamp_val_ratio v)) = (fst (clamp_val_ratio v), []).
Proof.
  destruct (lt v (PyInt 0)) eqn:Hlt.
  { rewrite (clamp_below v Hlt). reflexivity. }
  destruct (gt v (PyFloat f_half)) eqn:Hgt.
  { rewrite (clamp_above v Hgt). reflexivity. }
  assert (H : clamp_val_ratio v = (v, []))
    by (unfold clamp_val_ratio; now rewrite Hlt, Hgt).
  rewrite H. exact H.
Qed.

(** The keys of the dictionary built from an empty one are the sequence
    names of surviving records. *)
Lemma group_paths_keys (mk mpc : list string) (paths : list string)
    (d : scene_dict_t) (k : string) (ps : list string) :
  Forall has_layout paths ->
  group_paths mk mpc [] paths = Ok d -> In (k, ps) d ->
  ps = filter (of_seq k) (surviving mk mpc paths) /\ ps <> [].
Proof.
  intros Hlay Hg Hin.
  destruct (group_paths_spec mk mpc paths [] Hlay)
    as (d' & Hg' & Hnd & _ & Hlk & Hkeys).
  rewrite Hg in Hg'. injection Hg' as <-.
  specialize (Hnd (NoDup_nil _)). simpl in Hlk.
  assert (Hps : ps = filter (of_seq k) (surviving mk mpc paths)).
  { rewrite <- (lookup_in d k ps Hnd Hin). apply Hlk. }
  split; [exact Hps|].
  destruct (Hkeys k) as [[]|(p & Hp & Hs)].
  { change k with (fst (k, ps)). now apply in_map. }
  intros Hnil. rewrite Hps in Hnil.
  assert (Hq : In p (filter (of_seq k) (surviving mk mpc paths))).
  { apply filter_In. split; [exact Hp|now apply of_seq_true]. }
  rewrite Hnil in Hq. exact Hq.
Qed.

(** A NaN ratio stops the second loop at its first group. *)
Lemma split_groups_nan (root k : string) (ps : list string)
    (rest : scene_dict_t) (tr va : list (string * string)) :
  0 < len ps < 2 ^ 53 ->
  split_groups root (PyFloat S754_nan) ((k, ps) :: rest) tr va =
  Raise (ValueError "cannot convert float NaN to integer").
Proof.
  intros Hps. cbn [split_groups]. unfold num_val_samples_of, mul_int.
  destruct (B64.float_of_int_exact (len ps) Hps) as (m & e & Hf & _).
  rewrite Hf. reflexivity.
Qed.

End InitMore.

Import InitMore.

Section ConstructionExtras.
Context {E : External}.

Variables (root : string) (config : Config) (mk mpc : list string).
Variables (crop : option (Z * Z)) (augment : bool) (glob_result : list string).

(** X4.  A NaN [val_ratio] is neither below 0 nor above 0.5, so it is
    kept without a warning; construction then raises the [ValueError] of
    [int(nan)] as soon as one record survives the exclusion filter,
    whatever the split, and succeeds with an empty partition when none
    does. *)
Theorem nan_ratio_fails_on_first_group (split : string) :
  Forall has_layout glob_result -> len glob_result < 2 ^ 53 ->
  snd (__init__ root config mk mpc crop (PyFloat S754_nan) split augment
         glob_result) = [] /\
  (surviving mk mpc glob_result <> [] ->
   fst (__init__ root config mk mpc crop (PyFloat S754_nan) split augment
          glob_result)
   = Raise (ValueError "cannot convert float NaN to integer")) /\
  (surviving mk mpc glob_result = [] -> split = "train" \/ split = "val" ->
   exists self,
     fst (__init__ root config mk mpc crop (PyFloat S754_nan) split augment
            glob_result) = Ok self /\
     data_pairs self = []).
Proof.
  intros Hlay Hsize. rewrite init_unfold. cbn [fst snd].
  change (clamp_val_ratio (PyFloat S754_nan)) with (PyFloat S754_nan, @nil output).
  cbn [fst snd]. split; [reflexivity|].
  assert (Hlay' : Forall has_layout (sorted glob_result)).
  { eapply Permutation_Forall; [symmetry; apply sorted_perm|exact Hlay]. }
  destruct (group_paths_spec mk mpc (sorted glob_result) [] Hlay')
    as (d & Hg & _ & Hperm & _ & _).
  simpl in Hperm.
  unfold _create_data_pairs. rewrite Hg. cbn [bind].
  split.
  - intros Hne. destruct d as [|[k ps] rest].
    + exfalso. apply Hne. simpl in Hperm.
      apply Permutation_nil in Hperm.
      pose proof (discovered_perm mk mpc glob_result) as Hd.
      unfold surviving in *. rewrite Hperm in Hd.
      now apply Permutation_nil in Hd.
    + destruct (group_paths_keys mk mpc _ _ k ps Hlay' Hg (or_introl eq_refl))
        as [Hps Hnn].
      rewrite split_groups_nan; [reflexivity|].
      split.
      * destruct ps; [contradiction|]. unfold len. simpl. lia.
      * rewrite Hps. apply group_small, Hsize.
  - intros Hnil Hsplit. destruct d as [|[k ps] rest].
    + simpl. destruct Hsplit as [-> | ->]; simpl; eexists; split; reflexivity.
    + exfalso.
      destruct (group_paths_keys mk mpc _ _ k ps Hlay' Hg (or_introl eq_refl))
        as [Hps Hnn].
      apply Hnn. rewrite Hps.
      pose proof (discovered_perm mk mpc glob_result) as Hd.
      rewrite Hnil in Hd. apply Permutation_sym, Permutation_nil in Hd.
      now rewrite Hd.
Qed.

(** X5.  Clamping is idempotent, so the ratio a dataset stores rebuilds
    it: constructing again with the stored [val_ratio] and the same other
    arguments gives the same dataset and prints nothing. *)
Theorem stored_ratio_rebuilds_dataset (v : num) (split : string) (self : t) :
  fst (__init__ root config mk mpc crop v split augment glob_result) = Ok self ->
  clamp_val_ratio (val_ratio self) = (val_ratio self, []) /\
  __init__ root config mk mpc crop (val_ratio self) split augment glob_result
  = (Ok self, []).
Proof.
  intros Hinit. pose proof Hinit as Hself.
  rewrite init_unfold in Hself. cbn [fst] in Hself.
  assert (Hv : val_ratio self = fst (clamp_val_ratio v)).
  { destruct (_create_data_pairs root mk mpc (fst (clamp_val_ratio v)) glob_result)
      as [[tr va]|e]; [|discriminate].
    destruct (String.eqb split "train"); [now injection Hself as <-|].
    destruct (String.eqb split "val"); [now injection Hself as <-|].
    discriminate. }
  rewrite Hv. split; [apply clamp_idempotent|].
  rewrite init_unfold, clamp_idempotent. cbn [fst snd].
  now rewrite Hself.
Qed.

End ConstructionExtras.

Section LoaderExtras.
Context {E : External}.

Variable Loader : Type.
Variable build_loader : t -> Z -> Z -> bool -> Loader.
Variables (config : Config) (mk mpc : list string) (glob_result : list string).

(** X6.  [prepare_data_loaders] builds its two loaders over datasets that
    share no record and together hold every surviving record once: the
    active partition of the first is the train partition, that of the
    second the val partition of the same index.  The val dataset is never
    augmented, and a warning about [val_ratio] is printed once per
    dataset. *)
Theorem loaders_split_one_index (batch_size num_workers : Z) (v : num)
    (augment : bool) :
  NoDup glob_result -> Forall has_layout glob_result ->
  len glob_result < 2 ^ 53 -> well_formed v -> ordered v ->
  exists train_dataset val_dataset,
    Train.prepare_data_loaders Loader build_loader config mk mpc glob_result
      batch_size num_workers v augment
    = (Ok (build_loader train_dataset batch_size num_workers true,
           build_loader val_dataset batch_size num_workers false),
       snd (clamp_val_ratio v) ++ snd (clamp_val_ratio v)) /\
    data_pairs train_dataset = train_data_pairs val_dataset /\
    data_pairs val_dataset = val_data_pairs train_dataset /\
    (forall p, In p (map fst (data_pairs train_dataset)) ->
               ~ In p (map fst (data_pairs val_dataset))) /\
    __len__ train_dataset + __len__ val_dataset
      = len (surviving mk mpc glob_result) /\
    image_transform val_dataset = default_transforms /\
    image_transform train_dataset
      = (if augment then augment_then_default else default_transforms).
Proof.
  intros Hnd Hlay Hsize Hwf Hord.
  destruct (clamp_range v Hwf Hord) as [Hin Hwf'].
  destruct (index_structure Train.DATA_ROOT_PATH mk mpc _ glob_result
              Hlay Hsize Hwf' Hin)
    as (d & train & val & _ & Hc & _ & _ & _ & _ & _ & _ & _ & Hperm & _ & _).
  unfold Train.prepare_data_loaders. rewrite !init_unfold, Hc.
  cbn [String.eqb Ascii.eqb Bool.eqb fst snd].
  eexists. eexists. split; [reflexivity|]. cbn.
  split; [reflexivity|]. split; [reflexivity|].
  assert (Hnd' : NoDup (map fst train ++ map fst val)).
  { eapply Permutation_NoDup; [symmetry; exact Hperm|].
    apply NoDup_filter.
    eapply Permutation_NoDup; [symmetry; apply sorted_perm|exact Hnd]. }
  split; [intros p; now apply nodup_app_disjoint|].
  split; [|split; reflexivity].
  unfold __len__, len. cbn.
  rewrite <- (length_map fst train), <- (length_map fst val).
  rewrite <- Nat2Z.inj_add, <- length_app.
  rewrite (Permutation_length Hperm).
  now rewrite (Permutation_length (discovered_perm mk mpc glob_result)).
Qed.

End LoaderExtras.

(* ================================================================= *)
(** * Paths and file names *)

Module PathFacts.

Local Open Scope string_scope.

Lemma append_nil_r (a : string) : a ++ EmptyString = a.
Proof. induction a as [|c a IH]; simpl; [reflexivity|now rewrite IH]. Qed.

Lemma append_assoc (a b c : string) : a ++ b ++ c = (a ++ b) ++ c.
Proof. induction a as [|x a IH]; simpl; [reflexivity|now rewrite IH]. Qed.

Lemma lacks_app (c : ascii) (a b : string) :
  lacks c (a ++ b) <-> lacks c a /\ lacks c b.
Proof.
  induction a as [|x a IH]; simpl; [tauto|]. rewrite IH. tauto.
Qed.

Lemma split_char_lacks (sep : ascii) (s : string) :
  lacks sep s -> split_char sep s = [s].
Proof.
  induction s as [|c s IH]; simpl; [reflexivity|].
  intros [Hc Hs]. apply Ascii.eqb_neq in Hc. rewrite Hc, (IH Hs). reflexivity.
Qed.

Lemma split_char_app_sep (sep : ascii) (a b : string) :
  split_char sep (a ++ String sep b) = (split_char sep a ++ split_char sep b)%list.
Proof.
  induction a as [|c a IH]; simpl.
  - now rewrite Ascii.eqb_refl.
  - destruct (Ascii.eqb c sep); [now rewrite IH|].
    rewrite IH. pose proof (split_char_nonempty sep a) as Hne.
    destruct (split_char sep a); [contradiction|reflexivity].
Qed.

(** No segment of a split contains the separator. *)
Lemma split_char_segments (sep : ascii) (s : string) :
  Forall (lacks sep) (split_char sep s).
Proof.
  induction s as [|c s IH]; simpl.
  - repeat constructor.
  - destruct (Ascii.eqb_spec c sep) as [->|Hne].
    + constructor; [exact I|exact IH].
    + pose proof (split_char_nonempty sep s) as Hnn.
      destruct (split_char sep s) as [|seg rest]; [contradiction|].
      inversion IH; subst. constructor; [split; assumption|assumption].
Qed.

Lemma getitem_lacks (l : list string) (i : Z) (a : string) (c : ascii) :
  Forall (lacks c) l -> getitem l i = Ok a -> lacks c a.
Proof.
  intros Hall Hg. rewrite Forall_forall in Hall.
  apply Hall. eapply getitem_Ok_In. eassumption.
Qed.

Lemma last_lacks (l : list string) (c : ascii) :
  Forall (lacks c) l -> lacks c (last l EmptyString).
Proof.
  induction 1 as [|x l Hx Hl IH]; [exact I|].
  destruct l; [exact Hx|exact IH].
Qed.

(** [replace] brings in no character that is in neither the string nor
    the replacement. *)
Lemma replace_from_lacks (c : ascii) (old new : string) (s : string) :
  lacks c new -> forall k, lacks c s -> lacks c (replace_from old new k s).
Proof.
  intros Hnew. induction s as [|x s IH]; intros k Hs; [exact I|].
  destruct Hs as [Hx Hs]. cbn [replace_from].
  destruct k as [|k]; [|now apply IH].
  destruct (String.prefix old (String x s)).
  - apply lacks_app. split; [exact Hnew|now apply IH].
  - split; [exact Hx|now apply IH].
Qed.

Lemma replace_from_skip (old new x t : string) :
  replace_from old new (String.length x) (x ++ t) = replace_from old new 0 t.
Proof. induction x as [|c x IH]; simpl; [reflexivity|exact IH]. Qed.

(** A stretch without the first character of [old] is copied. *)
Lemma replace_from_copy (c : ascii) (old' new a t : string) :
  lacks c a ->
  replace_from (String c old') new 0 (a ++ t)
  = a ++ replace_from (String c old') new 0 t.
Proof.
  induction a as [|x a IH]; simpl; [reflexivity|].
  intros [Hx Ha].
  destruct (Ascii.ascii_dec c x) as [->|Hne]; [contradiction|].
  now rewrite (IH Ha).
Qed.

Lemma prefix_app (p t : string) : String.prefix p (p ++ t) = true.
Proof.
  induction p as [|c p IH]; simpl; [now destruct t|].
  destruct (Ascii.ascii_dec c c); [exact IH|contradiction].
Qed.

(** An occurrence of [old] is replaced. *)
Lemma replace_from_match (c : ascii) (old' new t : string) :
  replace_from (String c old') new 0 (String c old' ++ t)
  = new ++ replace_from (String c old') new 0 t.
Proof.
  change (String c old' ++ t) with (String c (old' ++ t)).
  cbn [replace_from].
  change (String c (old' ++ t)) with (String c old' ++ t).
  rewrite prefix_app. cbn [String.length]. rewrite Nat.sub_succ, Nat.sub_0_r.
  now rewrite replace_from_skip.
Qed.

Lemma replace_from_end (c : ascii) (old' new a : string) :
  lacks c a -> replace_from (String c old') new 0 a = a.
Proof.
  intros Ha. rewrite <- (append_nil_r a) at 1.
  rewrite (replace_from_copy c old' new a EmptyString Ha). simpl.
  apply append_nil_r.
Qed.

(** The naming convention: the modality token and the suffix are
    swapped. *)
Lemma image_file_name_convention (a b : string) :
  lacks "l" a -> lacks "." a -> lacks "l" b -> lacks "." b ->
  image_file_name_of (a ++ "lidar" ++ b ++ ".npz") = a ++ "camera" ++ b ++ ".png".
Proof.
  intros Hla Hda Hlb Hdb. unfold image_file_name_of, replace.
  rewrite (replace_from_copy "l" "idar" "camera" a _ Hla).
  rewrite (replace_from_match "l" "idar" "camera").
  rewrite (replace_from_end "l" "idar" "camera" (b ++ ".npz")).
  2:{ apply lacks_app. split; [exact Hlb|].
      simpl. repeat split; discriminate. }
  replace (a ++ "camera" ++ b ++ ".npz") with ((a ++ "camera" ++ b) ++ ".npz")
    by (now rewrite <- !append_assoc).
  rewrite (replace_from_copy "." "npz" ".png").
  2:{ apply lacks_app. split; [exact Hda|].
      apply lacks_app. split; [|exact Hdb].
      simpl. repeat split; discriminate. }
  change (replace_from ".npz" ".png" 0 ".npz") with ".png".
  now rewrite <- !append_assoc.
Qed.

Lemma startswith_lacks (b : string) : lacks "/" b -> startswith "/" b = false.
Proof.
  destruct b as [|c b]; [reflexivity|].
  intros [Hc _]. unfold startswith. cbn [String.prefix].
  destruct (Ascii.ascii_dec "/" c) as [<-|]; [contradiction|].
  reflexivity.
Qed.

Lemma endswith_char_app (c : ascii) (s : string) :
  endswith_char c s = true -> exists r, s = r ++ String c EmptyString.
Proof.
  induction s as [|a s IH]; simpl; [discriminate|].
  destruct s as [|b s].
  - intros H. apply Ascii.eqb_eq in H. subst. now exists EmptyString.
  - intros H. destruct (IH H) as [r Hr]. exists (String a r).
    simpl. now rewrite <- Hr.
Qed.

Lemma endswith_char_lacks (c : ascii) (r s : string) :
  s <> EmptyString -> lacks c s -> endswith_char c (r ++ s) = false.
Proof.
  intros Hne Hs. induction r as [|a r IH]; simpl.
  - clear Hne. induction s as [|x s IHs]; [reflexivity|].
    destruct Hs as [Hx Hs]. simpl. destruct s.
    + now apply Ascii.eqb_neq.
    + now apply IHs.
  - destruct (r ++ s) eqn:Hrs; [|exact IH].
    destruct r; [simpl in Hrs; contradiction|discriminate].
Qed.

Lemma append_nonempty (r s : string) :
  s <> EmptyString -> String.eqb (r ++ s) EmptyString = false.
Proof.
  intros Hs. apply String.eqb_neq. destruct r; [exact Hs|discriminate].
Qed.

(** Joining a directory [path] that ends in a proper name with one more
    relative component. *)
Lemma join_step_name (r s b : string) :
  s <> EmptyString -> lacks "/" s -> startswith "/" b = false ->
  join_step (r ++ s) b = (r ++ s) ++ "/" ++ b.
Proof.
  intros Hne Hs Hb. unfold join_step.
  now rewrite Hb, (append_nonempty r s Hne), (endswith_char_lacks "/" r s Hne Hs).
Qed.

(** The segments of the image path of a record: the sequence name, the
    camera directories and the image file name come last. *)
Lemma pair_of_segments (root s p : string) :
  s <> EmptyString -> lacks "/" s ->
  exists segs,
    split_slash (snd (pair_of root s p)) =
    (segs ++ [s; "camera"; "cam_front_center";
              image_file_name_of (file_name_of p)])%list.
Proof.
  intros Hne Hs. unfold pair_of, os_path_join. cbn [snd fold_left].
  fold (image_file_name_of (file_name_of p)).
  set (f := image_file_name_of (file_name_of p)).
  assert (Hf : lacks "/" f).
  { unfold f, image_file_name_of, replace.
    apply replace_from_lacks; [simpl; repeat split; discriminate|].
    apply replace_from_lacks; [simpl; repeat split; discriminate|].
    apply last_lacks, split_char_segments. }
  assert (H1 : exists r segs, join_step root s = r ++ s /\
                              split_slash (r ++ s) = (segs ++ [s])%list).
  { unfold join_step. rewrite (startswith_lacks s Hs).
    destruct (String.eqb_spec root EmptyString) as [->|Hroot]; cbn [orb].
    - exists EmptyString, []. split; [reflexivity|].
      simpl. apply (split_char_lacks "/" s Hs).
    - destruct (endswith_char "/" root) eqn:Hend.
      + destruct (endswith_char_app "/" root Hend) as [r Hr].
        exists root, (split_slash r). split; [reflexivity|].
        rewrite Hr, <- append_assoc. simpl.
        unfold split_slash.
        now rewrite split_char_app_sep, (split_char_lacks "/" s Hs).
      + exists (root ++ "/"), (split_slash root). split.
        * now rewrite <- append_assoc.
        * rewrite <- append_assoc. simpl. unfold split_slash.
          now rewrite split_char_app_sep, (split_char_lacks "/" s Hs). }
  destruct H1 as (r & segs & Hj & Hsplit). rewrite Hj.
  rewrite (join_step_name r s "camera/cam_front_center" Hne Hs eq_refl).
  replace ((r ++ s) ++ "/" ++ "camera/cam_front_center")
    with (((r ++ s) ++ "/camera/") ++ "cam_front_center")
    by (rewrite <- !append_assoc; reflexivity).
  rewrite (join_step_name _ "cam_front_center" f ltac:(discriminate)
             ltac:(simpl; repeat split; discriminate)
             (startswith_lacks f Hf)).
  exists segs.
  replace ((((r ++ s) ++ "/camera/") ++ "cam_front_center") ++ "/" ++ f)
    with ((r ++ s) ++ String "/" ("camera" ++ String "/"
            ("cam_front_center" ++ String "/" f)))
    by (rewrite <- !append_assoc; reflexivity).
  unfold split_slash in *.
  rewrite !split_char_app_sep, Hsplit, (split_char_lacks "/" f Hf).
  rewrite <- app_assoc. reflexivity.
Qed.

End PathFacts.

Import PathFacts.

Section PathExtras.

Variables (root : string) (mk mpc : list string) (v : num).
Variable glob_result : list string.

Hypothesis listing_layout : Forall has_layout glob_result.
Hypothesis listing_size : len glob_result < 2 ^ 53.
Hypothesis ratio_well_formed : well_formed v.
Hypothesis ratio_in_range : in_unit_half v.

(** No sequence directory has the empty name. *)
Hypothesis listing_named :
  Forall (fun p => seq_name_of p <> Ok EmptyString) glob_result.

(** X7.  The image path of every indexed record mirrors the path of its
    scan: its last four segments are the sequence name of the scan,
    [camera], [cam_front_center] and the image file name derived from the
    scan's file name, so the rule that reads the sequence name off a scan
    path reads the same name off the image path. *)
Theorem image_path_mirrors_scan_path :
  exists train val,
    _create_data_pairs root mk mpc v glob_result = Ok (train, val) /\
    forall lidar_path image_path,
      In (lidar_path, image_path) (train ++ val) ->
      exists s segs,
        seq_name_of lidar_path = Ok s /\
        split_slash image_path =
          segs ++ [s; "camera"; "cam_front_center";
                   image_file_name_of (file_name_of lidar_path)] /\
        seq_name_of image_path = Ok s.
Proof.
  destruct (index_structure root mk mpc v glob_result listing_layout
              listing_size ratio_well_formed ratio_in_range)
    as (d & train & val & _ & Hc & Ht & Hv & _ & _ & _ & Hkeyed & _ & Hperm & _).
  exists train, val. split; [exact Hc|].
  intros lp ip Hin.
  assert (Hpair : exists it p, In it d /\ In p (snd it) /\
                    (lp, ip) = pair_of root (fst it) p).
  { apply in_app_or in Hin. destruct Hin as [Hin|Hin];
      [rewrite Ht in Hin|rewrite Hv in Hin];
      apply in_flat_map in Hin; destruct Hin as (it & Hit & Hin);
      apply in_map_iff in Hin; destruct Hin as (p & Hp & Hin);
      exists it, p; (split; [exact Hit|]); (split; [|now symmetry]).
    - eapply (incl_slice_to (fun ps => len ps - val_count v ps)). exact Hin.
    - eapply (incl_slice_from (fun ps => len ps - val_count v ps)). exact Hin. }
  destruct Hpair as (it & p & Hit & Hp & Heq).
  assert (Hlp : lp = p) by (unfold pair_of in Heq; congruence). subst p.
  unfold keyed in Hkeyed. rewrite Forall_forall in Hkeyed.
  pose proof (Hkeyed it Hit) as Hk. rewrite Forall_forall in Hk.
  pose proof (Hk lp Hp) as Hs.
  assert (Hsurv : In lp (surviving mk mpc (sorted glob_result))).
  { eapply Permutation_in; [exact Hperm|].
    apply in_or_app. apply in_app_or in Hin.
    destruct Hin as [Hin|Hin]; [left|right];
      apply in_map_iff; exists (lp, ip); split; auto. }
  assert (Hglob : In lp glob_result).
  { unfold surviving in Hsurv. apply filter_In in Hsurv.
    eapply Permutation_in; [apply sorted_perm|]. apply Hsurv. }
  assert (Hne : fst it <> EmptyString).
  { rewrite Forall_forall in listing_named.
    intros Hempty. apply (listing_named lp Hglob). now rewrite Hs, Hempty. }
  assert (Hl : lacks "/" (fst it)).
  { eapply getitem_lacks; [apply split_char_segments|exact Hs]. }
  destruct (pair_of_segments root (fst it) lp Hne Hl) as [segs Hsegs].
  assert (Hip : ip = snd (pair_of root (fst it) lp)) by (now rewrite <- Heq).
  exists (fst it), segs. split; [exact Hs|]. rewrite Hip. split; [exact Hsegs|].
  unfold seq_name_of. rewrite Hsegs.
  apply (getitem_neg_rev _ 3). rewrite rev_app_distr. reflexivity.
Qed.

End PathExtras.

(** X8.  The naming convention of the dataset: for a scan in directory
    [dir] whose file name is [a ++ "lidar" ++ b ++ ".npz"], where neither
    [a] nor [b] contains a slash, the letter l or a period, the pair built
    by the loop body names the image [a ++ "camera" ++ b ++ ".png"], in the
    camera directory of the sequence: the modality token and the suffix
    are exchanged and nothing else. *)
Theorem scan_name_maps_to_image_name (root seq_name dir a b : string) :
  lacks "/" a -> lacks "l" a -> lacks "." a ->
  lacks "/" b -> lacks "l" b -> lacks "." b ->
  make_pair root seq_name
    (dir ++ "/" ++ a ++ "lidar" ++ b ++ ".npz")%string
  = Ok ((dir ++ "/" ++ a ++ "lidar" ++ b ++ ".npz")%string,
        os_path_join root
          [seq_name; "camera/cam_front_center";
           (a ++ "camera" ++ b ++ ".png")%string]).
Proof.
  intros Hsa Hla Hda Hsb Hlb Hdb.
  rewrite make_pair_spec. unfold pair_of. do 3 f_equal.
  fold (image_file_name_of
          (file_name_of (dir ++ "/" ++ a ++ "lidar" ++ b ++ ".npz")%string)).
  replace (file_name_of (dir ++ "/" ++ a ++ "lidar" ++ b ++ ".npz")%string)
    with (a ++ "lidar" ++ b ++ ".npz")%string.
  - now rewrite (image_file_name_convention a b Hla Hda Hlb Hdb).
  - unfold file_name_of, split_slash.
    change (dir ++ "/" ++ a ++ "lidar" ++ b ++ ".npz")%string
      with (dir ++ String "/" (a ++ "lidar" ++ b ++ ".npz"))%string.
    rewrite split_char_app_sep,
      (split_char_lacks "/" (a ++ "lidar" ++ b ++ ".npz")%string).
    + now rewrite last_last.
    + apply lacks_app. split; [exact Hsa|].
      apply (proj2 (lacks_app "/" "lidar" (b ++ ".npz"))).
      split; [simpl; repeat split; discriminate|].
      apply lacks_app. split; [exact Hsb|simpl; repeat split; discriminate].
Qed.

(* ================================================================= *)
(** * Retrieval outside the well-decoded, in-range case *)

Module RetrievalMore.

Section WithExternal.
Context {E : External}.

Lemma getitem_out_of_range {A : Type} (l : list A) (i : Z) :
  i < - len l \/ len l <= i -> getitem l i = Raise IndexError.
Proof.
  unfold getitem, len. intros Hi.
  destruct (Z.ltb_spec i 0) as [Hneg|Hpos].
  - destruct (Z.ltb_spec (i + Z.of_nat (List.length l)) 0) as [Hlt|Hge];
      [reflexivity|lia].
  - destruct (Z.ltb_spec i 0) as [Hlt|Hge]; [lia|].
    destruct (nth_error l (Z.to_nat i)) eqn:Hn; [|reflexivity].
    assert (Hk : (Z.to_nat i < List.length l)%nat)
      by (apply nth_error_Some; congruence).
    lia.
Qed.

Lemma getitem_Ok_range {A : Type} (l : list A) (i : Z) (a : A) :
  getitem l i = Ok a -> - len l <= i < len l.
Proof.
  intros H.
  destruct (Z.lt_ge_cases i (- len l)) as [Hlo|Hlo];
    [rewrite getitem_out_of_range in H by (now left); discriminate|].
  destruct (Z.lt_ge_cases i (len l)) as [Hhi|Hhi]; [lia|].
  rewrite getitem_out_of_range in H by (now right). discriminate.
Qed.

Lemma getitem_negative {A : Type} (l : list A) (i : Z) :
  - len l <= i < 0 -> getitem l i = getitem l (i + len l).
Proof.
  unfold getitem. intros Hi.
  assert (Ht : (i <? 0) = true) by (apply Z.ltb_lt; lia).
  assert (Hf : (i + len l <? 0) = false) by (apply Z.ltb_ge; lia).
  rewrite Ht. cbv beta iota zeta. rewrite Hf. cbv beta iota zeta.
  now rewrite Hf.
Qed.

Lemma getitem_mod {A : Type} (l : list A) (i : Z) :
  - len l <= i < len l -> getitem l i = getitem l (i mod len l).
Proof.
  intros Hi. destruct (Z.lt_ge_cases i 0) as [Hneg|Hpos].
  - rewrite getitem_negative by lia. f_equal.
    rewrite <- (Z.mod_small (i + len l) (len l)) at 1 by lia.
    replace (i + len l) with (i + 1 * len l) by lia.
    apply Z.mod_add. lia.
  - now rewrite Z.mod_small by lia.
Qed.

(** A cycle reads the partition only through [data_pairs[idx]]. *)
Lemma getitem_unsafe_ext (self : t) (w : World) (i j : Z) :
  getitem (data_pairs self) i = getitem (data_pairs self) j ->
  _getitem_unsafe self w i = _getitem_unsafe self w j.
Proof. intros H. unfold _getitem_unsafe. now rewrite H. Qed.

Lemma getitem_unsafe_Ok_range (self : t) (w w' : World) (idx : Z)
    (r : Tensor * list point_row) :
  _getitem_unsafe self w idx = (Ok r, w') ->
  - len (data_pairs self) <= idx < len (data_pairs self).
Proof.
  unfold _getitem_unsafe.
  destruct (getitem (data_pairs self) idx) as [[lp ip]|e] eqn:Hg;
    [|discriminate].
  intros _. eapply getitem_Ok_range. eassumption.
Qed.

(** A cycle that raises has drawn nothing, and raises the [IndexError] of
    the index or the [ValueError] of the stacking. *)
Lemma getitem_unsafe_Raise (self : t) (w w' : World) (idx : Z) (e : exn) :
  _getitem_unsafe self w idx = (Raise e, w') ->
  w' = w /\ (e = IndexError \/ exists msg, e = ValueError msg).
Proof.
  unfold _getitem_unsafe.
  destruct (getitem (data_pairs self) idx) as [[lp ip]|e0] eqn:Hg.
  - unfold hstack.
    destruct (stack_rows _ _ _ _) as [pc|].
    + destruct (match crop_size self with
                | Some size => random_crop w _ pc size
                | None => (_, pc, w)
                end) as [[undistorted pc'] w1].
      destruct (apply_transform (image_transform self) w1
                  (cv2_resize undistorted (224, 224))) as [timg w2].
      discriminate.
    + intros [= <- <-]. split; [reflexivity|]. right. eauto.
  - intros [= <- <-]. split; [reflexivity|]. left.
    unfold getitem in Hg.
    destruct (_ <? 0); [congruence|].
    destruct (nth_error _ _); [discriminate|congruence].
Qed.

Lemma len_zero_nil {A : Type} (l : list A) : len l = 0 -> l = [].
Proof. destruct l; [reflexivity|]. unfold len. simpl. lia. Qed.

(** Empty cycles use up attempts and nothing else. *)
Lemma retry_loop_after_empty (self : t) (w w1 : World) (idx idx1 : Z) (k : nat) :
  empty_cycles self w idx k w1 idx1 ->
  forall n, retry_loop self (k + n) w idx = retry_loop self n w1 idx1.
Proof.
  induction 1 as [w idx|w wa w' idx idx' image pc k Hu He Hc IH]; intros n.
  - reflexivity.
  - change (S k + n)%nat with (S (k + n)). cbn [retry_loop]. rewrite Hu.
    replace (len pc >? 0) with false by (rewrite He; reflexivity).
    pose proof (getitem_unsafe_Ok_range self w wa idx _ Hu) as Hr.
    unfold mod_.
    replace (len (data_pairs self) =? 0) with false
      by (symmetry; apply Z.eqb_neq; lia).
    apply IH.
Qed.

(** Each of [n] empty cycles ran at the next index modulo the partition
    size and came back with no point. *)
Lemma empty_cycles_each (self : t) (w w' : World) (idx idx' : Z) (n : nat) :
  empty_cycles self w idx n w' idx' ->
  forall j, (j < n)%nat ->
    exists wa wb image,
      _getitem_unsafe self wa ((idx + Z.of_nat j) mod len (data_pairs self))
      = (Ok (image, []), wb).
Proof.
  induction 1 as [w idx|w wa w' idx idx' image pc k Hu He Hc IH]; intros j Hj.
  - lia.
  - pose proof (getitem_unsafe_Ok_range self w wa idx _ Hu) as Hr.
    destruct j as [|j].
    + exists w, wa, image. rewrite Z.add_0_r.
      rewrite <- (getitem_unsafe_ext self w idx) by (now apply getitem_mod).
      now rewrite <- (len_zero_nil pc He).
    + destruct (IH j ltac:(lia)) as (wx & wy & img & Hx).
      exists wx, wy, img. rewrite <- Hx. f_equal.
      rewrite Z.add_mod_idemp_l by lia. f_equal. lia.
Qed.

(** Every way the loop can end, with no assumption on the instance. *)
Lemma retry_loop_cases (self : t) (n : nat) :
  forall (w : World) (idx : Z),
    (exists k w1 idx1 image pts w2,
        (k < n)%nat /\ empty_cycles self w idx k w1 idx1 /\
        _getitem_unsafe self w1 idx1 = (Ok (image, pts), w2) /\
        0 < len pts /\
        retry_loop self n w idx = (Ok (image, pts), w2))
    \/
    (exists k w1 idx1 e w2,
        (k < n)%nat /\ empty_cycles self w idx k w1 idx1 /\
        _getitem_unsafe self w1 idx1 = (Raise e, w2) /\
        retry_loop self n w idx = (Raise e, w2))
    \/
    (exists w' idx',
        empty_cycles self w idx n w' idx' /\
        retry_loop self n w idx
        = (Raise (RuntimeError (exhausted_message idx')), w')).
Proof.
  induction n as [|n IH]; intros w idx.
  - right. right. exists w, idx. split; [constructor|reflexivity].
  - cbn [retry_loop].
    destruct (_getitem_unsafe self w idx) as [[[image pts]|e] w1] eqn:Hu.
    + pose proof (getitem_unsafe_Ok_range self w w1 idx _ Hu) as Hr.
      destruct (Z.gtb_spec (len pts) 0) as [Hpos|Hzero].
      * left. exists 0%nat, w, idx, image, pts, w1.
        split; [lia|]. split; [constructor|]. repeat split; [assumption|lia].
      * assert (Hlen : len pts = 0) by (unfold len in *; lia).
        unfold mod_.
        replace (len (data_pairs self) =? 0) with false
          by (symmetry; apply Z.eqb_neq; lia).
        destruct (IH w1 ((idx + 1) mod len (data_pairs self)))
          as [(k & wa & ia & img & pc & wb & Hk & Hc & Hu' & Hp & Hres)
             |[(k & wa & ia & e & wb & Hk & Hc & Hu' & Hres)
              |(w' & idx' & Hc & Hres)]].
        -- left. exists (S k), wa, ia, img, pc, wb.
           split; [lia|]. split; [econstructor; eassumption|].
           repeat split; assumption.
        -- right. left. exists (S k), wa, ia, e, wb.
           split; [lia|]. split; [econstructor; eassumption|].
           split; assumption.
        -- right. right. exists w', idx'.
           split; [econstructor; eassumption|exact Hres].
    + right. left. exists 0%nat, w, idx, e, w1.
      split; [lia|]. split; [constructor|]. split; [assumption|reflexivity].
Qed.

(** Stacking arrays of one length, then keeping the first four columns as
    float32. *)
Lemma stack_rows_geometry (pts : list (scalar * scalar * scalar)) :
  forall refl rows cols : list scalar,
    List.length refl = List.length pts ->
    List.length rows = List.length pts ->
    List.length cols = List.length pts ->
    exists pc,
      stack_rows pts refl rows cols = Some pc /\
      List.length pc = List.length pts /\
      points_tensor_of pc
      = geometry_rows {| points := pts; reflectance := refl;
                         row := rows; col := cols |}.
Proof.
  induction pts as [|[[x y] z] pts IH]; intros [|r refl] [|i rows] [|j cols];
    simpl; try discriminate; intros H1 H2 H3.
  - exists []. repeat split.
  - destruct (IH refl rows cols ltac:(lia) ltac:(lia) ltac:(lia))
      as (pc & Hs & Hl & Hg).
    exists ([x; y; z; r; i; j] :: pc). rewrite Hs. split; [reflexivity|].
    split; [simpl; now rewrite Hl|].
    unfold points_tensor_of in *. cbn [map].
    change (slice_to [x; y; z; r; i; j] 4) with [x; y; z; r].
    rewrite Hg. reflexivity.
Qed.

End WithExternal.
End RetrievalMore.

Import RetrievalMore.

Section RetrievalExtras.
Context {E : External}.
Variable self : t.

(** X9.  An index outside the active partition, [idx >= len] or
    [idx < -len], ends retrieval at once with the [IndexError] of the
    first lookup and without a draw from the generator; on an empty
    partition this is so for every index, and the modulus by the partition
    size is never reached. *)
Theorem index_outside_partition_raises (w : World) (idx : Z) :
  idx < - len (data_pairs self) \/ len (data_pairs self) <= idx ->
  __getitem__ self w idx = (Raise IndexError, w).
Proof.
  intros Hidx. unfold __getitem__.
  change (Z.to_nat max_attempts) with (S 99).
  cbn [retry_loop]. unfold _getitem_unsafe.
  now rewrite (getitem_out_of_range (data_pairs self) idx Hidx).
Qed.

(** X10.  A negative index within the partition counts from its end:
    retrieval at [idx] and at [idx + len] are the same computation, with
    the same sample or the same exception and the same generator state. *)
Theorem negative_index_counts_from_end (w : World) (idx : Z) :
  - len (data_pairs self) <= idx < 0 ->
  __getitem__ self w idx = __getitem__ self w (idx + len (data_pairs self)).
Proof.
  intros Hidx. unfold __getitem__.
  change (Z.to_nat max_attempts) with (S 99).
  cbn [retry_loop].
  rewrite (getitem_unsafe_ext self w idx (idx + len (data_pairs self)))
    by (now apply getitem_negative).
  replace (mod_ (idx + len (data_pairs self) + 1) (len (data_pairs self)))
    with (mod_ (idx + 1) (len (data_pairs self))); [reflexivity|].
  unfold mod_.
  destruct (len (data_pairs self) =? 0) eqn:Hz; [reflexivity|].
  apply Z.eqb_neq in Hz. f_equal.
  replace (idx + len (data_pairs self) + 1)
    with (idx + 1 + 1 * len (data_pairs self)) by lia.
  symmetry. now apply Z.mod_add.
Qed.

(** X11.  The retry loop retries on an empty point set only: when a cycle
    raises after fewer than 100 empty cycles, retrieval ends with that
    cycle's exception and does not move on to the next record. *)
Theorem failing_cycle_ends_retrieval (w w1 w2 : World) (idx idx1 : Z)
    (k : nat) (e : exn) :
  (k < 100)%nat ->
  empty_cycles self w idx k w1 idx1 ->
  _getitem_unsafe self w1 idx1 = (Raise e, w2) ->
  __getitem__ self w idx = (Raise e, w2).
Proof.
  intros Hk Hc Hu. unfold __getitem__.
  change (Z.to_nat max_attempts) with 100%nat.
  replace 100%nat with (k + S (99 - k))%nat by lia.
  rewrite (retry_loop_after_empty self w w1 idx idx1 k Hc).
  cbn [retry_loop]. now rewrite Hu.
Qed.

(** X12.  Without a crop size, retrieval at an index whose scan decodes to
    arrays of one length with at least one point returns that record at
    the first attempt: all points of the scan in their order, each as
    (x, y, z, reflectance) in float32, and the image of the record,
    undistorted, resized to 224 x 224 and transformed. *)
Theorem uncropped_sample_is_whole_scan (w : World) (idx : Z)
    (lidar_path image_path : string) :
  crop_size self = None ->
  getitem (data_pairs self) idx = Ok (lidar_path, image_path) ->
  List.length (reflectance (np_load lidar_path))
    = List.length (points (np_load lidar_path)) ->
  List.length (row (np_load lidar_path))
    = List.length (points (np_load lidar_path)) ->
  List.length (col (np_load lidar_path))
    = List.length (points (np_load lidar_path)) ->
  points (np_load lidar_path) <> [] ->
  let transformed :=
    apply_transform (image_transform self) w
      (cv2_resize
         (undistort_image (cv2_cvtColor_BGR2RGB (cv2_imread image_path))
            "front_center" (config self))
         (224, 224)) in
  __getitem__ self w idx
  = (Ok (fst transformed, geometry_rows (np_load lidar_path)), snd transformed)
  /\ List.length (geometry_rows (np_load lidar_path))
     = List.length (points (np_load lidar_path)).
Proof.
  intros Hcrop Hg H1 H2 H3 Hne transformed.
  destruct (stack_rows_geometry (points (np_load lidar_path))
              (reflectance (np_load lidar_path)) (row (np_load lidar_path))
              (col (np_load lidar_path)) H1 H2 H3) as (pc & Hs & Hl & Hgeo).
  assert (Hd : geometry_rows (np_load lidar_path) = points_tensor_of pc).
  { rewrite Hgeo. now destruct (np_load lidar_path). }
  assert (Hlen : List.length (points_tensor_of pc)
                 = List.length (points (np_load lidar_path))).
  { unfold points_tensor_of. now rewrite length_map. }
  split; [|now rewrite Hd].
  unfold __getitem__. change (Z.to_nat max_attempts) with (S 99).
  cbn [retry_loop]. unfold _getitem_unsafe, hstack.
  rewrite Hg, Hs, Hcrop. fold transformed.
  destruct transformed as [timg w'] eqn:Ht. cbn [fst snd].
  rewrite Hd.
  replace (len (points_tensor_of pc) >? 0) with true; [reflexivity|].
  symmetry. apply Z.gtb_lt. unfold len. rewrite Hlen.
  destruct (points (np_load lidar_path)); [contradiction|simpl; lia].
Qed.

(** X13.  A [RuntimeError] from retrieval means that 100 cycles in a row
    came back with no point, one at each of the indices
    [idx, idx + 1, ..., idx + 99] taken modulo the partition size; so on a
    partition of at most 100 records every record was tried and gave no
    point. *)
Theorem exhausted_retrieval_tried_every_index (w w' : World) (idx : Z)
    (msg : string) :
  __getitem__ self w idx = (Raise (RuntimeError msg), w') ->
  (forall j, 0 <= j < 100 ->
     exists wa wb image,
       _getitem_unsafe self wa ((idx + j) mod len (data_pairs self))
       = (Ok (image, []), wb)) /\
  (len (data_pairs self) <= 100 ->
   forall i, 0 <= i < len (data_pairs self) ->
     exists wa wb image, _getitem_unsafe self wa i = (Ok (image, []), wb)).
Proof.
  intros Hr. unfold __getitem__ in Hr.
  change (Z.to_nat max_attempts) with 100%nat in Hr.
  assert (Hc : exists w1 idx1, empty_cycles self w idx 100 w1 idx1).
  { destruct (retry_loop_cases self 100 w idx)
      as [(k & wa & ia & img & pc & wb & _ & _ & _ & _ & Hres)
         |[(k & wa & ia & e & wb & _ & _ & Hu & Hres)
          |(w1 & idx1 & Hc & _)]].
    - rewrite Hres in Hr. discriminate.
    - rewrite Hres in Hr. injection Hr as -> _.
      destruct (getitem_unsafe_Raise self wa wb ia _ Hu) as [_ [He|[m He]]];
        discriminate.
    - eauto. }
  destruct Hc as (w1 & idx1 & Hc).
  assert (Hj : forall j, 0 <= j < 100 ->
            exists wa wb image,
              _getitem_unsafe self wa ((idx + j) mod len (data_pairs self))
              = (Ok (image, []), wb)).
  { intros j Hj.
    destruct (empty_cycles_each self w w1 idx idx1 100 Hc (Z.to_nat j)
                ltac:(lia)) as (wa & wb & img & H).
    exists wa, wb, img. rewrite <- H. do 3 f_equal. lia. }
  split; [exact Hj|].
  intros Hlen i Hi.
  destruct (Hj ((i - idx) mod len (data_pairs self))) as (wa & wb & img & H).
  { pose proof (Z.mod_pos_bound (i - idx) (len (data_pairs self))). lia. }
  exists wa, wb, img. rewrite <- H. f_equal.
  rewrite Z.add_mod_idemp_r by lia.
  replace (idx + (i - idx)) with i by lia.
  symmetry. apply Z.mod_small. exact Hi.
Qed.

End RetrievalExtras.

(* ================================================================= *)
(** * The further properties on the small dataset *)

(** [listing_order_irrelevant]: the listing and its reverse. *)
Lemma listing_order_irrelevant_witness :
  Permutation Example.listing (rev Example.listing) /\
  _create_data_pairs Example.root Example.missing_keys Example.empty_clouds
    (PyFloat f_0_2) Example.listing
  = _create_data_pairs Example.root Example.missing_keys Example.empty_clouds
      (PyFloat f_0_2) (rev Example.listing).
Proof.
  split; [apply Permutation_rev|].
  apply (listing_order_irrelevant Example.root Example.missing_keys
           Example.empty_clouds (PyFloat f_0_2) Example.listing
           (rev Example.listing)).
  apply Permutation_rev.
Defined.

(** [validation_never_outnumbers_training] with [val_ratio = 0.2]. *)
Lemma validation_never_outnumbers_training_witness :
  exists train val,
    _create_data_pairs Example.root Example.missing_keys Example.empty_clouds
      (PyFloat f_0_2) Example.listing = Ok (train, val) /\
    len val <= len train /\
    forall s,
      len (filter (of_seq s) (map fst val))
        <= len (filter (of_seq s) (map fst train)) /\
      (0 < len (filter (of_seq s)
                  (surviving Example.missing_keys Example.empty_clouds
                     Example.listing)) ->
       0 < len (filter (of_seq s) (map fst train))).
Proof.
  exact (validation_never_outnumbers_training Example.root Example.missing_keys
           Example.empty_clouds (PyFloat f_0_2) Example.listing
           ExampleFacts.example_layout ExampleFacts.example_size
           ExampleFacts.example_ratio_well_formed
           ExampleFacts.example_ratio_in_range).
Defined.

(** [sequence_order_preserved] for the first sequence. *)
Lemma sequence_order_preserved_witness :
  exists train val,
    _create_data_pairs Example.root Example.missing_keys Example.empty_clouds
      (PyFloat f_0_2) Example.listing = Ok (train, val) /\
    filter (of_seq "20180807") (map fst train)
      ++ filter (of_seq "20180807") (map fst val)
    = filter (of_seq "20180807")
        (surviving Example.missing_keys Example.empty_clouds
           (sorted Example.listing)) /\
    StronglySorted le_str
      (filter (of_seq "20180807") (map fst train)
         ++ filter (of_seq "20180807") (map fst val)).
Proof.
  exact (sequence_order_preserved Example.root Example.missing_keys
           Example.empty_clouds (PyFloat f_0_2) Example.listing
           ExampleFacts.example_layout ExampleFacts.example_size
           ExampleFacts.example_ratio_well_formed
           ExampleFacts.example_ratio_in_range "20180807").
Defined.

(** [nan_ratio_fails_on_first_group] on the small dataset. *)
Lemma nan_ratio_fails_on_first_group_witness :
  fst (@__init__ Toy.external Example.root tt Example.missing_keys
         Example.empty_clouds None (PyFloat S754_nan) "train" false
         Example.listing)
  = Raise (ValueError "cannot convert float NaN to integer").
Proof.
  refine (proj1 (proj2 (@nan_ratio_fails_on_first_group Toy.external
                          Example.root tt Example.missing_keys
                          Example.empty_clouds None false Example.listing
                          "train" ExampleFacts.example_layout
                          ExampleFacts.example_size)) _).
  vm_compute. discriminate.
Defined.

(** [stored_ratio_rebuilds_dataset] after a clamped [val_ratio = 1.0]. *)
Lemma stored_ratio_rebuilds_dataset_witness :
  exists self,
    fst (@__init__ Toy.external Example.root tt Example.missing_keys
           Example.empty_clouds None (PyFloat f_one) "train" false
           Example.listing) = Ok self /\
    val_ratio self = PyFloat f_half /\
    @__init__ Toy.external Example.root tt Example.missing_keys
      Example.empty_clouds None (val_ratio self) "train" false Example.listing
    = (Ok self, []).
Proof.
  remember (fst (@__init__ Toy.external Example.root tt Example.missing_keys
                   Example.empty_clouds None (PyFloat f_one) "train" false
                   Example.listing)) as r eqn:Hr.
  pose proof Hr as Hc. vm_compute in Hc.
  match type of Hc with _ = Ok ?s => exists s end.
  split; [exact Hc|]. split; [reflexivity|].
  apply (@stored_ratio_rebuilds_dataset Toy.external Example.root tt
           Example.missing_keys Example.empty_clouds None false
           Example.listing (PyFloat f_one) "train").
  rewrite <- Hr. exact Hc.
Defined.

(** [loaders_split_one_index] with loaders that record their arguments. *)
Lemma loaders_split_one_index_witness :
  exists train_dataset val_dataset : @Dataset.t Toy.external,
    @Train.prepare_data_loaders Toy.external _
      (fun dataset batch_size num_workers shuffle =>
         (dataset, batch_size, num_workers, shuffle))
      tt Example.missing_keys Example.empty_clouds Example.listing
      32 8 (PyFloat f_0_2) true
    = (Ok ((train_dataset, 32, 8, true), (val_dataset, 32, 8, false)), []) /\
    __len__ train_dataset + __len__ val_dataset
      = len (surviving Example.missing_keys Example.empty_clouds Example.listing) /\
    image_transform val_dataset = default_transforms /\
    image_transform train_dataset = augment_then_default.
Proof.
  destruct (@loaders_split_one_index Toy.external _
              (fun dataset batch_size num_workers shuffle =>
                 (dataset, batch_size, num_workers, shuffle))
              tt Example.missing_keys Example.empty_clouds Example.listing
              32 8 (PyFloat f_0_2) true
              ExampleFacts.example_nodup ExampleFacts.example_layout
              ExampleFacts.example_size ExampleFacts.example_ratio_well_formed
              ltac:(discriminate))
    as (tr & va & Hp & _ & _ & _ & Hlen & Hva & Htr).
  exists tr, va. repeat split; assumption.
Defined.

(** [image_path_mirrors_scan_path] on the small dataset. *)
Lemma image_path_mirrors_scan_path_witness :
  exists train val,
    _create_data_pairs Example.root Example.missing_keys Example.empty_clouds
      (PyFloat f_0_2) Example.listing = Ok (train, val) /\
    forall lidar_path image_path,
      In (lidar_path, image_path) (train ++ val) ->
      exists s segs,
        seq_name_of lidar_path = Ok s /\
        split_slash image_path =
          segs ++ [s; "camera"; "cam_front_center";
                   image_file_name_of (file_name_of lidar_path)] /\
        seq_name_of image_path = Ok s.
Proof.
  apply (image_path_mirrors_scan_path Example.root Example.missing_keys
           Example.empty_clouds (PyFloat f_0_2) Example.listing
           ExampleFacts.example_layout ExampleFacts.example_size
           ExampleFacts.example_ratio_well_formed
           ExampleFacts.example_ratio_in_range).
  unfold Example.listing. repeat constructor; vm_compute; discriminate.
Defined.

(** [scan_name_maps_to_image_name] on a file name of the dataset. *)
Lemma scan_name_maps_to_image_name_witness :
  make_pair "/data/A2D2" "20180807_145028"
    "/data/A2D2/20180807_145028/lidar/cam_front_center/20180807145028_lidar_frontcenter_000000091.npz"
  = Ok ("/data/A2D2/20180807_145028/lidar/cam_front_center/20180807145028_lidar_frontcenter_000000091.npz",
        "/data/A2D2/20180807_145028/camera/cam_front_center/20180807145028_camera_frontcenter_000000091.png").
Proof.
  apply (scan_name_maps_to_image_name "/data/A2D2" "20180807_145028"
           "/data/A2D2/20180807_145028/lidar/cam_front_center"
           "20180807145028_" "_frontcenter_000000091");
    vm_compute; repeat split; discriminate.
Defined.

(** [index_outside_partition_raises]: index 3 of three records. *)
Lemma index_outside_partition_raises_witness :
  @__getitem__ Toy.external (Toy.dataset None) 0%nat 3 = (Raise IndexError, 0%nat).
Proof.
  apply (@index_outside_partition_raises Toy.external (Toy.dataset None) 0%nat 3).
  right. vm_compute. discriminate.
Defined.

(** [negative_index_counts_from_end]: index -1 of three records. *)
Lemma negative_index_counts_from_end_witness :
  @__getitem__ Toy.external (Toy.dataset None) 0%nat (-1)
  = @__getitem__ Toy.external (Toy.dataset None) 0%nat 2.
Proof.
  apply (@negative_index_counts_from_end Toy.external (Toy.dataset None)
           0%nat (-1)).
  split; vm_compute; [discriminate|reflexivity].
Defined.

(** [failing_cycle_ends_retrieval]: with a 3 x 3 window the third record
    gives no point, and the first record, tried next, does not stack. *)
Lemma failing_cycle_ends_retrieval_witness :
  @empty_cycles Damaged.external (Damaged.dataset (Some (3, 3)))
    0%nat 2 1 2%nat 0 /\
  @__getitem__ Damaged.external (Damaged.dataset (Some (3, 3))) 0%nat 2
  = (Raise (ValueError
       "all the input array dimensions except for the concatenation axis must match exactly"),
     2%nat).
Proof.
  assert (Hc : @empty_cycles Damaged.external (Damaged.dataset (Some (3, 3)))
                 0%nat 2 1 2%nat 0).
  { apply (@cycles_next Damaged.external (Damaged.dataset (Some (3, 3)))
             0%nat 2%nat 2%nat 2 0 (224, 224) [] 0).
    - vm_compute. reflexivity.
    - reflexivity.
    - apply (@cycles_none Damaged.external). }
  split; [exact Hc|].
  apply (@failing_cycle_ends_retrieval Damaged.external
           (Damaged.dataset (Some (3, 3))) 0%nat 2%nat 2%nat 2 0 1%nat _
           ltac:(lia) Hc).
  vm_compute. reflexivity.
Defined.

(** [uncropped_sample_is_whole_scan]: the first of three records. *)
Lemma uncropped_sample_is_whole_scan_witness :
  @__getitem__ Toy.external (Toy.dataset None) 0%nat 0
  = (Ok ((224, 224), geometry_rows Toy.cloud), 0%nat) /\
  List.length (geometry_rows Toy.cloud) = 1%nat.
Proof.
  assert (Hg : getitem (@data_pairs Toy.external (Toy.dataset None)) 0
               = Ok (Example.scan "20180810" "01",
                     snd (pair_of Example.root "20180810"
                            (Example.scan "20180810" "01"))))
    by (vm_compute; reflexivity).
  assert (Hne : points Toy.cloud <> []) by discriminate.
  destruct (@uncropped_sample_is_whole_scan Toy.external (Toy.dataset None)
              0%nat 0 _ _ eq_refl Hg eq_refl eq_refl eq_refl Hne) as [H1 H2].
  split.
  - rewrite H1. vm_compute. reflexivity.
  - exact H2.
Defined.

(** [exhausted_retrieval_tried_every_index]: with a 2 x 2 window no record
    of the three gives a point. *)
Lemma exhausted_retrieval_tried_every_index_witness :
  @__getitem__ Toy.external (Toy.dataset (Some (2, 2))) 0%nat 0
  = (Raise (RuntimeError
       "Could not find a valid sample after 100 attempts starting from index 1"),
     200%nat) /\
  exists wa wb image,
    @_getitem_unsafe Toy.external (Toy.dataset (Some (2, 2))) wa 2
    = (Ok (image, []), wb).
Proof.
  assert (Hr : @__getitem__ Toy.external (Toy.dataset (Some (2, 2))) 0%nat 0
               = (Raise (RuntimeError
                    "Could not find a valid sample after 100 attempts starting from index 1"),
                  200%nat))
    by (vm_compute; reflexivity).
  split; [exact Hr|].
  refine (proj2 (@exhausted_retrieval_tried_every_index Toy.external
                   (Toy.dataset (Some (2, 2))) 0%nat 200%nat 0 _ Hr) _ 2 _).
  - vm_compute. discriminate.
  - split; vm_compute; [discriminate|reflexivity].
Defined.
